(** * PSYCHOLOGYPRO: the streaming analysis orchestrator, embedded in Rocq

    A shallow embedding of
      - server/services/streaming-service.ts  (StreamingService),
      - server/services/llm-service.ts        (LLMService.streamResponse),
      - server/storage.ts                     (DatabaseStorage, credit methods),
      - client/src/utils/user-credits.ts      (truncateToPercentage),
    followed by the properties of section 8 of the specification, and of
      - server/services/file-service.ts       (FileService),
      - client/src/utils/analysis-persistence.ts,
      - the credit check of client/src/utils/user-credits.ts and the
        pending credits of server/storage.ts,
    followed by further properties of all of them.

    Conventions.  JavaScript strings are Rocq [string]s (texts whose code
    units are below 256); array lengths and indices are [nat]; credit
    balances are [Z];
    a [Map] is a [gmap]; a [Set] of callbacks is a duplicate-free list in
    insertion order, which is the order [Set.prototype.forEach] visits.
    Wall-clock fields ([timestamp], [completedAt], [failedAt]) are left out
    of events and results. *)

From Stdlib Require Import ZArith Ascii String DecimalString.
From stdpp Require Import gmap strings list.

Local Open Scope string_scope.
Local Open Scope list_scope.
Local Open Scope nat_scope.

(** ** JavaScript string primitives used by the sources *)

Module JS.

(** The class [\s] of regular expressions, which is also the set that
    [String.prototype.trim] strips, on code units below 256:
    TAB, LF, VT, FF, CR, SPACE and NBSP. *)
Definition is_space (c : ascii) : bool :=
  let n := nat_of_ascii c in
  (n =? 9) || (n =? 10) || (n =? 11) || (n =? 12) || (n =? 13)
  || (n =? 32) || (n =? 160).

(** [split_go in_ws s]: the first piece of [s] and the pieces after it,
    where [in_ws] says that a separator run is already open (so further
    white space belongs to it). *)
Fixpoint split_go (in_ws : bool) (s : string) : string * list string :=
  match s with
  | EmptyString => (EmptyString, [])
  | String c s' =>
      if is_space c then
        if in_ws then split_go true s'
        else (EmptyString, let '(p, ps) := split_go true s' in p :: ps)
      else
        let '(p, ps) := split_go false s' in (String c p, ps)
  end.

(** [text.split(/\s+/)]: never empty; only the first and the last piece
    can be the empty string. *)
Definition split_ws (s : string) : list string :=
  let '(p, ps) := split_go false s in p :: ps.

(** [pieces.join(sep)] *)
Fixpoint join (sep : string) (pieces : list string) : string :=
  match pieces with
  | [] => ""
  | [p] => p
  | p :: ps => p +:+ sep +:+ join sep ps
  end.

Fixpoint trim_left (s : string) : string :=
  match s with
  | EmptyString => EmptyString
  | String c s' => if is_space c then trim_left s' else s
  end.

Fixpoint trim_right (s : string) : string :=
  match s with
  | EmptyString => EmptyString
  | String c s' =>
      match trim_right s' with
      | EmptyString => if is_space c then EmptyString else String c EmptyString
      | r => String c r
      end
  end.

(** [s.trim()] *)
Definition trim (s : string) : string := trim_right (trim_left s).

(** [s.startsWith(p)] *)
Definition startsWith (s p : string) : bool := String.prefix p s.

(** [s.slice(n)] for [0 <= n] *)
Fixpoint slice_from (n : nat) (s : string) : string :=
  match n, s with
  | 0, _ => s
  | S n', String _ s' => slice_from n' s'
  | S _, EmptyString => EmptyString
  end.

(** [s.substring(i, j)] for [0 <= i <= j]; both ends are clamped to the
    length of [s]. *)
Definition substring (i j : nat) (s : string) : string :=
  String.substring i (j - i) s.

(** [items.slice(i, j)] on arrays, for [0 <= i <= j] *)
Definition slice {T} (i j : nat) (items : list T) : list T :=
  take (j - i) (drop i items).

(** [s.split('\n')] as the complete lines and the unterminated rest:
    [s.split('\n')] is [lines ++ [rest]]. *)
Fixpoint split_lines (s : string) : list string * string :=
  match s with
  | EmptyString => ([], EmptyString)
  | String c s' =>
      let '(ls, rest) := split_lines s' in
      if Ascii.eqb c "010"%char then (EmptyString :: ls, rest)
      else match ls with
           | [] => ([], String c rest)
           | l :: ls' => (String c l :: ls', rest)
           end
  end.

(** The lower-case form of a code unit below 256: A-Z, and the accented
    capitals 192-222 but for the multiplication sign 215. *)
Definition lower (c : ascii) : ascii :=
  let n := nat_of_ascii c in
  if ((65 <=? n) && (n <=? 90))
     || ((192 <=? n) && (n <=? 222) && negb (n =? 215))
  then ascii_of_nat (n + 32) else c.

(** [s.toLowerCase()] *)
Fixpoint toLowerCase (s : string) : string :=
  match s with
  | EmptyString => EmptyString
  | String c s' => String (lower c) (toLowerCase s')
  end.

(** Template-literal rendering of a non-negative integer. *)
Definition show_nat (n : nat) : string :=
  NilZero.string_of_uint (Nat.to_uint n).

End JS.

(** ** client/src/utils/user-credits.ts *)

Module UserCredits.

Definition sentenceEndings : list string :=
  [". "; String "." (String "010" ""); "! "; String "!" (String "010" "");
   "? "; String "?" (String "010" "")].

(** The inner [for (const ending of sentenceEndings)] at index [i]:
    the new cut point if some ending is found there. *)
Definition ending_at (text : string) (i : nat) : option nat :=
  match
    List.find (fun ending =>
      String.eqb (JS.substring i (i + String.length ending) text) ending)
      sentenceEndings
  with
  | Some ending => Some (i + String.length ending)
  | None => None
  end.

(** The outer [for (let i = targetLength; i >= Math.max(0, targetLength - 100); i--)],
    with [n] the number of iterations still to run. *)
Fixpoint sentence_loop (text : string) (targetLength n i cutPoint : nat) : nat :=
  match n with
  | 0 => cutPoint
  | S n' =>
      let cutPoint' :=
        match ending_at text i with Some c => c | None => cutPoint end in
      if negb (cutPoint' =? targetLength) then cutPoint'
      else sentence_loop text targetLength n' (i - 1) cutPoint'
  end.

(** [while (cutPoint > 0 && text[cutPoint] !== ' ') cutPoint--] *)
Fixpoint word_boundary (text : string) (cutPoint : nat) : nat :=
  match cutPoint with
  | 0 => 0
  | S c' =>
      match String.get cutPoint text with
      | Some ch => if Ascii.eqb ch " "%char then cutPoint
                   else word_boundary text c'
      | None => word_boundary text c'
      end
  end.

(** The cut point handed to the final [substring(0, cutPoint)].
    [Math.floor(text.length * (percentage / 100))] is computed on integers:
    for the percentage 30 and lengths below 2^50 the double-precision
    product rounds to the same integer part. *)
Definition cut_point (text : string) (percentage : nat) : nat :=
  let targetLength := String.length text * percentage / 100 in
  let cutPoint :=
    sentence_loop text targetLength (S (Nat.min targetLength 100))
                  targetLength targetLength in
  if cutPoint =? targetLength then word_boundary text cutPoint else cutPoint.

Definition truncateToPercentage (text : string) (percentage : nat) : string :=
  if 100 <=? percentage then text
  else JS.trim (JS.substring 0 (cut_point text percentage) text).

End UserCredits.

(** ** server/services/file-service.ts: the repository's word count *)

Module FileService.

(** [text.trim().split(/\s+/).filter(word => word.length > 0).length] *)
Definition countWords (text : string) : nat :=
  length (List.filter (fun word => 0 <? String.length word)
                      (JS.split_ws (JS.trim text))).

End FileService.

(** ** server/services/llm-service.ts: the stream parser *)

Module LLMService.

(** What [JSON.parse] returns.  Numbers only matter through their
    truthiness here, so they are kept as integers; an object lists each of
    its keys once. *)
#[warnings="-register-all"]
Inductive JSON :=
| JNull
| JBool (b : bool)
| JNumber (n : Z)
| JString (s : string)
| JArray (items : list JSON)
| JObject (fields : list (string * JSON)).

Inductive LLMProviderType := zhi1 | zhi2 | zhi3 | zhi4.

Definition provider_name (provider : LLMProviderType) : string :=
  match provider with
  | zhi1 => "zhi1" | zhi2 => "zhi2" | zhi3 => "zhi3" | zhi4 => "zhi4"
  end.

Fixpoint assoc (name : string) (fields : list (string * JSON)) : option JSON :=
  match fields with
  | [] => None
  | (k, v) :: rest => if String.eqb k name then Some v else assoc name rest
  end.

(** [v.name] for the names the source reads ([choices], [delta],
    [content], [type], [text]): only objects carry them; [None] is
    [undefined]. *)
Definition prop (name : string) (v : JSON) : option JSON :=
  match v with
  | JObject fields => assoc name fields
  | _ => None
  end.

(** [v[0]] *)
Definition index0 (v : JSON) : option JSON :=
  match v with
  | JArray (x :: _) => Some x
  | JString (String c _) => Some (JString (String c EmptyString))
  | JObject fields => assoc "0" fields
  | _ => None
  end.

(** Optional chaining [o?.f]: [undefined] when [o] is [null] or
    [undefined]. *)
Definition chain (f : JSON -> option JSON) (o : option JSON) : option JSON :=
  match o with
  | None | Some JNull => None
  | Some v => f v
  end.

Definition truthy (v : JSON) : bool :=
  match v with
  | JNull => false
  | JBool b => b
  | JNumber n => negb (n =? 0)%Z
  | JString s => negb (String.eqb s "")
  | JArray _ | JObject _ => true
  end.

(** [o || null], with [None] for the resulting [null]. *)
Definition or_null (o : option JSON) : option JSON :=
  match o with
  | Some v => if truthy v then Some v else None
  | None => None
  end.

(** [extractContentFromResponse]; the outer [None] is the [TypeError] of
    reading a property of [null]. *)
Definition extractContentFromResponse (parsed : JSON) (provider : LLMProviderType)
  : option (option JSON) :=
  match parsed with
  | JNull => None
  | _ =>
      match provider with
      | zhi1 | zhi3 | zhi4 =>
          Some (or_null (chain (prop "content")
                          (chain (prop "delta")
                            (chain index0 (prop "choices" parsed)))))
      | zhi2 =>
          match prop "type" parsed with
          | Some (JString "content_block_delta") =>
              Some (or_null (chain (prop "text") (prop "delta" parsed)))
          | _ => Some None
          end
      end
  end.

(** The HTTP response as [fetch] resolves it: [body] lists what the
    successive [reader.read()] calls decode, [None] when there is no
    readable body. *)
Record Response := {
  ok : bool;
  status : nat;
  statusText : string;
  text : string;
  body : option (list string)
}.

(** What a consumer of the generator sees: the values yielded, and the
    error thrown at the end, if any. *)
Record Stream := { yielded : list JSON; thrown : option string }.

Section Parser.

(** [JSON.parse], [None] when it throws a [SyntaxError]. *)
Variable JSON_parse : string -> option JSON.

(** [for (const line of lines)]: the values yielded and whether the
    generator returned on the [[DONE]] sentinel.  The [catch] around
    the parse also swallows the [TypeError] of the extraction. *)
Fixpoint process_lines (provider : LLMProviderType) (lines : list string)
  : list JSON * bool :=
  match lines with
  | [] => ([], false)
  | line :: rest =>
      if JS.startsWith line "data: " then
        let data := JS.trim (JS.slice_from 6 line) in
        if String.eqb data "[DONE]" then ([], true)
        else
          match JSON_parse data with
          | Some parsed =>
              match extractContentFromResponse parsed provider with
              | Some (Some content) =>
                  let '(ys, returned) := process_lines provider rest in
                  (content :: ys, returned)
              | Some None | None => process_lines provider rest
              end
          | None => process_lines provider rest
          end
      else process_lines provider rest
  end.

(** [while (true) { const { done, value } = await reader.read(); ... }] *)
Fixpoint read_loop (provider : LLMProviderType) (reads : list string)
         (buffer : string) : list JSON :=
  match reads with
  | [] => []
  | value :: more =>
      let buffer := buffer +:+ value in
      let '(lines, rest) := JS.split_lines buffer in
      let '(ys, returned) := process_lines provider lines in
      if returned then ys else ys ++ read_loop provider more rest
  end.

Definition streamResponse (apiKey : string) (provider : LLMProviderType)
           (response : Response) : Stream :=
  if String.eqb apiKey "" then
    {| yielded := [];
       thrown := Some ("API key not configured for " +:+ provider_name provider) |}
  else if negb (ok response) then
    {| yielded := [];
       thrown := Some ("LLM API error: " +:+ JS.show_nat (status response) +:+ " "
                       +:+ statusText response +:+ " - " +:+ text response) |}
  else
    match body response with
    | None => {| yielded := []; thrown := Some "Failed to get response reader" |}
    | Some reads => {| yielded := read_loop provider reads ""; thrown := None |}
    end.

End Parser.

End LLMService.

(** ** The data model: events, channels, stored rows *)

(** The closed set of events broadcast to subscribers. *)
Inductive StreamEvent :=
| EvSummary (content : string)
| EvRawStream (batchNumber : nat) (rawContent : string)
| EvBatchComplete (batchNumber : nat) (finalRawResponse : string)
| EvDelay (progress : nat)
| EvComplete
| EvStopped (message : string)
| EvError (error : string).

Definition is_terminal (e : StreamEvent) : bool :=
  match e with
  | EvComplete | EvStopped _ | EvError _ => true
  | _ => false
  end.


Definition is_stopped (e : StreamEvent) : bool :=
  match e with EvStopped _ => true | _ => false end.

(** [interface ActiveStream]; a callback is known by its handle. *)
Record ActiveStream := { callbacks : list nat; isActive : bool }.

(** The two shapes written to the [results] column. *)
Inductive Results :=
| FinalResults (summary : string) (batches : list string)
               (questions : list string) (type : string)
| ErrorResults (error : string) (type : string).

Module Analysis.
Record t := mk {
  id : string;
  type : string;
  textContent : string;
  additionalContext : option string;
  llmProvider : string;
  status : string;
  results : option Results;
  userId : option Z
}.

Definition with_status (s : string) (a : t) : t :=
  mk (id a) (type a) (textContent a) (additionalContext a) (llmProvider a)
     s (results a) (userId a).

Definition with_results (r : Results) (a : t) : t :=
  mk (id a) (type a) (textContent a) (additionalContext a) (llmProvider a)
     (status a) (Some r) (userId a).
End Analysis.

Module User.
Record t := mk { username : string; credits : Z }.

Definition with_credits (c : Z) (u : t) : t := mk (username u) c.
End User.

(** Everything the service and its collaborators mutate: the two tables of
    the storage, the registry of channels, and the log of callback
    invocations (handle and event, oldest first). *)
Record World := {
  analyses : gmap string Analysis.t;
  users : gmap Z User.t;
  activeStreams : gmap string ActiveStream;
  delivered : list (nat * StreamEvent)
}.

Definition set_analyses (f : gmap string Analysis.t -> gmap string Analysis.t)
  (w : World) : World :=
  {| analyses := f (analyses w); users := users w;
     activeStreams := activeStreams w; delivered := delivered w |}.

Definition set_users (f : gmap Z User.t -> gmap Z User.t) (w : World) : World :=
  {| analyses := analyses w; users := f (users w);
     activeStreams := activeStreams w; delivered := delivered w |}.

Definition set_activeStreams
  (f : gmap string ActiveStream -> gmap string ActiveStream) (w : World) : World :=
  {| analyses := analyses w; users := users w;
     activeStreams := f (activeStreams w); delivered := delivered w |}.

Definition set_delivered
  (f : list (nat * StreamEvent) -> list (nat * StreamEvent)) (w : World) : World :=
  {| analyses := analyses w; users := users w;
     activeStreams := activeStreams w; delivered := f (delivered w) |}.

(** The events a given callback has received, oldest first. *)
Definition received (cb : nat) (w : World) : list StreamEvent :=
  (List.filter (fun d => fst d =? cb) (delivered w)).*2.

(** ** Computations that return or throw *)

Inductive Outcome (A : Type) :=
| Returned (a : A)
| Thrown (message : string).
Arguments Returned {A} a.
Arguments Thrown {A} message.

Definition M (A : Type) : Type := World -> Outcome A * World.

Definition ret {A} (a : A) : M A := fun w => (Returned a, w).

Definition throw {A} (message : string) : M A := fun w => (Thrown message, w).

Definition bind {A B} (m : M A) (k : A -> M B) : M B :=
  fun w =>
    match m w with
    | (Returned a, w') => k a w'
    | (Thrown message, w') => (Thrown message, w')
    end.

(** [try { m } catch (error) { handler(error.message) }] *)
Definition try_catch {A} (m : M A) (handler : string -> M A) : M A :=
  fun w =>
    match m w with
    | (Returned a, w') => (Returned a, w')
    | (Thrown message, w') => handler message w'
    end.

(** A statement that cannot throw. *)
Definition exec (f : World -> World) : M unit := fun w => (Returned tt, f w).

(** An expression that reads the state. *)
Definition gets {A} (f : World -> A) : M A := fun w => (Returned (f w), w).

Notation "'let*' x ':=' m 'in' k" := (bind m (fun x => k))
  (at level 10, x pattern, m at level 100, k at level 200).
Notation "m ';;' k" := (bind m (fun _ => k))
  (at level 100, k at level 200, right associativity).

(** ** server/storage.ts: DatabaseStorage *)

Module DatabaseStorage.

Definition getUserById (id : Z) (w : World) : option User.t := users w !! id.

Definition updateUserCredits (userId : Z) (credits : Z) (w : World) : World :=
  set_users (alter (User.with_credits credits) userId) w.

Definition getAnalysis (id : string) (w : World) : option Analysis.t :=
  analyses w !! id.

Definition updateAnalysisStatus (id status : string) (w : World) : World :=
  set_analyses (alter (Analysis.with_status status) id) w.

Definition updateAnalysisResults (id : string) (results : Results) (w : World) : World :=
  set_analyses (alter (Analysis.with_results results) id) w.

(** [user.username.toLowerCase() === 'jmkuczynski'] *)
Definition is_admin (user : User.t) : bool :=
  String.eqb (JS.toLowerCase (User.username user)) "jmkuczynski".

(** [user.credits || 0] is [user.credits]: the column is a non-null integer. *)
Definition consumeUserCredits (userId : Z) (creditsUsed : Z) : M unit :=
  let* user := gets (getUserById userId) in
  match user with
  | None => throw "User not found"
  | Some user =>
      if is_admin user then ret tt
      else
        let newCredits := Z.max 0 (User.credits user - creditsUsed) in
        exec (updateUserCredits userId newCredits)
  end.

Definition checkUserCredits (userId : Z) (requiredCredits : Z) : M bool :=
  let* user := gets (getUserById userId) in
  match user with
  | None => ret false
  | Some user =>
      if is_admin user then ret true
      else ret (requiredCredits <=? User.credits user)%Z
  end.

End DatabaseStorage.

(** ** server/services/streaming-service.ts: StreamingService *)

Module StreamingService.

(** *** What the service is constructed with, and what runs beside it *)

(** Calls that the HTTP routes make on the service while a run is
    suspended at an [await]. *)
Inductive ExternalCall :=
| CallStreamAnalysis (analysisId : string) (callback : nat)
| CallStopStreaming (analysisId : string)
| CallStopAnalysis (analysisId : string).

(** One resumption of [for await (const chunk of streamResponse(...))]:
    the provider yields a chunk (after the [onChunk] callback has run), or
    a route handler runs while the read is pending. *)
Inductive StreamStep :=
| Yield (chunk : string)
| Meanwhile (call : ExternalCall).

(** A whole provider call: its steps, then a clean end or a thrown error. *)
Record ProviderStream := { steps : list StreamStep; failure : option string }.

Inductive Request :=
| SummaryRequest
| BatchRequest (batchNumber : nat).

(** The injected [LLMService]: the answer to each streaming call of the
    run, and the nine question lists. *)
Record LLM := {
  streamResponse : Request -> ProviderStream;
  getCognitiveQuestions : list string;
  getComprehensiveCognitiveQuestions : list string;
  getMicrocognitiveQuestions : list string;
  getPsychologicalQuestions : list string;
  getComprehensivePsychologicalQuestions : list string;
  getMicropsychologicalQuestions : list string;
  getPsychopathologicalQuestions : list string;
  getComprehensivePsychopathologicalQuestions : list string;
  getMicropsychopathologicalQuestions : list string
}.

(** The service's surroundings for one run: the LLM service, and the
    route handlers that run during tick [step] of the delay after batch
    [batchNumber]. *)
Record Environment := {
  llmService : LLM;
  duringDelay : nat -> nat -> list ExternalCall
}.

(** *** Truncation *)

(** [Math.floor(words.length * (percentage / 100))] is computed on
    integers: for the percentage 30, the only partial one in use, the
    double-precision product has the same integer part. *)
Definition truncateToPercentage (text : string) (percentage : nat) : string :=
  if 100 <=? percentage then text
  else
    let words := JS.split_ws text in
    let targetLength := length words * percentage / 100 in
    let truncated := JS.join " " (JS.slice 0 (Nat.max 1 targetLength) words) in
    truncated +:+ (if String.length truncated <? String.length text then "..." else "").

(** *** The registry of channels *)

Definition add_callback (callback : nat) (stream : ActiveStream) : ActiveStream :=
  {| callbacks := if bool_decide (callback ∈ callbacks stream) then callbacks stream
                  else callbacks stream ++ [callback];
     isActive := isActive stream |}.

Definition streamAnalysis (analysisId : string) (callback : nat) (w : World) : World :=
  let w :=
    match activeStreams w !! analysisId with
    | None => set_activeStreams
                (insert analysisId {| callbacks := []; isActive := true |}) w
    | Some _ => w
    end in
  set_activeStreams (alter (add_callback callback) analysisId) w.

Definition deactivate (stream : ActiveStream) : ActiveStream :=
  {| callbacks := callbacks stream; isActive := false |}.

Definition clear (stream : ActiveStream) : ActiveStream :=
  {| callbacks := []; isActive := isActive stream |}.

Definition broadcastToStream (analysisId : string) (data : StreamEvent) (w : World)
  : World :=
  match activeStreams w !! analysisId with
  | Some stream =>
      if isActive stream then
        set_delivered (fun log => log ++ map (fun callback => (callback, data))
                                             (callbacks stream)) w
      else w
  | None => w
  end.

Definition stopStreaming (analysisId : string) (w : World) : World :=
  match activeStreams w !! analysisId with
  | Some _ =>
      let w := set_activeStreams (alter deactivate analysisId) w in
      let w := set_activeStreams (alter clear analysisId) w in
      set_activeStreams (delete analysisId) w
  | None => w
  end.

(** The statements in the order of the source; [stream] and the entry of
    the map are one object, so each update is made on the entry. *)
Definition stopAnalysis (analysisId : string) (w : World) : World :=
  match activeStreams w !! analysisId with
  | Some _ =>
      let w := set_activeStreams (alter deactivate analysisId) w in
      let w := broadcastToStream analysisId (EvStopped "Analysis stopped by user") w in
      let w := set_activeStreams (alter clear analysisId) w in
      set_activeStreams (delete analysisId) w
  | None => w
  end.

Definition external (call : ExternalCall) (w : World) : World :=
  match call with
  | CallStreamAnalysis analysisId callback => streamAnalysis analysisId callback w
  | CallStopStreaming analysisId => stopStreaming analysisId w
  | CallStopAnalysis analysisId => stopAnalysis analysisId w
  end.

Definition externals (calls : list ExternalCall) (w : World) : World :=
  foldl (fun w call => external call w) w calls.

(** [!currentStream || !currentStream.isActive] *)
Definition stopped (analysisId : string) (w : World) : bool :=
  match activeStreams w !! analysisId with
  | Some stream => negb (isActive stream)
  | None => true
  end.

(** *** Batches, costs, delays *)

(** [for (let i = 0; i < items.length; i += batchSize)]; [None] when the
    loop has not ended after [fuel] rounds. *)
Fixpoint createBatches_loop {T} (fuel : nat) (items : list T) (batchSize i : nat)
         (batches : list (list T)) : option (list (list T)) :=
  if i <? length items then
    match fuel with
    | 0 => None
    | S fuel' =>
        createBatches_loop fuel' items batchSize (i + batchSize)
                           (batches ++ [JS.slice i (i + batchSize) items])
    end
  else Some batches.

(** A positive [batchSize] needs at most [items.length] rounds; with
    [batchSize = 0] and a non-empty array the source loops forever. *)
Definition createBatches {T} (items : list T) (batchSize : nat)
  : option (list (list T)) :=
  createBatches_loop (length items) items batchSize 0 [].

Inductive AnalysisType :=
| cognitive | comprehensive_cognitive | microcognitive
| psychological | comprehensive_psychological | micropsychological
| psychopathological | comprehensive_psychopathological | micropsychopathological.

(** The [case] labels of the dispatch, also the keys of the cost table. *)
Definition analysisType_of (type : string) : option AnalysisType :=
  if String.eqb type "cognitive" then Some cognitive
  else if String.eqb type "comprehensive-cognitive" then Some comprehensive_cognitive
  else if String.eqb type "microcognitive" then Some microcognitive
  else if String.eqb type "psychological" then Some psychological
  else if String.eqb type "comprehensive-psychological" then Some comprehensive_psychological
  else if String.eqb type "micropsychological" then Some micropsychological
  else if String.eqb type "psychopathological" then Some psychopathological
  else if String.eqb type "comprehensive-psychopathological"
       then Some comprehensive_psychopathological
  else if String.eqb type "micropsychopathological" then Some micropsychopathological
  else None.

Definition ANALYSIS_CREDIT_COST (t : AnalysisType) : Z :=
  match t with
  | cognitive => 2000
  | comprehensive_cognitive => 5000
  | microcognitive => 500
  | psychological => 1500
  | comprehensive_psychological => 4000
  | micropsychological => 400
  | psychopathological => 1500
  | comprehensive_psychopathological => 4000
  | micropsychopathological => 400
  end.

Definition getRequiredCredits (analysisType : string) : Z :=
  match analysisType_of analysisType with
  | Some t => ANALYSIS_CREDIT_COST t
  | None => 2000
  end.

(** [for (let step = 0; step <= steps; step++)], [n] rounds still to run.
    [Math.round((step / steps) * 100)] is the half-up rounding of the
    quotient. *)
Fixpoint streamDelay_loop (env : Environment) (analysisId : string)
         (batchNumber steps n step : nat) (w : World) : World :=
  match n with
  | 0 => w
  | S n' =>
      let progress := (200 * step + steps) / (2 * steps) in
      let w := broadcastToStream analysisId (EvDelay progress) w in
      let w := externals (duringDelay env batchNumber step) w in
      streamDelay_loop env analysisId batchNumber steps n' (S step) w
  end.

(** [batchNumber] names the batch just finished; it only selects the
    route handlers of the environment. *)
Definition streamDelay (env : Environment) (analysisId : string) (delayMs : nat)
           (batchNumber : nat) (w : World) : World :=
  let interval := 100 in
  let steps := delayMs / interval in
  streamDelay_loop env analysisId batchNumber steps (S steps) 0 w.

(** *** Streaming one provider call *)

(** [for await (const chunk of this.llmService.streamResponse(.., onChunk))]:
    at each chunk [onChunk] appends it, sets [hasContent] and broadcasts
    the event built from the text to display; the loop body is empty. *)
Fixpoint for_await (analysisId : string) (hasFullAccess : bool)
         (event : string -> StreamEvent) (steps : list StreamStep)
         (fullResponse : string) (hasContent : bool) (w : World)
  : string * bool * World :=
  match steps with
  | [] => (fullResponse, hasContent, w)
  | Yield chunk :: rest =>
      let fullResponse := fullResponse +:+ chunk in
      let displayContent :=
        if hasFullAccess then fullResponse
        else truncateToPercentage fullResponse 30 in
      for_await analysisId hasFullAccess event rest fullResponse true
                (broadcastToStream analysisId (event displayContent) w)
  | Meanwhile call :: rest =>
      for_await analysisId hasFullAccess event rest fullResponse hasContent
                (external call w)
  end.

Definition streamSummary (env : Environment) (analysis : Analysis.t)
           (hasFullAccess : bool) : M string :=
  fun w =>
    let stream := streamResponse (llmService env) SummaryRequest in
    let '(summary, hasContent, w) :=
      for_await (Analysis.id analysis) hasFullAccess EvSummary
                (steps stream) "" false w in
    match failure stream with
    | Some errorMessage =>
        (Thrown ("Summary generation failed: " +:+ errorMessage), w)
    | None =>
        if hasContent then (Returned summary, w)
        else (Thrown ("Summary generation failed: "
                      +:+ "No content received from LLM during summary generation"), w)
    end.

(** The common body of [processBatch] and [processMicroBatch], which
    differ in the prompt they build and in the wording [label] of their
    errors. *)
Definition stream_batch (label_empty label_failed : string) (env : Environment)
           (analysis : Analysis.t) (batchNumber : nat) (hasFullAccess : bool)
  : M string :=
  fun w =>
    let stream := streamResponse (llmService env) (BatchRequest batchNumber) in
    let '(fullResponse, hasContent, w) :=
      for_await (Analysis.id analysis) hasFullAccess (EvRawStream batchNumber)
                (steps stream) "" false w in
    let failed := label_failed +:+ JS.show_nat batchNumber +:+ " processing failed: " in
    match failure stream with
    | Some errorMessage => (Thrown (failed +:+ errorMessage), w)
    | None =>
        if hasContent then
          let displayResponse :=
            if hasFullAccess then fullResponse
            else truncateToPercentage fullResponse 30 in
          (Returned fullResponse,
           broadcastToStream (Analysis.id analysis)
                             (EvBatchComplete batchNumber displayResponse) w)
        else (Thrown (failed +:+ label_empty +:+ JS.show_nat batchNumber), w)
    end.

Definition processBatch (env : Environment) (analysis : Analysis.t)
           (questions : list string) (batchNumber : nat) (hasFullAccess : bool)
  : M string :=
  stream_batch "No content received from LLM for batch " "Batch "
               env analysis batchNumber hasFullAccess.

Definition processMicroBatch (env : Environment) (analysis : Analysis.t)
           (questions : list string) (batchNumber : nat) (hasFullAccess : bool)
  : M string :=
  stream_batch "No content received from LLM for micro batch " "Micro batch "
               env analysis batchNumber hasFullAccess.

(** *** The batch loops *)

(** [for (let i = 0; i < batches.length; i++)] as the three loops of the
    source share it; [remaining] is [batches] from index [i] on.  They
    differ in the method called per batch ([process]) and in what a stop
    check does ([onStop]); [finish] wraps the normal result. *)
#[warnings="-abstract-large-number"]
Fixpoint batch_loop {R} (env : Environment) (analysis : Analysis.t)
         (process : list string -> nat -> M string)
         (onStop : M R) (finish : list string -> R)
         (batches remaining : list (list string)) (i : nat)
         (batchResults : list string) : M R :=
  match remaining with
  | [] => ret (finish batchResults)
  | batch :: rest =>
      let* isStopped := gets (stopped (Analysis.id analysis)) in
      if (isStopped : bool) then onStop
      else
        let batchNumber := i + 1 in
        let* batchResponse := process batch batchNumber in
        let batchResults := batchResults ++ [batchResponse] in
        let* isStopped := gets (stopped (Analysis.id analysis)) in
        if (isStopped : bool) then onStop
        else
          (if i <? length batches - 1
           then exec (streamDelay env (Analysis.id analysis) 10000 batchNumber)
           else ret tt);;
          batch_loop env analysis process onStop finish batches rest (i + 1)
                     batchResults
  end.

Definition processBatchesWithResults (env : Environment) (analysis : Analysis.t)
           (batches : list (list string)) (hasFullAccess : bool) : M (list string) :=
  batch_loop env analysis
             (fun batch batchNumber =>
                processBatch env analysis batch batchNumber hasFullAccess)
             (throw "Analysis stopped by user") (fun batchResults => batchResults)
             batches batches 0 [].

Definition processMicroBatchesWithResults (env : Environment) (analysis : Analysis.t)
           (batches : list (list string)) (hasFullAccess : bool) : M (list string) :=
  batch_loop env analysis
             (fun batch batchNumber =>
                processMicroBatch env analysis batch batchNumber hasFullAccess)
             (throw "Analysis stopped by user") (fun batchResults => batchResults)
             batches batches 0 [].

(** *** The nine analyses *)

(** [this.createBatches(questions, 5)]; the loop always ends for a batch
    size of 5 (lemma [createBatches_total]). *)
Definition batches_of (questions : list string) : list (list string) :=
  default [] (createBatches questions 5).

Definition save (analysis : Analysis.t) (summary : string)
           (batchResults questions : list string) : M unit :=
  exec (DatabaseStorage.updateAnalysisResults (Analysis.id analysis)
          (FinalResults summary batchResults questions (Analysis.type analysis))).

(** The loop is written inside the method, and its stop checks are a bare
    [return]: the method ends there, before the results are saved. *)
Definition processCognitiveAnalysis (env : Environment) (analysis : Analysis.t)
           (hasFullAccess : bool) : M unit :=
  let* summary := streamSummary env analysis hasFullAccess in
  let questions := getCognitiveQuestions (llmService env) in
  let batches := batches_of questions in
  let* batchResults :=
    batch_loop env analysis
               (fun batch batchNumber =>
                  processBatch env analysis batch batchNumber hasFullAccess)
               (ret None) Some batches batches 0 [] in
  match batchResults with
  | None => ret tt
  | Some batchResults => save analysis summary batchResults questions
  end.

(** The five methods that call [processBatchesWithResults] differ in the
    question list only. *)
Definition process_standard (questions : list string) (env : Environment)
           (analysis : Analysis.t) (hasFullAccess : bool) : M unit :=
  let* summary := streamSummary env analysis hasFullAccess in
  let batches := batches_of questions in
  let* batchResults := processBatchesWithResults env analysis batches hasFullAccess in
  save analysis summary batchResults questions.

(** The three methods that call [processMicroBatchesWithResults]. *)
Definition process_micro (questions : list string) (env : Environment)
           (analysis : Analysis.t) (hasFullAccess : bool) : M unit :=
  let* summary := streamSummary env analysis hasFullAccess in
  let batches := batches_of questions in
  let* batchResults :=
    processMicroBatchesWithResults env analysis batches hasFullAccess in
  save analysis summary batchResults questions.

Definition processComprehensiveCognitiveAnalysis (env : Environment) :=
  process_standard (getComprehensiveCognitiveQuestions (llmService env)) env.
Definition processPsychologicalAnalysis (env : Environment) :=
  process_standard (getPsychologicalQuestions (llmService env)) env.
Definition processComprehensivePsychologicalAnalysis (env : Environment) :=
  process_standard (getComprehensivePsychologicalQuestions (llmService env)) env.
Definition processPsychopathologicalAnalysis (env : Environment) :=
  process_standard (getPsychopathologicalQuestions (llmService env)) env.
Definition processComprehensivePsychopathologicalAnalysis (env : Environment) :=
  process_standard (getComprehensivePsychopathologicalQuestions (llmService env)) env.
Definition processMicrocognitiveAnalysis (env : Environment) :=
  process_micro (getMicrocognitiveQuestions (llmService env)) env.
Definition processMicropsychologicalAnalysis (env : Environment) :=
  process_micro (getMicropsychologicalQuestions (llmService env)) env.
Definition processMicropsychopathologicalAnalysis (env : Environment) :=
  process_micro (getMicropsychopathologicalQuestions (llmService env)) env.

(** The question list of each kind. *)
Definition questions_of (env : Environment) (t : AnalysisType) : list string :=
  match t with
  | cognitive => getCognitiveQuestions (llmService env)
  | comprehensive_cognitive => getComprehensiveCognitiveQuestions (llmService env)
  | microcognitive => getMicrocognitiveQuestions (llmService env)
  | psychological => getPsychologicalQuestions (llmService env)
  | comprehensive_psychological =>
      getComprehensivePsychologicalQuestions (llmService env)
  | micropsychological => getMicropsychologicalQuestions (llmService env)
  | psychopathological => getPsychopathologicalQuestions (llmService env)
  | comprehensive_psychopathological =>
      getComprehensivePsychopathologicalQuestions (llmService env)
  | micropsychopathological => getMicropsychopathologicalQuestions (llmService env)
  end.

(** *** The run *)

(** The first block of [processAnalysis]: [if (analysis.userId) { ... }];
    a user id of 0 is falsy. *)
Definition resolveAccess (analysis : Analysis.t) : M bool :=
  match Analysis.userId analysis with
  | Some userId =>
      if (userId =? 0)%Z then ret false
      else
        let requiredCredits := getRequiredCredits (Analysis.type analysis) in
        let* hasCredits := DatabaseStorage.checkUserCredits userId requiredCredits in
        if (hasCredits : bool) then
          DatabaseStorage.consumeUserCredits userId requiredCredits;;
          ret true
        else ret false
  | None => ret false
  end.

(** [switch (analysis.type)] *)
Definition dispatch (env : Environment) (analysis : Analysis.t)
           (hasFullAccess : bool) : M unit :=
  match analysisType_of (Analysis.type analysis) with
  | Some cognitive => processCognitiveAnalysis env analysis hasFullAccess
  | Some comprehensive_cognitive =>
      processComprehensiveCognitiveAnalysis env analysis hasFullAccess
  | Some microcognitive => processMicrocognitiveAnalysis env analysis hasFullAccess
  | Some psychological => processPsychologicalAnalysis env analysis hasFullAccess
  | Some comprehensive_psychological =>
      processComprehensivePsychologicalAnalysis env analysis hasFullAccess
  | Some micropsychological =>
      processMicropsychologicalAnalysis env analysis hasFullAccess
  | Some psychopathological =>
      processPsychopathologicalAnalysis env analysis hasFullAccess
  | Some comprehensive_psychopathological =>
      processComprehensivePsychopathologicalAnalysis env analysis hasFullAccess
  | Some micropsychopathological =>
      processMicropsychopathologicalAnalysis env analysis hasFullAccess
  | None =>
      throw ("Analysis type " +:+ Analysis.type analysis +:+ " not implemented")
  end.

Definition processAnalysis (env : Environment) (analysisId : string) : M unit :=
  let* analysis := gets (DatabaseStorage.getAnalysis analysisId) in
  match analysis with
  | None => throw "Analysis not found"
  | Some analysis =>
      let* hasFullAccess := resolveAccess analysis in
      exec (DatabaseStorage.updateAnalysisStatus analysisId "streaming");;
      try_catch
        (dispatch env analysis hasFullAccess;;
         let* updatedAnalysis := gets (DatabaseStorage.getAnalysis analysisId) in
         match updatedAnalysis ≫= Analysis.results with
         | None => throw "Analysis processing completed but results were not saved"
         | Some _ =>
             exec (DatabaseStorage.updateAnalysisStatus analysisId "completed");;
             exec (broadcastToStream analysisId EvComplete)
         end)
        (fun errorMessage =>
           exec (DatabaseStorage.updateAnalysisStatus analysisId "error");;
           exec (DatabaseStorage.updateAnalysisResults analysisId
                   (ErrorResults errorMessage (Analysis.type analysis)));;
           throw errorMessage)
  end.

(** [this.processAnalysis(analysisId).catch(error => ...)] *)
Definition startAnalysis (env : Environment) (analysisId : string) (w : World)
  : World :=
  match processAnalysis env analysisId w with
  | (Returned _, w) => w
  | (Thrown message, w) => broadcastToStream analysisId (EvError message) w
  end.

(** The text a provider call has produced when it ends: its chunks in
    order. *)
Fixpoint accumulated (steps : list StreamStep) : string :=
  match steps with
  | [] => ""
  | Yield chunk :: rest => chunk +:+ accumulated rest
  | Meanwhile _ :: rest => accumulated rest
  end.

End StreamingService.

(** ** client/src/utils/user-credits.ts: the credit check of the client *)

Module ClientCredits.




End ClientCredits.

(** ** server/services/file-service.ts: parsing an upload *)

Module FileParsing.

(** What [mammoth] and [pdfjs-dist] make of a buffer is not in the
    repository: [readPDF] gives the strings of the text items of each page,
    [readWord] the raw text, [toString] the UTF-8 decoding; [inr] is the
    message of the error thrown instead. *)
Record Libraries (Buffer : Type) := {
  toString : Buffer → string;
  readPDF : Buffer → list (list string) + string;
  readWord : Buffer → string + string
}.
Arguments toString {Buffer}.
Arguments readPDF {Buffer}.
Arguments readWord {Buffer}.

(** [Express.Multer.File], the fields read. *)
Record File (Buffer : Type) := {
  mimetype : string;
  size : Z;
  originalname : string;
  buffer : Buffer
}.
Arguments mimetype {Buffer}.
Arguments size {Buffer}.
Arguments originalname {Buffer}.
Arguments buffer {Buffer}.

Record ParseResult := {
  text : string;
  chunks : option (list string);
  wordCount : nat
}.

Definition allowedTypes : list string :=
  ["text/plain"; "application/pdf"; "application/msword";
   "application/vnd.openxmlformats-officedocument.wordprocessingml.document"].

(** [{ valid: true }] is [inl tt], [{ valid: false, error }] is [inr error]. *)
Definition validateFile {Buffer} (file : File Buffer) : unit + string :=
  if negb (existsb (String.eqb (mimetype file)) allowedTypes) then
    inr "Invalid file type. Only TXT, PDF, DOC, and DOCX files are supported."
  else
    let maxSize := (10 * 1024 * 1024)%Z in
    if (maxSize <? size file)%Z then inr "File too large. Maximum size is 10MB."
    else inl tt.

(** [for (let i = 0; i < words.length; i += maxWords)], with [None] when
    the loop has not ended after [fuel] rounds. *)
Fixpoint chunkText_loop (fuel : nat) (words : list string) (maxWords i : nat)
         (chunks : list string) : option (list string) :=
  if i <? length words then
    match fuel with
    | 0 => None
    | S fuel' =>
        let chunk := JS.join " " (JS.slice i (i + maxWords) words) in
        chunkText_loop fuel' words maxWords (i + maxWords) (chunks ++ [chunk])
    end
  else Some chunks.

Definition chunkText (text : string) (maxWords : nat) : option (list string) :=
  let words := JS.split_ws (JS.trim text) in
  chunkText_loop (length words) words maxWords 0 [].

(** The text of a PDF: the items of a page joined by spaces, each page
    ended by a line feed. *)
Definition pageText (items : list string) : string :=
  JS.join " " items +:+ String "010" "".

Definition parsePDF {Buffer} (lib : Libraries Buffer) (buffer : Buffer)
  : string + string :=
  let failed message := inr ("Failed to parse PDF document: " +:+ message) in
  match readPDF lib buffer with
  | inr message => failed message
  | inl pages =>
      let fullText := foldl (λ fullText items, fullText +:+ pageText items) "" pages in
      if String.eqb (JS.trim fullText) "" then
        failed "PDF file appears to be empty or contains no extractable text"
      else inl (JS.trim fullText)
  end.

Definition parseWord {Buffer} (lib : Libraries Buffer) (buffer : Buffer)
  : string + string :=
  match readWord lib buffer with
  | inl value => inl value
  | inr _ => inr "Failed to parse Word document"
  end.

(** [parseFile]; with 1000 words to a chunk the loop of [chunkText] always
    ends, so the fuel of the model is never what gives [[]]. *)
Definition parseFile {Buffer} (lib : Libraries Buffer) (file : File Buffer)
  : ParseResult + string :=
  let failed message :=
    inr ("Failed to parse " +:+ originalname file +:+ ": " +:+ message) in
  let extracted :=
    if String.eqb (mimetype file) "text/plain" then inl (toString lib (buffer file))
    else if String.eqb (mimetype file) "application/pdf"
    then parsePDF lib (buffer file)
    else if String.eqb (mimetype file) "application/msword"
            || String.eqb (mimetype file)
                 "application/vnd.openxmlformats-officedocument.wordprocessingml.document"
    then parseWord lib (buffer file)
    else inr ("Unsupported file type: " +:+ mimetype file) in
  match extracted with
  | inr message => failed message
  | inl text =>
      if String.eqb (JS.trim text) "" then
        failed "No text content could be extracted from the file"
      else
        let wordCount := FileService.countWords text in
        if 1000 <? wordCount then
          inl {| text := text; chunks := Some (default [] (chunkText text 1000));
                 wordCount := wordCount |}
        else inl {| text := text; chunks := None; wordCount := wordCount |}
  end.

End FileParsing.

(** ** client/src/utils/analysis-persistence.ts *)

Module AnalysisPersistence.

Record PersistedAnalysis := {
  id : string;
  results : LLMService.JSON;
  timestamp : Z;
  textContent : string;
  analysisType : string;
  llmProvider : string
}.

(** What [JSON.parse] reads back from a key of [localStorage]: the keys
    this module writes hold an analysis or the index.  Writes are taken to
    succeed (no quota error), and [Date.now()] to give one value, [now],
    during a call. *)
Inductive Value :=
| Stored (analysis : PersistedAnalysis)
| Index (ids : list string).

(** [localStorage] is a [gmap string Value]. *)

Definition STORAGE_KEY_PREFIX : string := "psychology_pro_analysis_".
Definition ANALYSIS_INDEX_KEY : string := "psychology_pro_analysis_index".
Definition MAX_STORED_ANALYSES : nat := 10.
Definition EXPIRY_HOURS : Z := 24.

Definition getAnalysisKey (analysisId : string) : string :=
  STORAGE_KEY_PREFIX +:+ analysisId.

(** [(now - timestamp) / (1000 * 60 * 60) > EXPIRY_HOURS], on integers of
    milliseconds. *)
Definition expired (now timestamp : Z) : bool :=
  (EXPIRY_HOURS * (1000 * 60 * 60) <? now - timestamp)%Z.

(** [None] when the key holds an object: every caller then throws a
    [TypeError] at its first use of the value as an array, inside its
    [try]. *)
Definition getAnalysisIndex (s : gmap string Value) : option (list string) :=
  match s !! ANALYSIS_INDEX_KEY with
  | None => Some []
  | Some (Index ids) => Some ids
  | Some (Stored _) => None
  end.

Definition without (analysisId : string) (index : list string) : list string :=
  List.filter (λ id, negb (String.eqb id analysisId)) index.

Definition removePersistedAnalysis (analysisId : string) (s : gmap string Value)
  : gmap string Value :=
  let s := delete (getAnalysisKey analysisId) s in
  match getAnalysisIndex s with
  | Some index => <[ANALYSIS_INDEX_KEY := Index (without analysisId index)]> s
  | None => s
  end.

(** An array read back under the key of an analysis has no [timestamp]:
    [hoursAgo] is [NaN], which is not above the limit. *)
Definition getPersistedAnalysis (analysisId : string) (now : Z) (s : gmap string Value)
  : option Value * gmap string Value :=
  match s !! getAnalysisKey analysisId with
  | None => (None, s)
  | Some (Stored analysis) =>
      if expired now (timestamp analysis)
      then (None, removePersistedAnalysis analysisId s)
      else (Some (Stored analysis), s)
  | Some (Index ids) => (Some (Index ids), s)
  end.

Definition updateAnalysisIndex (analysisId : string) (s : gmap string Value)
  : gmap string Value :=
  match getAnalysisIndex s with
  | None => s
  | Some index =>
      let index := analysisId :: without analysisId index in
      if MAX_STORED_ANALYSES <? length index then
        let removed := drop MAX_STORED_ANALYSES index in
        let s := foldl (λ s id, delete (getAnalysisKey id) s) s removed in
        <[ANALYSIS_INDEX_KEY := Index (take MAX_STORED_ANALYSES index)]> s
      else <[ANALYSIS_INDEX_KEY := Index index]> s
  end.

(** One round of [for (const id of index)] in [cleanupOldAnalyses]; for
    an array in the place of the analysis [NaN <= 24] is false too. *)
Definition cleanup_step (now : Z) (state : list string * gmap string Value) (id : string)
  : list string * gmap string Value :=
  let '(validIds, s) := state in
  match getPersistedAnalysis id now s with
  | (Some (Stored analysis), s) =>
      if expired now (timestamp analysis)
      then (validIds, delete (getAnalysisKey id) s)
      else (validIds ++ [id], s)
  | (Some (Index _), s) => (validIds, delete (getAnalysisKey id) s)
  | (None, s) => (validIds, s)
  end.

Definition cleanupOldAnalyses (now : Z) (s : gmap string Value) : gmap string Value :=
  match getAnalysisIndex s with
  | None => s
  | Some index =>
      let '(validIds, s) := foldl (cleanup_step now) ([], s) index in
      if length validIds =? length index then s
      else <[ANALYSIS_INDEX_KEY := Index validIds]> s
  end.

Definition persistAnalysisResults (analysisId : string) (results : LLMService.JSON)
           (textContent analysisType llmProvider : string) (now : Z)
           (s : gmap string Value) : gmap string Value :=
  let analysis :=
    {| id := analysisId; results := results; timestamp := now;
       textContent := textContent; analysisType := analysisType;
       llmProvider := llmProvider |} in
  let s := <[getAnalysisKey analysisId := Stored analysis]> s in
  let s := updateAnalysisIndex analysisId s in
  cleanupOldAnalyses now s.

(** [index.length > 0], which is false for the [undefined] length of an
    object. *)
Definition hasPersistedAnalyses (s : gmap string Value) : bool :=
  match getAnalysisIndex s with
  | Some index => 0 <? length index
  | None => false
  end.

End AnalysisPersistence.

(** ** server/storage.ts: credits bought before signing in *)

Module PendingCredits.

(** A row of [pendingCredits], with the columns the storage reads and
    writes. *)
Record PendingCredit := {
  stripePaymentIntentId : string;
  amount : Z;
  credits : Z;
  llmProvider : string;
  claimToken : string;
  claimed : bool;
  claimedByUserId : option Z
}.

(** The tables of the storage, with the rows of [pendingCredits] in the
    order the database returns them. *)
Record Ledger := { world : World; pendingCredits : list PendingCredit }.

Definition has_token (claimToken' : string) (row : PendingCredit) : bool :=
  String.eqb (claimToken row) claimToken'.

(** [const [pendingCredit] = await db.select()...where(eq(claimToken, ...))] *)
Definition getPendingCreditByToken (claimToken : string) (l : Ledger)
  : option PendingCredit :=
  List.find (has_token claimToken) (pendingCredits l).

(** [.set({ claimed: true, claimedByUserId: userId })] *)
Definition claim (userId : Z) (row : PendingCredit) : PendingCredit :=
  {| stripePaymentIntentId := stripePaymentIntentId row; amount := amount row;
     credits := credits row; llmProvider := llmProvider row;
     claimToken := claimToken row; claimed := true;
     claimedByUserId := Some userId |}.

Definition claimPendingCredit (claimToken : string) (userId : Z) (l : Ledger)
  : option PendingCredit * Ledger :=
  match getPendingCreditByToken claimToken l with
  | None => (None, l)
  | Some pendingCredit =>
      if claimed pendingCredit then (None, l)
      else
        let rows :=
          map (λ row, if has_token claimToken row then claim userId row else row)
              (pendingCredits l) in
        match List.filter (has_token claimToken) rows with
        | updatedCredit :: _ =>
            let w :=
              match DatabaseStorage.getUserById userId (world l) with
              | Some user =>
                  let newCredits := (User.credits user + credits updatedCredit)%Z in
                  DatabaseStorage.updateUserCredits userId newCredits (world l)
              | None => world l
              end in
            (Some updatedCredit, {| world := w; pendingCredits := rows |})
        | [] => (None, {| world := world l; pendingCredits := rows |})
        end
  end.

(** The answers of [POST /api/claim-credits]. *)
Inductive ClaimResponse :=
| BadRequest (error : string)
| Unauthorized (error : string)
| NotFound (error : string)
| Success (credits : Z).

(** The handler of [POST /api/claim-credits]; [user] is [req.user]. *)
Definition claim_credits (claimToken : string) (user : option Z) (l : Ledger)
  : ClaimResponse * Ledger :=
  if String.eqb claimToken "" then (BadRequest "Claim token is required", l)
  else
    match user with
    | None => (Unauthorized "Must be logged in to claim credits", l)
    | Some userId =>
        match claimPendingCredit claimToken userId l with
        | (None, l) => (NotFound "Invalid or already claimed token", l)
        | (Some claimedCredit, l) => (Success (credits claimedCredit), l)
        end
    end.

End PendingCredits.

(** ** Vocabulary of the statements *)

Import StreamingService.

(** No white space inside. *)
Fixpoint no_space (s : string) : Prop :=
  match s with
  | EmptyString => True
  | String c s' => JS.is_space c = false ∧ no_space s'
  end.

(** Every element but the last is non-empty. *)
Fixpoint inner_ok (ps : list string) : Prop :=
  match ps with
  | [] => True
  | q :: rest => (rest ≠ [] → q ≠ "") ∧ inner_ok rest
  end.

Definition starts_with_space (s : string) : bool :=
  match s with
  | String c _ => JS.is_space c
  | EmptyString => false
  end.

(** The text a sequence of reads carries. *)
Definition wire_of (reads : list string) : string := foldr String.append "" reads.

(** Lines, each ended by a line feed. *)
Definition unlines (lines : list string) : string :=
  foldr (fun line s => line +:+ String "010" s) "" lines.

Fixpoint no_newline (s : string) : Prop :=
  match s with
  | EmptyString => True
  | String c s' => Ascii.eqb c "010" = false ∧ no_newline s'
  end.

(** A line that is not a [data: ] line. *)
Definition not_data (line : string) : Prop := JS.startsWith line "data: " = false.

(** A payload that parses and carries the content [c]. *)
Definition content_bearing (JSON_parse : string → option LLMService.JSON)
    (provider : LLMService.LLMProviderType) (payload : string) (c : LLMService.JSON)
  : Prop :=
  JS.trim payload ≠ "[DONE]"
  ∧ ∃ parsed, JSON_parse (JS.trim payload) = Some parsed
              ∧ LLMService.extractContentFromResponse parsed provider = Some (Some c).

(** A payload that is neither the sentinel nor JSON. *)
Definition unparsable (JSON_parse : string → option LLMService.JSON) (payload : string)
  : Prop :=
  JS.trim payload ≠ "[DONE]" ∧ JSON_parse (JS.trim payload) = None.

(** Steps that leave both tables of the storage as they were. *)
Definition storage_same (w w' : World) : Prop :=
  analyses w' = analyses w ∧ users w' = users w.

(** The full text of the answer to a request. *)
Definition answer (env : Environment) (request : Request) : string :=
  accumulated (steps (streamResponse (llmService env) request)).

(** What the batch methods have in common. *)
Definition answers_batches (env : Environment)
    (process : list string → nat → M string) : Prop :=
  ∀ batch batchNumber w out w',
    process batch batchNumber w = (out, w') →
    storage_same w w'
    ∧ ∀ response, out = Returned response →
                  response = answer env (BatchRequest batchNumber).

(** The results object a successful run persists. *)
Definition final_results (env : Environment) (analysis : Analysis.t)
    (questions : list string) : Results :=
  FinalResults (answer env SummaryRequest)
               (map (λ n, answer env (BatchRequest n))
                    (seq 1 (length (batches_of questions))))
               questions (Analysis.type analysis).

(** A kind-specific method either leaves the storage alone, or returns
    after writing the full results. *)
Definition saves_or_not (env : Environment) (analysis : Analysis.t)
    (questions : list string) (w : World) (out : Outcome unit) (w' : World) : Prop :=
  storage_same w w'
  ∨ (out = Returned tt
     ∧ users w' = users w
     ∧ analyses w' = alter (Analysis.with_results (final_results env analysis questions))
                           (Analysis.id analysis) (analyses w)).

(** From [w] to [w'] the callbacks were called with events satisfying [P]
    only. *)
Definition delivers (P : StreamEvent → Prop) (w w' : World) : Prop :=
  ∃ new, delivered w' = delivered w ++ new ∧ Forall (λ d, P d.2) new.

Definition not_stopped (e : StreamEvent) : Prop := is_stopped e = false.

(** The state a failed run is left in by the [catch] of [processAnalysis]. *)
Definition failed (analysisId message type : string) (w : World) : World :=
  DatabaseStorage.updateAnalysisResults analysisId (ErrorResults message type)
    (DatabaseStorage.updateAnalysisStatus analysisId "error" w).

(** The state a successful run is left in. *)
Definition completed (analysisId : string) (w : World) : World :=
  broadcastToStream analysisId EvComplete
    (DatabaseStorage.updateAnalysisStatus analysisId "completed" w).

(** *** Vocabulary of the further properties *)

(** Every entry of the registry is active and lists each callback once:
    what [Map] and [Set] give between two calls of the service. *)
Definition registry_ok (w : World) : Prop :=
  ∀ analysisId stream,
    activeStreams w !! analysisId = Some stream →
    isActive stream = true ∧ NoDup (callbacks stream).

(** The text put in an event: the full text, or its 30% preview. *)
Definition shown (hasFullAccess : bool) (text : string) : string :=
  if hasFullAccess then text else truncateToPercentage text 30.

(** No route handler runs while the run is suspended. *)
Definition undisturbed (env : Environment) : Prop :=
  (∀ request call,
     Meanwhile call ∉ steps (streamResponse (llmService env) request))
  ∧ (∀ batchNumber step, duringDelay env batchNumber step = []).

(** The rows of the job table are stored under their own id. *)
Definition keyed (analysisId : string) (w : World) : Prop :=
  ∀ analysis, analyses w !! analysisId = Some analysis →
              Analysis.id analysis = analysisId.

(** An event that carries text carries a 30% preview. *)
Definition preview (e : StreamEvent) : Prop :=
  match e with
  | EvSummary content | EvRawStream _ content | EvBatchComplete _ content =>
      ∃ text, content = truncateToPercentage text 30
  | _ => True
  end.

(** The event that ends a run, by its outcome. *)
Definition closing (out : Outcome unit) : StreamEvent :=
  match out with
  | Returned _ => EvComplete
  | Thrown message => EvError message
  end.

(** A resumption at which the provider yields a chunk. *)
Definition is_yield (step : StreamStep) : bool :=
  match step with Yield _ => true | Meanwhile _ => false end.

(** Why [streamSummary] throws, if it does: the provider call failed, or
    it ended without a chunk. *)
Definition summary_failure (stream : ProviderStream) : option string :=
  match failure stream with
  | Some errorMessage => Some errorMessage
  | None =>
      if existsb is_yield (steps stream) then None
      else Some "No content received from LLM during summary generation"
  end.

(** The kinds of events the statements tell apart. *)
Definition is_summary (e : StreamEvent) : Prop := ∃ content, e = EvSummary content.

Definition not_terminal (e : StreamEvent) : Prop := is_terminal e = false.

(** The texts accumulated after each chunk. *)
Fixpoint snapshots (text : string) (chunks : list string) : list string :=
  match chunks with
  | [] => []
  | chunk :: rest => (text +:+ chunk) :: snapshots (text +:+ chunk) rest
  end.


(** The response with another cut of its body into reads. *)
Definition with_body (response : LLMService.Response) (reads : list string)
  : LLMService.Response :=
  {| LLMService.ok := LLMService.ok response;
     LLMService.status := LLMService.status response;
     LLMService.statusText := LLMService.statusText response;
     LLMService.text := LLMService.text response;
     LLMService.body := Some reads |}.

(** An id whose entry is an analysis that has not expired. *)
Definition live (now : Z) (s : gmap string AnalysisPersistence.Value) (id : string) : bool :=
  match s !! AnalysisPersistence.getAnalysisKey id with
  | Some (AnalysisPersistence.Stored analysis) =>
      negb (AnalysisPersistence.expired now (AnalysisPersistence.timestamp analysis))
  | _ => false
  end.

(** The text events of one provider call that answers in [chunks]: a
    snapshot of the text so far after each chunk. *)
Definition text_events (hasFullAccess : bool) (event : string → StreamEvent)
    (chunks : list string) : list StreamEvent :=
  map (λ text, event (shown hasFullAccess text)) (snapshots "" chunks).

(** Every provider call succeeds with the chunks [chunks request], at
    least one, and no route handler runs while it is awaited. *)
Definition answers_in_chunks (env : Environment) (chunks : Request → list string)
  : Prop :=
  ∀ request,
    streamResponse (llmService env) request
    = {| steps := map Yield (chunks request); failure := None |}
    ∧ chunks request ≠ [].

(** The events of batch [batchNumber] out of [n]: its snapshots, its
    [batch_complete], and the 101 [delay] events of the pause unless it is
    the last batch. *)
Definition batch_events (hasFullAccess : bool) (chunks : Request → list string)
    (n batchNumber : nat) : list StreamEvent :=
  text_events hasFullAccess (EvRawStream batchNumber) (chunks (BatchRequest batchNumber))
  ++ [EvBatchComplete batchNumber
        (shown hasFullAccess (foldr String.append "" (chunks (BatchRequest batchNumber))))]
  ++ (if batchNumber <? n then map EvDelay (seq 0 101) else []).

(** The events of a successful run over [n] batches. *)
Definition run_events (hasFullAccess : bool) (chunks : Request → list string)
    (n : nat) : list StreamEvent :=
  text_events hasFullAccess EvSummary (chunks SummaryRequest)
  ++ concat (map (batch_events hasFullAccess chunks n) (seq 1 n))
  ++ [EvComplete].

(** From [w] to [w'] the channel [stream] of the job stays as it is, the
    storage too, and [callback] receives [events]. *)
Definition carries (analysisId : string) (callback : nat) (stream : ActiveStream)
    (events : list StreamEvent) (w w' : World) : Prop :=
  activeStreams w' !! analysisId = Some stream
  ∧ storage_same w w'
  ∧ received callback w' = received callback w ++ events.

(** ** Scenarios *)

Module Scenario.

(** An LLM service with two questions per kind, answering the summary call
    and the call of batch 1 as given. *)
Definition llm (summary batch1 : list StreamStep) : LLM := {|
  streamResponse := λ request,
    match request with
    | SummaryRequest => {| steps := summary; failure := None |}
    | BatchRequest _ => {| steps := batch1; failure := None |}
    end;
  getCognitiveQuestions := ["IS IT INSIGHTFUL?"; "IS IT REAL OR IS IT PHONY?"];
  getComprehensiveCognitiveQuestions := ["q1"; "q2"];
  getMicrocognitiveQuestions := ["q1"; "q2"];
  getPsychologicalQuestions := ["q1"; "q2"];
  getComprehensivePsychologicalQuestions := ["q1"; "q2"];
  getMicropsychologicalQuestions := ["q1"; "q2"];
  getPsychopathologicalQuestions := ["q1"; "q2"];
  getComprehensivePsychopathologicalQuestions := ["q1"; "q2"];
  getMicropsychopathologicalQuestions := ["q1"; "q2"]
|}.

Definition env (summary batch1 : list StreamStep) : Environment :=
  {| llmService := llm summary batch1; duringDelay := λ _ _, [] |}.

(** The provider answers in two chunks each time; nobody interferes. *)
Definition quiet : Environment :=
  env [Yield "Hello"; Yield " world"] [Yield "Answer "; Yield "one."].

(** The user stops the analysis while the summary streams. *)
Definition stop_in_summary : Environment :=
  env [Yield "Hello"; Meanwhile (CallStopAnalysis "job"); Yield " world"]
      [Yield "Answer "; Yield "one."].

(** The user stops the analysis while batch 1 streams. *)
Definition stop_in_batch : Environment :=
  env [Yield "Hello"; Yield " world"]
      [Yield "Answer "; Meanwhile (CallStopAnalysis "job"); Yield "one."].

Definition job (type : string) : Analysis.t :=
  Analysis.mk "job" type "Some text." None "zhi1" "pending" None (Some 1%Z).

Definition bob (credits : Z) : User.t := User.mk "bob" credits.


(** One job of the given kind, owned by [user], with the callback 7
    subscribed to its channel. *)
Definition world (type : string) (user : User.t) : World := {|
  analyses := {[ "job" := job type ]};
  users := {[ 1%Z := user ]};
  activeStreams := {[ "job" := {| callbacks := [7]; isActive := true |} ]};
  delivered := []
|}.


(** A string in double quotes. *)
Definition quoted (s : string) : string :=
  String (ascii_of_nat 34) s +:+ String (ascii_of_nat 34) "".

(** The frame of an OpenAI-style delta and the value it parses to. *)
Definition delta_payload (content : string) : string :=
  "{" +:+ quoted "choices" +:+ ":[{" +:+ quoted "delta" +:+ ":{"
      +:+ quoted "content" +:+ ":" +:+ quoted content +:+ "}}]}".

Definition delta_value (content : string) : LLMService.JSON :=
  LLMService.JObject
    [("choices",
      LLMService.JArray
        [LLMService.JObject
           [("delta", LLMService.JObject [("content", LLMService.JString content)])]])].

(** A stand-in for [JSON.parse] that knows the two frames of the scenario
    and rejects everything else. *)
Definition parse (data : string) : option LLMService.JSON :=
  if String.eqb data (delta_payload "Hello") then Some (delta_value "Hello")
  else if String.eqb data (delta_payload " world") then Some (delta_value " world")
  else None.

(** Three events separated by blank lines, the second one cut short. *)
Definition lines : list string :=
  ["data: " +:+ delta_payload "Hello"; "";
   "data: " +:+ "{" +:+ quoted "choices" +:+ ":[{"; "";
   "data: " +:+ delta_payload " world"; ""].

(** The same text as the network delivers it, cut inside lines. *)
Definition reads : list string :=
  let wire := unlines lines in
  [String.substring 0 20 wire; String.substring 20 45 wire;
   String.substring 65 (String.length wire) wire].

Definition response : LLMService.Response := {|
  LLMService.ok := true;
  LLMService.status := 200;
  LLMService.statusText := "OK";
  LLMService.text := "";
  LLMService.body := Some reads
|}.

End Scenario.

(** ** Inputs of the further scenarios *)

Module Sample.

(** A provider that answers the summary with nothing. *)
Definition mute : Environment := Scenario.env [] [Yield "Answer one."].

Definition ok_response (reads : list string) : LLMService.Response :=
  {| LLMService.ok := true; LLMService.status := 200;
     LLMService.statusText := "OK"; LLMService.text := "";
     LLMService.body := Some reads |}.

(** A frame that comes after the sentinel, and one without its line feed. *)
Definition after_done : list string :=
  [unlines ["data: " +:+ Scenario.delta_payload "Hello"; "data: [DONE]";
            "data: " +:+ Scenario.delta_payload "late"]].

Definition no_line_feed : list string :=
  [unlines ["data: " +:+ Scenario.delta_payload "Hello"];
   "data: " +:+ Scenario.delta_payload " world"].

(** Uploads are strings here, which decode to themselves; the two document
    readers fail. *)
Definition lib : FileParsing.Libraries string :=
  {| FileParsing.toString := λ buffer, buffer;
     FileParsing.readPDF := λ _, inr "Invalid PDF structure";
     FileParsing.readWord := λ _, inr "Not a zip file" |}.

Definition notes : FileParsing.File string :=
  {| FileParsing.mimetype := "text/plain"; FileParsing.size := 11;
     FileParsing.originalname := "notes.txt"; FileParsing.buffer := "hello world" |}.

(** One purchase of 100 credits, not yet claimed, and the user 1. *)
Definition purchase : PendingCredits.PendingCredit :=
  {| PendingCredits.stripePaymentIntentId := "pi_1"; PendingCredits.amount := 5;
     PendingCredits.credits := 100; PendingCredits.llmProvider := "zhi1";
     PendingCredits.claimToken := "claim_1"; PendingCredits.claimed := false;
     PendingCredits.claimedByUserId := None |}.

Definition ledger : PendingCredits.Ledger :=
  {| PendingCredits.world := Scenario.world "cognitive" (Scenario.bob 600);
     PendingCredits.pendingCredits := [purchase] |}.

(** Six questions per kind, which make two batches; the provider answers
    in two chunks each time and nobody interferes. *)
Definition six : list string := ["q1"; "q2"; "q3"; "q4"; "q5"; "q6"].

Definition answers (request : Request) : list string :=
  match request with
  | SummaryRequest => ["Hello"; " world"]
  | BatchRequest _ => ["Answer "; "one."]
  end.

Definition two_batches : Environment := {|
  llmService := {|
    streamResponse := λ request,
      {| steps := map Yield (answers request); failure := None |};
    getCognitiveQuestions := six;
    getComprehensiveCognitiveQuestions := six;
    getMicrocognitiveQuestions := six;
    getPsychologicalQuestions := six;
    getComprehensivePsychologicalQuestions := six;
    getMicropsychologicalQuestions := six;
    getPsychopathologicalQuestions := six;
    getComprehensivePsychopathologicalQuestions := six;
    getMicropsychopathologicalQuestions := six
  |};
  duringDelay := λ _ _, []
|}.

End Sample.
(** * Properties *)

(** ** Batch partition *)

Section Batches.
Context {T : Type}.
Implicit Types (items : list T) (batches : list (list T)).

Lemma ceil_step (d b : nat) :
  0 < b → 0 < d → (d + b - 1) / b = S ((d - b + b - 1) / b).
Proof.
  intros Hb Hd. destruct (decide (b ≤ d)) as [Hle|Hgt].
  - replace (d + b - 1) with ((d - b + b - 1) + 1 * b) by lia.
    rewrite Nat.div_add by lia. lia.
  - replace (d - b) with 0 by lia. simpl.
    rewrite (Nat.div_small (b - 1) b) by lia.
    symmetry. apply (Nat.div_unique _ _ _ (d - 1)); lia.
Qed.

Lemma ceil_zero (b : nat) : 0 < b → (0 + b - 1) / b = 0.
Proof. intros Hb. apply Nat.div_small. lia. Qed.

Lemma ceil_pos (d b : nat) : 0 < b → 0 < (d + b - 1) / b → 0 < d.
Proof.
  intros Hb H. destruct d; [|lia]. rewrite ceil_zero in H; lia.
Qed.

(** The loop from index [i] on: it ends within [length items - i] rounds
    and appends the partition of the rest of the array. *)
Lemma createBatches_loop_spec (batchSize : nat) items :
  0 < batchSize →
  ∀ fuel i acc,
    length items - i ≤ fuel →
    ∃ batches,
      createBatches_loop fuel items batchSize i acc = Some (acc ++ batches)
      ∧ concat batches = drop i items
      ∧ length batches = (length items - i + batchSize - 1) / batchSize
      ∧ Forall (λ b, b ≠ []) batches
      ∧ (∀ j b, batches !! j = Some b → S j < length batches →
                length b = batchSize).
Proof.
  intros Hb fuel. induction fuel as [|fuel IH]; intros i acc Hfuel.
  - exists []. simpl. destruct (Nat.ltb_spec i (length items)); [lia|].
    rewrite app_nil_r, drop_ge by lia.
    replace (length items - i) with 0 by lia. rewrite ceil_zero by done.
    repeat split; auto. intros j b Hj. by rewrite lookup_nil in Hj.
  - simpl. destruct (Nat.ltb_spec i (length items)) as [Hlt|Hge].
    + destruct (IH (i + batchSize) (acc ++ [JS.slice i (i + batchSize) items]))
        as (rest & Hrun & Hcat & Hlen & Hne & Hfull); [lia|].
      exists (JS.slice i (i + batchSize) items :: rest).
      assert (Hslice : JS.slice i (i + batchSize) items
                       = take batchSize (drop i items)).
      { unfold JS.slice. f_equal. lia. }
      rewrite Hrun, <- app_assoc. simpl. repeat split.
      * rewrite Hcat, Hslice, <- drop_drop. apply take_drop.
      * rewrite Hlen, (ceil_step (length items - i)) by lia.
        do 3 f_equal. lia.
      * constructor; [|done]. rewrite Hslice. intros Hnil.
        apply (f_equal length) in Hnil.
        rewrite length_take, length_drop in Hnil. simpl in Hnil. lia.
      * intros [|j] b Hj Hlast; simpl in Hj.
        -- injection Hj as <-. rewrite Hslice, length_take, length_drop.
           simpl in Hlast.
           assert (0 < length items - (i + batchSize)).
           { apply (ceil_pos _ batchSize); [done|]. rewrite <- Hlen. lia. }
           lia.
        -- apply (Hfull j); [done|]. simpl in Hlast. lia.
    + exists []. rewrite app_nil_r, drop_ge by lia.
      replace (length items - i) with 0 by lia. rewrite ceil_zero by done.
      repeat split; auto. intros j b Hj. by rewrite lookup_nil in Hj.
Qed.

Lemma createBatches_spec (batchSize : nat) items :
  0 < batchSize →
  ∃ batches,
    createBatches items batchSize = Some batches
    ∧ concat batches = items
    ∧ length batches = (length items + batchSize - 1) / batchSize
    ∧ Forall (λ b, b ≠ []) batches
    ∧ (∀ j b, batches !! j = Some b → S j < length batches →
              length b = batchSize).
Proof.
  intros Hb.
  destruct (createBatches_loop_spec batchSize items Hb (length items) 0 [])
    as (batches & Hrun & Hcat & Hlen & Hne & Hfull); [lia|].
  exists batches. unfold createBatches. rewrite Hrun. simpl.
  rewrite Nat.sub_0_r in Hlen. by rewrite drop_0 in Hcat.
Qed.

(** C7. For a question list of length N and batch size 5, [createBatches]
    returns ⌈N/5⌉ batches, none of them empty, each but possibly the last
    holding exactly 5 elements, whose concatenation in order is the
    original list. *)
Theorem createBatches_partition items :
  ∃ batches,
    createBatches items 5 = Some batches
    ∧ length batches = (length items + 4) / 5
    ∧ Forall (λ b, b ≠ []) batches
    ∧ (∀ j b, batches !! j = Some b → S j < length batches → length b = 5)
    ∧ concat batches = items.
Proof.
  destruct (createBatches_spec 5 items) as (batches & Hrun & Hcat & Hlen & Hne & Hfull);
    [lia|].
  exists batches. repeat split; try done.
  rewrite Hlen. f_equal. lia.
Qed.

End Batches.

(** ** Credits *)

Section Credits.
Implicit Types (w : World) (user : User.t) (analysis : Analysis.t).

Lemma consumeUserCredits_run w userId creditsUsed user :
  users w !! userId = Some user →
  DatabaseStorage.consumeUserCredits userId creditsUsed w =
    (Returned tt,
     if DatabaseStorage.is_admin user then w
     else DatabaseStorage.updateUserCredits userId
            (Z.max 0 (User.credits user - creditsUsed)) w).
Proof.
  intros Hu. unfold DatabaseStorage.consumeUserCredits, bind, gets,
    DatabaseStorage.getUserById.
  rewrite Hu. by destruct (DatabaseStorage.is_admin user).
Qed.

Lemma checkUserCredits_run w userId requiredCredits user :
  users w !! userId = Some user →
  DatabaseStorage.checkUserCredits userId requiredCredits w =
    (Returned (DatabaseStorage.is_admin user
               || (requiredCredits <=? User.credits user)%Z), w).
Proof.
  intros Hu. unfold DatabaseStorage.checkUserCredits, bind, gets,
    DatabaseStorage.getUserById.
  rewrite Hu. by destruct (DatabaseStorage.is_admin user).
Qed.

Lemma updateUserCredits_lookup w userId credits user :
  users w !! userId = Some user →
  users (DatabaseStorage.updateUserCredits userId credits w) !! userId
  = Some (User.with_credits credits user).
Proof.
  intros Hu. unfold DatabaseStorage.updateUserCredits. simpl.
  by rewrite lookup_alter_eq, Hu.
Qed.

(** C10. For an existing user other than the unlimited identity and any
    amount, [consumeUserCredits] returns and leaves the stored balance at
    max(0, previous balance − amount), which is never negative. *)
Theorem consumeUserCredits_floor w userId creditsUsed user :
  users w !! userId = Some user →
  DatabaseStorage.is_admin user = false →
  ∃ w' user',
    DatabaseStorage.consumeUserCredits userId creditsUsed w = (Returned tt, w')
    ∧ users w' !! userId = Some user'
    ∧ User.credits user' = Z.max 0 (User.credits user - creditsUsed)
    ∧ (0 ≤ User.credits user')%Z.
Proof.
  intros Hu Hadmin.
  eexists _, _. rewrite (consumeUserCredits_run _ _ _ _ Hu), Hadmin.
  split; [done|]. split; [by apply updateUserCredits_lookup|].
  simpl. split; [done|]. apply Z.le_max_l.
Qed.


End Credits.

(** ** The registry *)

Section Registry.
Implicit Types (w : World) (analysisId : string).

Lemma broadcast_inactive w analysisId data :
  stopped analysisId w = true → broadcastToStream analysisId data w = w.
Proof.
  unfold stopped, broadcastToStream.
  destruct (activeStreams w !! analysisId) as [stream|]; [|done].
  by destruct (isActive stream).
Qed.

Lemma stopAnalysis_silent w analysisId :
  delivered (stopAnalysis analysisId w) = delivered w.
Proof.
  unfold stopAnalysis.
  destruct (activeStreams w !! analysisId) as [stream|] eqn:Hs; [|done].
  rewrite broadcast_inactive; [done|].
  unfold stopped. simpl. by rewrite lookup_alter_eq, Hs.
Qed.

(** C1, as the code has it. [stopAnalysis] clears the active flag before it
    broadcasts, and [broadcastToStream] does nothing on an inactive channel:
    no callback is invoked, whatever the subscribers; the entry is removed. *)
Theorem stopAnalysis_delivers_nothing w analysisId :
  delivered (stopAnalysis analysisId w) = delivered w
  ∧ activeStreams (stopAnalysis analysisId w) !! analysisId = None.
Proof.
  split; [apply stopAnalysis_silent|].
  unfold stopAnalysis.
  destruct (activeStreams w !! analysisId) as [stream|] eqn:Hs; [|done].
  simpl. apply lookup_delete_eq.
Qed.

Lemma stopStreaming_delivers_nothing w analysisId :
  delivered (stopStreaming analysisId w) = delivered w.
Proof.
  unfold stopStreaming. by destruct (activeStreams w !! analysisId).
Qed.

Lemma streamAnalysis_delivers_nothing w analysisId callback :
  delivered (streamAnalysis analysisId callback w) = delivered w.
Proof.
  unfold streamAnalysis. by destruct (activeStreams w !! analysisId).
Qed.

End Registry.
(** ** Strings *)

Section Strings.
Implicit Types (s t p q : string) (ps : list string) (c : ascii).

Lemma app_cons c s t : String c s +:+ t = String c (s +:+ t).
Proof. reflexivity. Qed.

Lemma app_empty_l s : "" +:+ s = s.
Proof. reflexivity. Qed.

Lemma app_empty_r s : s +:+ "" = s.
Proof. induction s as [|c s IH]; [done|]. by rewrite app_cons, IH. Qed.

Lemma app_assoc_s s t p : (s +:+ t) +:+ p = s +:+ (t +:+ p).
Proof. induction s as [|c s IH]; [done|]. by rewrite !app_cons, IH. Qed.




(** What [split(/\s+/)] returns: pieces free of white space, and only the
    first and the last of them can be empty. *)
Lemma split_go_pieces s b :
  let '(p, ps) := JS.split_go b s in
  no_space p ∧ Forall no_space ps ∧ inner_ok ps ∧ (b = true → p = "" → ps = []).
Proof.
  revert b. induction s as [|c s IH]; intros b; simpl; [done|].
  destruct (JS.is_space c) eqn:Hc.
  - destruct b.
    + apply (IH true).
    + specialize (IH true). destruct (JS.split_go true s) as [p ps].
      destruct IH as (Hp & Hps & Hin & Hfirst). repeat split; auto; done.
  - specialize (IH false). destruct (JS.split_go false s) as [p ps].
    destruct IH as (Hp & Hps & Hin & _). simpl. repeat split; auto; done.
Qed.

Lemma split_go_no_space s b : no_space s → JS.split_go b s = (s, []).
Proof.
  revert b. induction s as [|c s IH]; intros b; simpl; [done|].
  intros [-> Hs]. by rewrite (IH false Hs).
Qed.

Lemma split_go_app p s :
  no_space p →
  JS.split_go false (p +:+ s) =
    let '(p', ps) := JS.split_go false s in (p +:+ p', ps).
Proof.
  induction p as [|c p IH].
  - intros _. rewrite app_empty_l. by destruct (JS.split_go false s).
  - intros [Hc Hp]. rewrite app_cons. simpl. rewrite Hc, (IH Hp).
    by destruct (JS.split_go false s).
Qed.

Lemma split_go_true_cons c s :
  JS.is_space c = false →
  JS.split_go true (String c s) = JS.split_go false (String c s).
Proof. intros Hc. simpl. by rewrite Hc. Qed.

Lemma join_cons sep p q ps :
  JS.join sep (p :: q :: ps) = p +:+ sep +:+ JS.join sep (q :: ps).
Proof. done. Qed.



(** [trim] *)




Lemma prefix_trim_right s : String.prefix (JS.trim_right s) s = true.
Proof.
  induction s as [|c s IH]; simpl; [done|].
  destruct (JS.trim_right s) as [|c' r].
  - destruct (JS.is_space c); simpl; [done|].
    destruct (ascii_dec c c); [|done]. by destruct s.
  - simpl. destruct (ascii_dec c c); [|done]. exact IH.
Qed.




Lemma trim_left_id s : starts_with_space s = false → JS.trim_left s = s.
Proof. destruct s as [|c s]; simpl; [done|]. by intros ->. Qed.


End Strings.

(** ** Truncation at the partial tier *)

Section Truncation.
Implicit Types (text : string).









(** The pieces of [split(/\s+/)] are not the words [countWords] counts: a
    text that starts with white space has an empty first piece, and its 30%
    can be the ellipsis alone. *)
Lemma truncate_words_leading_space :
  JS.split_ws " hello world foo" = [""; "hello"; "world"; "foo"]
  ∧ FileService.countWords " hello world foo" = 3
  ∧ truncateToPercentage " hello world foo" 30 = "...".
Proof. vm_compute. repeat split. Qed.

End Truncation.

(** ** The stream parser *)

Section ParserProperties.
Import LLMService.
Variable JSON_parse : string → option JSON.
Variable provider : LLMProviderType.
Implicit Types (s t buffer : string) (lines reads : list string).

Lemma split_lines_app s t :
  JS.split_lines (s +:+ t) =
    let '(ls, rest) := JS.split_lines s in
    let '(ls', rest') := JS.split_lines (rest +:+ t) in
    (ls ++ ls', rest').
Proof.
  induction s as [|c s IH].
  - simpl. rewrite !app_empty_l. by destruct (JS.split_lines t).
  - rewrite app_cons. simpl. rewrite IH.
    destruct (JS.split_lines s) as [ls rest].
    destruct (Ascii.eqb c "010") eqn:Hc.
    + by destruct (JS.split_lines (rest +:+ t)).
    + destruct ls as [|l ls].
      * rewrite app_cons. simpl. rewrite Hc.
        by destruct (JS.split_lines (rest +:+ t)) as [[|l ls] rest'].
      * by destruct (JS.split_lines (rest +:+ t)).
Qed.

Lemma split_lines_no_newline s : no_newline s → JS.split_lines s = ([], s).
Proof.
  induction s as [|c s IH]; simpl; [done|].
  intros [-> Hs]. by rewrite (IH Hs).
Qed.

Lemma split_lines_rest s : no_newline (JS.split_lines s).2.
Proof.
  induction s as [|c s IH]; simpl; [done|].
  destruct (JS.split_lines s) as [ls rest].
  destruct (Ascii.eqb c "010") eqn:Hc; [done|]. by destruct ls.
Qed.

Lemma split_lines_line line t :
  no_newline line →
  JS.split_lines (line +:+ String "010" t) =
    let '(ls, rest) := JS.split_lines t in (line :: ls, rest).
Proof.
  induction line as [|c line IH].
  - intros _. rewrite app_empty_l. simpl. by destruct (JS.split_lines t).
  - intros [Hc Hline]. rewrite app_cons. simpl. rewrite (IH Hline), Hc.
    by destruct (JS.split_lines t).
Qed.

Lemma split_lines_unlines lines :
  Forall no_newline lines → JS.split_lines (unlines lines) = (lines, "").
Proof.
  induction 1 as [|line lines Hline _ IH]; simpl; [done|].
  by rewrite (split_lines_line _ _ Hline), IH.
Qed.

Lemma process_lines_app lines lines' :
  process_lines JSON_parse provider (lines ++ lines') =
    let '(ys, returned) := process_lines JSON_parse provider lines in
    if returned then (ys, true)
    else let '(ys', returned') := process_lines JSON_parse provider lines' in
         (ys ++ ys', returned').
Proof.
  induction lines as [|line lines IH]; simpl.
  - by destruct (process_lines _ _ lines').
  - destruct (JS.startsWith line "data: "); [|done].
    destruct (String.eqb _ "[DONE]"); [done|].
    destruct (JSON_parse _) as [parsed|]; [|done].
    destruct (extractContentFromResponse parsed provider) as [[content|]|]; try done.
    rewrite IH. destruct (process_lines _ _ lines) as [ys [|]]; [done|].
    by destruct (process_lines _ _ lines').
Qed.

(** The values yielded depend on the text received only, not on how the
    network cut it into reads: they are those of its complete lines. *)
Lemma read_loop_lines reads buffer :
  no_newline buffer →
  read_loop JSON_parse provider reads buffer =
    (process_lines JSON_parse provider
       (JS.split_lines (buffer +:+ wire_of reads)).1).1.
Proof.
  revert buffer. induction reads as [|value more IH]; intros buffer Hbuf; simpl.
  - by rewrite app_empty_r, split_lines_no_newline.
  - rewrite <- app_assoc_s, (split_lines_app (buffer +:+ value)).
    pose proof (split_lines_rest (buffer +:+ value)) as Hrest.
    destruct (JS.split_lines (buffer +:+ value)) as [lines rest].
    rewrite (IH rest Hrest).
    destruct (JS.split_lines (rest +:+ wire_of more)) as [lines' rest'].
    simpl. rewrite process_lines_app.
    destruct (process_lines _ _ lines) as [ys [|]]; [done|].
    by destruct (process_lines _ _ lines').
Qed.

Lemma process_lines_skip lines lines' :
  Forall not_data lines →
  process_lines JSON_parse provider (lines ++ lines')
  = process_lines JSON_parse provider lines'.
Proof.
  induction 1 as [|line lines Hline _ IH]; simpl; [done|].
  unfold not_data in Hline. by rewrite Hline.
Qed.

Lemma startsWith_app p s : JS.startsWith (p +:+ s) p = true.
Proof.
  unfold JS.startsWith. induction p as [|c p IH]; [by destruct s|].
  rewrite app_cons. simpl. by destruct (ascii_dec c c).
Qed.

Lemma process_lines_content payload c lines :
  content_bearing JSON_parse provider payload c →
  process_lines JSON_parse provider (("data: " +:+ payload) :: lines) =
    let '(ys, returned) := process_lines JSON_parse provider lines in
    (c :: ys, returned).
Proof.
  intros (Hdone & parsed & Hparse & Hextract).
  cbn [process_lines].
  rewrite startsWith_app.
  change (JS.slice_from 6 ("data: " +:+ payload)) with payload.
  apply String.eqb_neq in Hdone. by rewrite Hdone, Hparse, Hextract.
Qed.

Lemma process_lines_unparsable payload lines :
  unparsable JSON_parse payload →
  process_lines JSON_parse provider (("data: " +:+ payload) :: lines)
  = process_lines JSON_parse provider lines.
Proof.
  intros (Hdone & Hparse).
  cbn [process_lines].
  rewrite startsWith_app.
  change (JS.slice_from 6 ("data: " +:+ payload)) with payload.
  apply String.eqb_neq in Hdone. by rewrite Hdone, Hparse.
Qed.

(** C8. When the text of a provider stream, however it is cut into reads,
    holds an unparsable [data: ] line between two content-bearing ones (and
    otherwise only lines that are not [data: ] lines), the parser yields
    the two contents in their order and throws nothing. *)
Theorem malformed_frame_resilience
    apiKey response reads payload1 bad payload2 c1 c2 before mid1 mid2 after :
  apiKey ≠ "" →
  ok response = true →
  body response = Some reads →
  wire_of reads =
    unlines (before ++ ["data: " +:+ payload1] ++ mid1 ++ ["data: " +:+ bad]
             ++ mid2 ++ ["data: " +:+ payload2] ++ after) →
  Forall no_newline (before ++ mid1 ++ mid2 ++ after) →
  Forall not_data (before ++ mid1 ++ mid2 ++ after) →
  Forall no_newline [payload1; bad; payload2] →
  content_bearing JSON_parse provider payload1 c1 →
  unparsable JSON_parse bad →
  content_bearing JSON_parse provider payload2 c2 →
  streamResponse JSON_parse apiKey provider response
  = {| yielded := [c1; c2]; thrown := None |}.
Proof.
  intros Hkey Hok Hbody Hwire Hnl Hnd Hpay H1 Hbad H2.
  unfold streamResponse. apply String.eqb_neq in Hkey.
  rewrite Hkey, Hok, Hbody. simpl negb. cbv iota. f_equal.
  rewrite read_loop_lines by done. rewrite app_empty_l, Hwire.
  rewrite !Forall_app in Hnl, Hnd.
  destruct Hnl as (Hn0 & Hn1 & Hn2 & Hn3). destruct Hnd as (Hd0 & Hd1 & Hd2 & Hd3).
  apply Forall_cons in Hpay as [Hp1 Hpay]. apply Forall_cons in Hpay as [Hpb Hpay].
  apply Forall_cons in Hpay as [Hp2 _].
  rewrite split_lines_unlines.
  - simpl fst. rewrite (process_lines_skip _ _ Hd0). simpl app.
    rewrite (process_lines_content _ _ _ H1), (process_lines_skip _ _ Hd1).
    rewrite (process_lines_unparsable _ _ Hbad), (process_lines_skip _ _ Hd2).
    rewrite (process_lines_content _ _ _ H2).
    rewrite <- (app_nil_r after), (process_lines_skip _ _ Hd3). done.
  - rewrite !Forall_app, !Forall_cons. repeat split; try done.
Qed.

End ParserProperties.

(** ** The run: what it leaves in the storage *)

Section Run.
Variable env : Environment.
Implicit Types (w : World) (analysis : Analysis.t) (analysisId : string).

Lemma storage_same_refl w : storage_same w w.
Proof. done. Qed.

Lemma storage_same_trans w1 w2 w3 :
  storage_same w1 w2 → storage_same w2 w3 → storage_same w1 w3.
Proof. intros [? ?] [? ?]. split; congruence. Qed.

Lemma broadcast_storage analysisId data w :
  storage_same w (broadcastToStream analysisId data w).
Proof.
  unfold broadcastToStream.
  destruct (activeStreams w !! analysisId) as [stream|]; [|done].
  by destruct (isActive stream).
Qed.

Lemma external_storage call w : storage_same w (external call w).
Proof.
  destruct call as [analysisId callback|analysisId|analysisId]; simpl.
  - unfold streamAnalysis. by destruct (activeStreams w !! analysisId).
  - unfold stopStreaming. by destruct (activeStreams w !! analysisId).
  - unfold stopAnalysis.
    destruct (activeStreams w !! analysisId) as [stream|] eqn:Hs; [|done].
    rewrite broadcast_inactive; [done|].
    unfold stopped. simpl. by rewrite lookup_alter_eq, Hs.
Qed.

Lemma externals_storage calls w : storage_same w (externals calls w).
Proof.
  unfold externals. revert w. induction calls as [|call calls IH]; intros w; [done|].
  simpl. eapply storage_same_trans; [apply external_storage|apply IH].
Qed.

Lemma streamDelay_loop_storage analysisId batchNumber steps n step w :
  storage_same w (streamDelay_loop env analysisId batchNumber steps n step w).
Proof.
  revert step w. induction n as [|n IH]; intros step w;
    cbn [streamDelay_loop]; [apply storage_same_refl|].
  eapply storage_same_trans; [|apply IH].
  eapply storage_same_trans; [apply broadcast_storage|apply externals_storage].
Qed.

Lemma streamDelay_storage analysisId delayMs batchNumber w :
  storage_same w (streamDelay env analysisId delayMs batchNumber w).
Proof. apply streamDelay_loop_storage. Qed.

Lemma for_await_spec analysisId hasFullAccess event steps fullResponse hasContent w :
  ∃ hasContent' w',
    for_await analysisId hasFullAccess event steps fullResponse hasContent w
    = (fullResponse +:+ accumulated steps, hasContent', w')
    ∧ storage_same w w'.
Proof.
  revert fullResponse hasContent w.
  induction steps as [|[chunk|call] steps IH]; intros fullResponse hasContent w;
    cbn [for_await accumulated].
  - eexists _, _. by rewrite app_empty_r.
  - edestruct IH as (hc & w' & -> & Hs). eexists _, _.
    rewrite app_assoc_s. split; [done|].
    eapply storage_same_trans; [apply broadcast_storage|done].
  - edestruct IH as (hc & w' & -> & Hs). eexists _, _. split; [done|].
    eapply storage_same_trans; [apply external_storage|done].
Qed.

Lemma streamSummary_spec analysis hasFullAccess w out w' :
  streamSummary env analysis hasFullAccess w = (out, w') →
  storage_same w w'
  ∧ ∀ summary, out = Returned summary → summary = answer env SummaryRequest.
Proof.
  unfold streamSummary, answer.
  destruct (for_await_spec (Analysis.id analysis) hasFullAccess EvSummary
              (steps (streamResponse (llmService env) SummaryRequest)) "" false w)
    as (hc & w1 & -> & Hs).
  rewrite app_empty_l.
  destruct (failure _); [|destruct hc]; intros [= <- <-]; split; try done.
  by intros ? [= <-].
Qed.

Lemma stream_batch_spec label_empty label_failed analysis batchNumber hasFullAccess
    w out w' :
  stream_batch label_empty label_failed env analysis batchNumber hasFullAccess w
  = (out, w') →
  storage_same w w'
  ∧ ∀ response, out = Returned response →
                response = answer env (BatchRequest batchNumber).
Proof.
  unfold stream_batch, answer.
  destruct (for_await_spec (Analysis.id analysis) hasFullAccess (EvRawStream batchNumber)
              (steps (streamResponse (llmService env) (BatchRequest batchNumber)))
              "" false w)
    as (hc & w1 & -> & Hs).
  rewrite app_empty_l.
  destruct (failure _); [|destruct hc]; intros [= <- <-]; split; try done.
  - eapply storage_same_trans; [done|apply broadcast_storage].
  - by intros ? [= <-].
Qed.

(** The loop ends in one of three ways: all batches answered, a stop seen
    at a check, or an error thrown by a batch. *)
Lemma batch_loop_spec {R} analysis process (stop : Outcome R) (finish : list string → R)
    batches :
  answers_batches env process →
  ∀ remaining i batchResults w out w',
    batch_loop env analysis process (λ w, (stop, w)) finish batches remaining i
               batchResults w = (out, w') →
    storage_same w w'
    ∧ (out = Returned (finish (batchResults
                               ++ map (λ n, answer env (BatchRequest n))
                                      (seq (i + 1) (length remaining))))
       ∨ out = stop
       ∨ ∃ message, out = Thrown message).
Proof.
  intros Hprocess remaining.
  induction remaining as [|batch rest IH]; intros i batchResults w out w'.
  - simpl. unfold ret. intros [= <- <-]. rewrite app_nil_r. split; [done|]. by left.
  - cbn [batch_loop]. unfold bind at 1. unfold gets at 1.
    destruct (stopped (Analysis.id analysis) w).
    { intros [= <- <-]. split; [done|]. right. by left. }
    unfold bind at 1.
    destruct (process batch (i + 1) w) as [[response|message] w1] eqn:Hp;
      apply Hprocess in Hp as [Hs1 Hresp].
    2:{ intros [= <- <-]. split; [done|]. right. right. by eexists. }
    rewrite (Hresp _ eq_refl). unfold bind at 1. unfold gets at 1.
    destruct (stopped (Analysis.id analysis) w1).
    { intros [= <- <-]. split; [done|]. right. by left. }
    unfold bind at 1.
    destruct (i <? length batches - 1); unfold exec, ret; intros Hloop;
      apply IH in Hloop as [Hs2 Hout];
      (split;
       [eauto using storage_same_trans, streamDelay_storage
       |rewrite <- app_assoc in Hout; simpl in Hout;
        simpl; by rewrite <- (Nat.add_1_r (i + 1))]).
Qed.

Lemma processBatch_answers analysis hasFullAccess :
  answers_batches env (λ batch batchNumber,
                     processBatch env analysis batch batchNumber hasFullAccess).
Proof. intros batch batchNumber w out w'. apply stream_batch_spec. Qed.

Lemma processMicroBatch_answers analysis hasFullAccess :
  answers_batches env (λ batch batchNumber,
                     processMicroBatch env analysis batch batchNumber hasFullAccess).
Proof. intros batch batchNumber w out w'. apply stream_batch_spec. Qed.

Lemma save_spec analysis summary batchResults questions w :
  save analysis summary batchResults questions w =
    (Returned tt,
     DatabaseStorage.updateAnalysisResults (Analysis.id analysis)
       (FinalResults summary batchResults questions (Analysis.type analysis)) w).
Proof. done. Qed.


Lemma process_standard_spec questions analysis hasFullAccess w out w' :
  process_standard questions env analysis hasFullAccess w = (out, w') →
  saves_or_not env analysis questions w out w'.
Proof.
  unfold process_standard, bind at 1.
  destruct (streamSummary env analysis hasFullAccess w) as [[summary|message] w1] eqn:Hsum;
    apply streamSummary_spec in Hsum as [Hs1 Hsummary].
  2:{ intros [= <- <-]. by left. }
  rewrite (Hsummary _ eq_refl). unfold bind, processBatchesWithResults.
  destruct (batch_loop _ _ _ _ _ _ _ _ _ w1) as [[batchResults|message] w2] eqn:Hloop;
    apply (batch_loop_spec _ _ (Thrown "Analysis stopped by user")) in Hloop
      as [Hs2 Hout]; try apply processBatch_answers.
  - rewrite save_spec. intros [= <- <-]. right.
    destruct Hs1 as [Ha1 Hu1], Hs2 as [Ha2 Hu2].
    destruct Hout as [[= ->]|[?|[? ?]]]; try done.
    unfold final_results, DatabaseStorage.updateAnalysisResults. simpl.
    by rewrite Ha2, Ha1, Hu2, Hu1.
  - intros [= <- <-]. left. eauto using storage_same_trans.
Qed.

Lemma process_micro_spec questions analysis hasFullAccess w out w' :
  process_micro questions env analysis hasFullAccess w = (out, w') →
  saves_or_not env analysis questions w out w'.
Proof.
  unfold process_micro, bind at 1.
  destruct (streamSummary env analysis hasFullAccess w) as [[summary|message] w1] eqn:Hsum;
    apply streamSummary_spec in Hsum as [Hs1 Hsummary].
  2:{ intros [= <- <-]. by left. }
  rewrite (Hsummary _ eq_refl). unfold bind, processMicroBatchesWithResults.
  destruct (batch_loop _ _ _ _ _ _ _ _ _ w1) as [[batchResults|message] w2] eqn:Hloop;
    apply (batch_loop_spec _ _ (Thrown "Analysis stopped by user")) in Hloop
      as [Hs2 Hout]; try apply processMicroBatch_answers.
  - rewrite save_spec. intros [= <- <-]. right.
    destruct Hs1 as [Ha1 Hu1], Hs2 as [Ha2 Hu2].
    destruct Hout as [[= ->]|[?|[? ?]]]; try done.
    unfold final_results, DatabaseStorage.updateAnalysisResults. simpl.
    by rewrite Ha2, Ha1, Hu2, Hu1.
  - intros [= <- <-]. left. eauto using storage_same_trans.
Qed.

Lemma processCognitiveAnalysis_spec analysis hasFullAccess w out w' :
  processCognitiveAnalysis env analysis hasFullAccess w = (out, w') →
  saves_or_not env analysis (getCognitiveQuestions (llmService env)) w out w'.
Proof.
  unfold processCognitiveAnalysis, bind at 1.
  destruct (streamSummary env analysis hasFullAccess w) as [[summary|message] w1] eqn:Hsum;
    apply streamSummary_spec in Hsum as [Hs1 Hsummary].
  2:{ intros [= <- <-]. by left. }
  rewrite (Hsummary _ eq_refl). unfold bind.
  destruct (batch_loop _ _ _ _ _ _ _ _ _ w1) as [[batchResults|message] w2] eqn:Hloop;
    apply (batch_loop_spec _ _ (Returned None)) in Hloop
      as [Hs2 Hout]; try apply processBatch_answers.
  - destruct Hs1 as [Ha1 Hu1], Hs2 as [Ha2 Hu2].
    destruct Hout as [[= ->]|[[= ->]|[? ?]]]; try done.
    + rewrite save_spec. intros [= <- <-]. right.
      unfold final_results, DatabaseStorage.updateAnalysisResults. simpl.
    by rewrite Ha2, Ha1, Hu2, Hu1.
    + intros [= <- <-]. left. split; congruence.
  - intros [= <- <-]. left. eauto using storage_same_trans.
Qed.

(** The dispatch over the nine kinds. *)
Lemma dispatch_spec analysis hasFullAccess w out w' :
  dispatch env analysis hasFullAccess w = (out, w') →
  match analysisType_of (Analysis.type analysis) with
  | Some t => saves_or_not env analysis (questions_of env t) w out w'
  | None => storage_same w w' ∧ ∃ message, out = Thrown message
  end.
Proof.
  unfold dispatch.
  destruct (analysisType_of (Analysis.type analysis)) as [[]|];
    first [apply processCognitiveAnalysis_spec
          |apply process_standard_spec
          |apply process_micro_spec
          |idtac].
  intros [= <- <-]. split; [done|by eexists].
Qed.

Lemma resolveAccess_returns analysis w :
  ∃ hasFullAccess w',
    resolveAccess analysis w = (Returned hasFullAccess, w')
    ∧ analyses w' = analyses w ∧ activeStreams w' = activeStreams w
    ∧ delivered w' = delivered w.
Proof.
  unfold resolveAccess.
  destruct (Analysis.userId analysis) as [userId|]; [|by eexists _, _].
  destruct (userId =? 0)%Z; [by eexists _, _|].
  destruct (users w !! userId) as [user|] eqn:Hu.
  - unfold bind at 1. rewrite (checkUserCredits_run _ _ _ _ Hu).
    destruct (_ || _); [|by eexists _, _].
    unfold bind. rewrite (consumeUserCredits_run _ _ _ _ Hu).
    eexists _, _. split; [done|]. by destruct (DatabaseStorage.is_admin user).
  - unfold bind at 1, DatabaseStorage.checkUserCredits, bind, gets,
      DatabaseStorage.getUserById.
    rewrite Hu. by eexists _, _.
Qed.

(** [processAnalysis] on a job that exists, in terms of what the dispatch
    did. *)
Lemma processAnalysis_unfold analysisId analysis w hasFullAccess w1 out w2 :
  analyses w !! analysisId = Some analysis →
  resolveAccess analysis w = (Returned hasFullAccess, w1) →
  dispatch env analysis hasFullAccess
           (DatabaseStorage.updateAnalysisStatus analysisId "streaming" w1) = (out, w2) →
  processAnalysis env analysisId w =
    match out with
    | Returned _ =>
        match analyses w2 !! analysisId ≫= Analysis.results with
        | Some _ => (Returned tt, completed analysisId w2)
        | None =>
            let message := "Analysis processing completed but results were not saved" in
            (Thrown message, failed analysisId message (Analysis.type analysis) w2)
        end
    | Thrown message =>
        (Thrown message, failed analysisId message (Analysis.type analysis) w2)
    end.
Proof.
  intros Ha Hr Hd. unfold processAnalysis, bind at 1, gets at 1,
    DatabaseStorage.getAnalysis. rewrite Ha.
  unfold bind at 1. rewrite Hr. unfold bind at 1, exec at 1.
  unfold try_catch, bind at 1. rewrite Hd.
  destruct out as [[]|message]; [|done].
  unfold bind at 1, gets at 1, DatabaseStorage.getAnalysis.
  by destruct (analyses w2 !! analysisId ≫= Analysis.results).
Qed.

End Run.

(** ** The run: what subscribers and the job record see *)

Section Orchestrator.
Variable env : Environment.
Implicit Types (w : World) (analysis row : Analysis.t) (analysisId : string).

Lemma analyses_completed analysisId w :
  analyses (completed analysisId w)
  = alter (Analysis.with_status "completed") analysisId (analyses w).
Proof.
  unfold completed.
  by destruct (broadcast_storage analysisId EvComplete
                 (DatabaseStorage.updateAnalysisStatus analysisId "completed" w))
    as [-> _].
Qed.

Lemma analyses_failed analysisId message type w :
  analyses (failed analysisId message type w)
  = alter (Analysis.with_results (ErrorResults message type)) analysisId
      (alter (Analysis.with_status "error") analysisId (analyses w)).
Proof. done. Qed.



(** C3. A run that returns, on a job whose results were absent when it
    started, has persisted results whose summary is the full accumulation
    of the summary increments and whose i-th batch is the full accumulation
    of the increments of batch i+1, whatever tier the broadcasts were cut
    to. *)
Theorem full_fidelity_persistence analysisId analysis w w' :
  analyses w !! analysisId = Some analysis →
  Analysis.id analysis = analysisId →
  Analysis.results analysis = None →
  processAnalysis env analysisId w = (Returned tt, w') →
  ∃ t row,
    analysisType_of (Analysis.type analysis) = Some t
    ∧ analyses w' !! analysisId = Some row
    ∧ Analysis.results row =
        Some (FinalResults
                (answer env SummaryRequest)
                (map (λ n, answer env (BatchRequest n))
                     (seq 1 (length (batches_of (questions_of env t)))))
                (questions_of env t)
                (Analysis.type analysis)).
Proof.
  intros Ha Hid Hnone Hrun.
  destruct (resolveAccess_returns analysis w) as (hasFullAccess & w1 & Hr & Ha1 & _).
  destruct (dispatch env analysis hasFullAccess
              (DatabaseStorage.updateAnalysisStatus analysisId "streaming" w1))
    as [out2 w2] eqn:Hd.
  rewrite (processAnalysis_unfold env _ _ _ _ _ _ _ Ha Hr Hd) in Hrun.
  destruct out2 as [[]|message]; [|done].
  destruct (analyses w2 !! analysisId ≫= Analysis.results) as [results|] eqn:Hres;
    [|done].
  injection Hrun as <-.
  apply dispatch_spec in Hd.
  destruct (analysisType_of (Analysis.type analysis)) as [t|]; [|by destruct Hd as [_ [? ?]]].
  assert (Hstreaming :
    analyses (DatabaseStorage.updateAnalysisStatus analysisId "streaming" w1)
      !! analysisId = Some (Analysis.with_status "streaming" analysis)).
  { simpl. by rewrite lookup_alter_eq, Ha1, Ha. }
  destruct Hd as [[Hsame _]|(_ & _ & Hsaved)].
  - rewrite Hsame, Hstreaming in Hres. simpl in Hres. by rewrite Hnone in Hres.
  - exists t. eexists. split; [done|].
    rewrite analyses_completed, lookup_alter_eq, Hsaved, Hid, lookup_alter_eq, Hstreaming.
    split; [done|]. done.
Qed.

Lemma external_delivered call w : delivered (external call w) = delivered w.
Proof.
  destruct call as [analysisId callback|analysisId|analysisId]; cbn [external].
  - apply (streamAnalysis_delivers_nothing w analysisId callback).
  - apply (stopStreaming_delivers_nothing w analysisId).
  - apply (stopAnalysis_silent w analysisId).
Qed.

Lemma broadcast_delivered analysisId data w :
  ∃ new, delivered (broadcastToStream analysisId data w) = delivered w ++ new
         ∧ Forall (λ d, d.2 = data) new.
Proof.
  unfold broadcastToStream.
  destruct (activeStreams w !! analysisId) as [stream|];
    [destruct (isActive stream)|]; try (exists []; by rewrite app_nil_r).
  eexists. split; [done|]. by apply Forall_map, Forall_true.
Qed.

(** A provider call delivers events of its own kind only. *)
Lemma for_await_delivered analysisId hasFullAccess event (P : StreamEvent → Prop)
    steps fullResponse hasContent w :
  (∀ content, P (event content)) →
  ∃ new,
    delivered (for_await analysisId hasFullAccess event steps fullResponse
                         hasContent w).2
    = delivered w ++ new
    ∧ Forall (λ d, P d.2) new.
Proof.
  intros Hevent. revert fullResponse hasContent w.
  induction steps as [|[chunk|call] steps IH]; intros fullResponse hasContent w;
    cbn [for_await].
  - exists []. by rewrite app_nil_r.
  - edestruct IH as (new & -> & Hnew).
    edestruct broadcast_delivered as (new0 & -> & Hnew0).
    exists (new0 ++ new). rewrite app_assoc. split; [done|].
    apply Forall_app. split; [|done].
    eapply Forall_impl; [exact Hnew0|]. by intros d ->.
  - edestruct IH as (new & -> & Hnew). rewrite external_delivered. by exists new.
Qed.




End Orchestrator.

(** ** No [stopped] event is ever delivered *)

Section Silence.
Variable env : Environment.
Implicit Types (w : World) (analysis : Analysis.t) (analysisId : string).

Lemma delivers_refl P w : delivers P w w.
Proof. exists []. by rewrite app_nil_r. Qed.

Lemma delivers_trans P w1 w2 w3 :
  delivers P w1 w2 → delivers P w2 w3 → delivers P w1 w3.
Proof.
  intros (new1 & H1 & Hall1) (new2 & H2 & Hall2). exists (new1 ++ new2).
  rewrite H2, H1, app_assoc. split; [done|]. by apply Forall_app.
Qed.

Lemma delivers_same P w w' : delivered w' = delivered w → delivers P w w'.
Proof. intros Hsame. exists []. by rewrite app_nil_r. Qed.

Lemma broadcast_delivers (P : StreamEvent → Prop) analysisId data w :
  P data → delivers P w (broadcastToStream analysisId data w).
Proof.
  intros Hdata. destruct (broadcast_delivered analysisId data w) as (new & Hnew & Hall).
  exists new. split; [done|]. eapply Forall_impl; [exact Hall|]. by intros d ->.
Qed.

Lemma externals_delivers P calls w : delivers P w (externals calls w).
Proof.
  apply delivers_same. unfold externals. revert w.
  induction calls as [|call calls IH]; intros w; [done|].
  simpl. by rewrite IH, external_delivered.
Qed.

Lemma streamDelay_loop_delivers analysisId batchNumber steps n step w :
  delivers not_stopped w (streamDelay_loop env analysisId batchNumber steps n step w).
Proof.
  revert step w. induction n as [|n IH]; intros step w; cbn [streamDelay_loop];
    [apply delivers_refl|].
  eapply delivers_trans; [|apply IH].
  eapply delivers_trans; [|apply externals_delivers].
  by apply broadcast_delivers.
Qed.

Lemma streamDelay_delivers analysisId delayMs batchNumber w :
  delivers not_stopped w (streamDelay env analysisId delayMs batchNumber w).
Proof. apply streamDelay_loop_delivers. Qed.

Lemma for_await_delivers analysisId hasFullAccess event steps fullResponse hasContent w :
  (∀ content, not_stopped (event content)) →
  delivers not_stopped w
    (for_await analysisId hasFullAccess event steps fullResponse hasContent w).2.
Proof. apply for_await_delivered. Qed.

Lemma streamSummary_delivers analysis hasFullAccess w out w' :
  streamSummary env analysis hasFullAccess w = (out, w') → delivers not_stopped w w'.
Proof.
  unfold streamSummary.
  pose proof (for_await_delivers (Analysis.id analysis) hasFullAccess EvSummary
                (steps (streamResponse (llmService env) SummaryRequest)) "" false w
                (λ _, eq_refl))
    as Hsteps.
  destruct (for_await _ _ _ _ _ _ w) as [[summary hasContent] w1].
  destruct (failure _); [|destruct hasContent]; by intros [= <- <-].
Qed.

Lemma stream_batch_delivers label_empty label_failed analysis batchNumber hasFullAccess
    w out w' :
  stream_batch label_empty label_failed env analysis batchNumber hasFullAccess w
  = (out, w') →
  delivers not_stopped w w'.
Proof.
  unfold stream_batch.
  pose proof (for_await_delivers (Analysis.id analysis) hasFullAccess
                (EvRawStream batchNumber)
                (steps (streamResponse (llmService env) (BatchRequest batchNumber)))
                "" false w (λ _, eq_refl))
    as Hsteps.
  destruct (for_await _ _ _ _ _ _ w) as [[fullResponse hasContent] w1].
  destruct (failure _); [|destruct hasContent]; intros [= <- <-]; try done.
  eapply delivers_trans; [exact Hsteps|apply broadcast_delivers; reflexivity].
Qed.

Lemma batch_loop_delivers {R} analysis process (stop : Outcome R)
    (finish : list string → R) batches :
  (∀ batch batchNumber w out w',
     process batch batchNumber w = (out, w') → delivers not_stopped w w') →
  ∀ remaining i batchResults w out w',
    batch_loop env analysis process (λ w, (stop, w)) finish batches remaining i
               batchResults w = (out, w') →
    delivers not_stopped w w'.
Proof.
  intros Hprocess remaining.
  induction remaining as [|batch rest IH]; intros i batchResults w out w'.
  - simpl. unfold ret. intros [= <- <-]. apply delivers_refl.
  - cbn [batch_loop]. unfold bind at 1. unfold gets at 1.
    destruct (stopped (Analysis.id analysis) w).
    { intros [= <- <-]. apply delivers_refl. }
    unfold bind at 1.
    destruct (process batch (i + 1) w) as [[response|message] w1] eqn:Hp;
      apply Hprocess in Hp.
    2:{ by intros [= <- <-]. }
    unfold bind at 1. unfold gets at 1.
    destruct (stopped (Analysis.id analysis) w1).
    { by intros [= <- <-]. }
    unfold bind at 1.
    destruct (i <? length batches - 1); unfold exec, ret; intros Hloop;
      apply IH in Hloop; eauto using delivers_trans, streamDelay_delivers.
Qed.

Lemma dispatch_delivers analysis hasFullAccess w out w' :
  dispatch env analysis hasFullAccess w = (out, w') → delivers not_stopped w w'.
Proof.
  assert (Hshape : ∀ R (loop : M R) (after : string → R → M unit),
    (∀ w out w', loop w = (out, w') → delivers not_stopped w w') →
    (∀ s r w out w', after s r w = (out, w') → delivered w' = delivered w) →
    (let* summary := streamSummary env analysis hasFullAccess in
     let* r := loop in after summary r) w = (out, w') →
    delivers not_stopped w w').
  { intros R loop after Hloop Hafter. unfold bind at 1.
    destruct (streamSummary env analysis hasFullAccess w) as [[summary|message] w1] eqn:Hsum;
      apply streamSummary_delivers in Hsum; [|by intros [= <- <-]].
    unfold bind.
    destruct (loop w1) as [[r|message] w2] eqn:Hl; apply Hloop in Hl.
    - intros Ha. apply Hafter in Ha.
      eapply delivers_trans; [done|]. eapply delivers_trans; [done|].
      by apply delivers_same.
    - intros [= <- <-]. by eapply delivers_trans. }
  unfold dispatch.
  destruct (analysisType_of (Analysis.type analysis)) as [[]|];
    [..|intros [= <- <-]; apply delivers_refl];
    unfold processCognitiveAnalysis,
      processComprehensiveCognitiveAnalysis, processPsychologicalAnalysis,
      processComprehensivePsychologicalAnalysis, processPsychopathologicalAnalysis,
      processComprehensivePsychopathologicalAnalysis, processMicrocognitiveAnalysis,
      processMicropsychologicalAnalysis, processMicropsychopathologicalAnalysis,
      process_standard, process_micro,
      processBatchesWithResults, processMicroBatchesWithResults;
    apply Hshape;
    try (intros ? ? ?; apply batch_loop_delivers;
         intros ? ? ? ? ?; apply stream_batch_delivers);
    try (by intros ? ? ? ? ? [= <- <-]).
  intros ? [r|] ? ? ?; by intros [= <- <-].
Qed.

Lemma processAnalysis_delivers analysisId w out w' :
  processAnalysis env analysisId w = (out, w') → delivers not_stopped w w'.
Proof.
  destruct (analyses w !! analysisId) as [analysis|] eqn:Ha.
  2:{ unfold processAnalysis, bind, gets, DatabaseStorage.getAnalysis.
      rewrite Ha. intros [= <- <-]. apply delivers_refl. }
  destruct (resolveAccess_returns analysis w) as (hasFullAccess & w1 & Hr & _ & _ & Hd1).
  destruct (dispatch env analysis hasFullAccess
              (DatabaseStorage.updateAnalysisStatus analysisId "streaming" w1))
    as [out2 w2] eqn:Hd.
  rewrite (processAnalysis_unfold env _ _ _ _ _ _ _ Ha Hr Hd).
  apply dispatch_delivers in Hd.
  assert (Hw2 : delivers not_stopped w w2).
  { eapply delivers_trans; [|exact Hd]. by apply delivers_same. }
  destruct out2 as [[]|message];
    [destruct (analyses w2 !! analysisId ≫= Analysis.results)|];
    intros [= <- <-]; try done.
  eapply delivers_trans; [exact Hw2|]. unfold completed.
  eapply delivers_trans; [|apply broadcast_delivers; reflexivity].
  by apply delivers_same.
Qed.

(** A run, a subscription, a disconnection and a stop never call a
    callback with a [stopped] event: the only place that sends one is
    [stopAnalysis], after it has made the channel inactive. *)
Lemma stopped_is_never_delivered analysisId callback w :
  delivers not_stopped w (startAnalysis env analysisId w)
  ∧ delivers not_stopped w (streamAnalysis analysisId callback w)
  ∧ delivers not_stopped w (stopStreaming analysisId w)
  ∧ delivers not_stopped w (stopAnalysis analysisId w).
Proof.
  split; [|split; [|split]].
  - unfold startAnalysis.
    destruct (processAnalysis env analysisId w) as [[[]|message] w'] eqn:Hrun;
      apply processAnalysis_delivers in Hrun; [done|].
    eapply delivers_trans; [exact Hrun|apply broadcast_delivers; reflexivity].
  - apply delivers_same, streamAnalysis_delivers_nothing.
  - apply delivers_same, stopStreaming_delivers_nothing.
  - apply delivers_same, stopAnalysis_silent.
Qed.

End Silence.

(** ** Scenarios *)

Section Scenarios.
Import Scenario.

(** C10 on a balance of 600 and a deduction of 2000. *)
Lemma consumeUserCredits_floor_witness :
  ∃ w' user',
    DatabaseStorage.consumeUserCredits 1 2000 (world "cognitive" (bob 600))
    = (Returned tt, w')
    ∧ users w' !! 1%Z = Some user'
    ∧ User.credits user' = Z.max 0 (600 - 2000)
    ∧ (0 ≤ User.credits user')%Z.
Proof.
  apply (consumeUserCredits_floor (world "cognitive" (bob 600)) 1 2000 (bob 600));
    reflexivity.
Defined.


(** C8 on three events cut into three reads inside their lines. *)
Lemma malformed_frame_resilience_witness :
  LLMService.streamResponse parse "sk-test" LLMService.zhi1 response
  = {| LLMService.yielded := [LLMService.JString "Hello"; LLMService.JString " world"];
       LLMService.thrown := None |}.
Proof.
  apply (malformed_frame_resilience parse LLMService.zhi1 "sk-test" response reads
           (delta_payload "Hello") ("{" +:+ quoted "choices" +:+ ":[{")
           (delta_payload " world")
           (LLMService.JString "Hello") (LLMService.JString " world")
           [] [""] [""] [""]).
  - discriminate.
  - reflexivity.
  - reflexivity.
  - vm_compute. reflexivity.
  - repeat constructor.
  - repeat constructor.
  - vm_compute. repeat constructor.
  - split; [discriminate|]. eexists. split; reflexivity.
  - split; [discriminate|reflexivity].
  - split; [discriminate|]. eexists. split; reflexivity.
Defined.


(** C3 on a run at the partial tier: the subscriber was sent [Hello...]
    and [Answer...], the job holds the full texts. *)
Lemma full_fidelity_persistence_witness :
  received 7 (processAnalysis quiet "job" (world "psychological" (bob 600))).2
  = [EvSummary "Hello"; EvSummary "Hello..."; EvRawStream 1 "Answer...";
     EvRawStream 1 "Answer..."; EvBatchComplete 1 "Answer..."; EvComplete]
  ∧ Analysis.results
      <$> analyses (processAnalysis quiet "job" (world "psychological" (bob 600))).2
          !! "job"
    = Some (Some (FinalResults "Hello world" ["Answer one."] ["q1"; "q2"]
                               "psychological")).
Proof.
  split; [vm_compute; reflexivity|].
  destruct (full_fidelity_persistence quiet "job" (job "psychological")
              (world "psychological" (bob 600))
              (processAnalysis quiet "job" (world "psychological" (bob 600))).2)
    as (t & row & Ht & Hrow & Hres);
    [reflexivity|reflexivity|reflexivity|vm_compute; reflexivity|].
  rewrite Hrow. simpl. rewrite Hres.
  vm_compute in Ht. injection Ht as <-. reflexivity.
Defined.



(** The [cognitive] loop returns instead of throwing; the check of the
    results then fails the run all the same. *)
Lemma stop_before_first_batch_cognitive :
  let w' := startAnalysis stop_in_summary "job" (world "cognitive" (bob 600)) in
  Analysis.status <$> analyses w' !! "job" = Some "error"
  ∧ Analysis.results <$> analyses w' !! "job"
    = Some (Some (ErrorResults
                    "Analysis processing completed but results were not saved"
                    "cognitive")).
Proof. vm_compute. repeat split. Qed.

(** C1, a failing input: one subscriber, and [stopAnalysis] sends it
    nothing. *)
Lemma stopAnalysis_sends_no_stopped_event :
  received 7 (stopAnalysis "job" (world "cognitive" (bob 600))) = [].
Proof. reflexivity. Qed.

(** C4, as the code has it. A subscriber attached before the start, a stop
    while batch 1 streams: the subscriber has received no terminal event
    when the run is over, neither [stopped] nor [error]. *)
Theorem stopped_run_has_no_terminal_event :
  let w' := startAnalysis stop_in_batch "job" (world "psychological" (bob 5000)) in
  received 7 w' = [EvSummary "Hello"; EvSummary "Hello world"; EvRawStream 1 "Answer "]
  ∧ List.filter is_terminal (received 7 w') = []
  ∧ Analysis.status <$> analyses w' !! "job" = Some "error".
Proof. vm_compute. repeat split. Qed.

(** The runs that are not stopped do end in one terminal event. *)
Lemma quiet_run_has_one_terminal_event :
  List.filter is_terminal
    (received 7 (startAnalysis quiet "job" (world "psychological" (bob 5000))))
  = [EvComplete].
Proof. vm_compute. reflexivity. Qed.

End Scenarios.

(** * Further properties of the sources *)

(** ** The registry: subscriptions *)

Section Subscriptions.
Implicit Types (w : World) (analysisId : string) (callback : nat).

Lemma add_callback_idemp callback stream :
  add_callback callback (add_callback callback stream) = add_callback callback stream.
Proof.
  unfold add_callback. simpl.
  destruct (bool_decide (callback ∈ callbacks stream)) eqn:Hin; simpl.
  - by rewrite Hin.
  - rewrite bool_decide_true; [done|]. apply elem_of_app. right. by apply list_elem_of_singleton.
Qed.

Lemma add_callback_elem callback stream : callback ∈ callbacks (add_callback callback stream).
Proof.
  unfold add_callback. simpl.
  destruct (bool_decide (callback ∈ callbacks stream)) eqn:Hin.
  - by apply bool_decide_eq_true in Hin.
  - apply elem_of_app. right. by apply list_elem_of_singleton.
Qed.

Lemma add_callback_NoDup callback stream :
  NoDup (callbacks stream) → NoDup (callbacks (add_callback callback stream)).
Proof.
  intros Hnd. unfold add_callback. simpl.
  destruct (bool_decide (callback ∈ callbacks stream)) eqn:Hin; [done|].
  apply bool_decide_eq_false in Hin.
  apply NoDup_app. split; [done|]. split; [|apply NoDup_singleton].
  intros x Hx Hx'. apply list_elem_of_singleton in Hx'. by subst.
Qed.

(** The channel of a job after a subscription. *)
Lemma streamAnalysis_lookup w analysisId callback :
  activeStreams (streamAnalysis analysisId callback w) !! analysisId
  = Some (add_callback callback
            (default {| callbacks := []; isActive := true |}
                     (activeStreams w !! analysisId))).
Proof.
  unfold streamAnalysis.
  destruct (activeStreams w !! analysisId) as [stream|] eqn:Hs; simpl.
  - by rewrite lookup_alter_eq, Hs.
  - by rewrite lookup_alter_eq, lookup_insert_eq.
Qed.

Lemma streamAnalysis_other w analysisId callback other :
  analysisId ≠ other →
  activeStreams (streamAnalysis analysisId callback w) !! other
  = activeStreams w !! other.
Proof.
  intros Hne. unfold streamAnalysis.
  destruct (activeStreams w !! analysisId); simpl.
  - by rewrite lookup_alter_ne.
  - by rewrite lookup_alter_ne, lookup_insert_ne.
Qed.

Lemma stopStreaming_lookup w analysisId :
  activeStreams (stopStreaming analysisId w) !! analysisId = None.
Proof.
  unfold stopStreaming.
  destruct (activeStreams w !! analysisId) eqn:Hs; [|done].
  simpl. apply lookup_delete_eq.
Qed.

Lemma stopStreaming_other w analysisId other :
  analysisId ≠ other →
  activeStreams (stopStreaming analysisId w) !! other = activeStreams w !! other.
Proof.
  intros Hne. unfold stopStreaming.
  destruct (activeStreams w !! analysisId); [|done].
  simpl. by rewrite lookup_delete_ne, !lookup_alter_ne.
Qed.

Lemma stopAnalysis_lookup w analysisId :
  activeStreams (stopAnalysis analysisId w) !! analysisId = None.
Proof.
  unfold stopAnalysis.
  destruct (activeStreams w !! analysisId) eqn:Hs; [|done].
  simpl. apply lookup_delete_eq.
Qed.

Lemma broadcast_registry analysisId data w :
  activeStreams (broadcastToStream analysisId data w) = activeStreams w.
Proof.
  unfold broadcastToStream.
  destruct (activeStreams w !! analysisId) as [stream|]; [|done].
  by destruct (isActive stream).
Qed.

Lemma stopAnalysis_other w analysisId other :
  analysisId ≠ other →
  activeStreams (stopAnalysis analysisId w) !! other = activeStreams w !! other.
Proof.
  intros Hne. unfold stopAnalysis.
  destruct (activeStreams w !! analysisId); [|done].
  simpl. rewrite lookup_delete_ne, lookup_alter_ne, broadcast_registry by done.
  simpl. by rewrite lookup_alter_ne.
Qed.

Lemma same_world w w' :
  analyses w = analyses w' → users w = users w' →
  activeStreams w = activeStreams w' → delivered w = delivered w' → w = w'.
Proof. destruct w, w'. simpl. by intros -> -> -> ->. Qed.

Lemma streamAnalysis_twice w analysisId callback :
  streamAnalysis analysisId callback (streamAnalysis analysisId callback w)
  = streamAnalysis analysisId callback w.
Proof.
  apply same_world;
    try (unfold streamAnalysis;
         by repeat (destruct (activeStreams _ !! analysisId); simpl)).
  apply map_eq. intros other. destruct (decide (analysisId = other)) as [<-|Hne].
  - rewrite !streamAnalysis_lookup. simpl. by rewrite add_callback_idemp.
  - by rewrite !streamAnalysis_other.
Qed.

(** X1. Subscribing is idempotent: a callback that subscribes again to the
    same job, at once or after other callbacks have subscribed to it, leaves
    the service exactly as it was. *)
Theorem streamAnalysis_idempotent w analysisId callback others :
  let w1 := streamAnalysis analysisId callback w in
  let w2 := foldl (λ w other, streamAnalysis analysisId other w) w1 others in
  streamAnalysis analysisId callback w2 = w2.
Proof.
  intros w1 w2. unfold w2, w1. clear w1 w2.
  assert (Hin : ∀ w0, (∃ stream, activeStreams w0 !! analysisId = Some stream
                                 ∧ callback ∈ callbacks stream) →
                      streamAnalysis analysisId callback w0 = w0).
  { intros w0 (stream & Hs & Hcb). apply same_world;
      try (unfold streamAnalysis; by rewrite Hs).
    apply map_eq. intros other. destruct (decide (analysisId = other)) as [<-|Hne].
    - rewrite streamAnalysis_lookup, Hs. simpl. f_equal.
      unfold add_callback. rewrite bool_decide_eq_true_2 by done. by destruct stream.
    - by rewrite streamAnalysis_other. }
  apply Hin.
  assert (Hstart : ∃ stream,
            activeStreams (streamAnalysis analysisId callback w) !! analysisId
            = Some stream ∧ callback ∈ callbacks stream).
  { eexists. split; [apply streamAnalysis_lookup|apply add_callback_elem]. }
  revert Hstart. generalize (streamAnalysis analysisId callback w).
  induction others as [|other others IH]; intros w0 Hw0; [done|].
  simpl. apply IH. destruct Hw0 as (stream & Hs & Hcb).
  eexists. split; [apply streamAnalysis_lookup|]. rewrite Hs. simpl.
  unfold add_callback. simpl. destruct (bool_decide _); [done|].
  apply elem_of_app. by left.
Qed.

Lemma received_app callback w (new : list (nat * StreamEvent)) :
  received callback (set_delivered (λ log, log ++ new) w)
  = received callback w ++ (List.filter (λ d, fst d =? callback) new).*2.
Proof. unfold received. simpl. by rewrite List.filter_app, fmap_app. Qed.

Lemma deliveries_once callback (data : StreamEvent) (l : list nat) :
  NoDup l → callback ∈ l →
  (List.filter (λ d, fst d =? callback) (map (λ c, (c, data)) l)).*2 = [data].
Proof.
  induction 1 as [|c l Hc Hnd IH]; [by intros ?%elem_of_nil|].
  intros Hin. simpl. destruct (Nat.eqb_spec c callback) as [->|Hne].
  - simpl. f_equal. clear IH Hin. induction l as [|c' l IH]; [done|].
    simpl. apply not_elem_of_cons in Hc as [Hc Hl].
    destruct (Nat.eqb_spec c' callback); [by subst|]. apply IH; [done|].
    by apply NoDup_cons in Hnd as [_ ?].
  - apply elem_of_cons in Hin as [->|Hin]; [done|]. by apply IH.
Qed.

Lemma deliveries_none callback (data : StreamEvent) (l : list nat) :
  callback ∉ l →
  (List.filter (λ d, fst d =? callback) (map (λ c, (c, data)) l)).*2 = [].
Proof.
  induction l as [|c l IH]; [done|].
  intros [Hc Hl]%not_elem_of_cons. simpl.
  destruct (Nat.eqb_spec c callback); [by subst|]. by apply IH.
Qed.

(** X2. An event broadcast to a job reaches a callback subscribed to it
    exactly once, however many times it subscribed, and reaches no callback
    that is not subscribed. *)
Theorem broadcast_exactly_once w analysisId callback other data :
  registry_ok w →
  other ∉ callbacks (default {| callbacks := []; isActive := true |}
                             (activeStreams w !! analysisId)) →
  other ≠ callback →
  let w' := streamAnalysis analysisId callback
              (streamAnalysis analysisId callback w) in
  received callback (broadcastToStream analysisId data w')
  = received callback w ++ [data]
  ∧ received other (broadcastToStream analysisId data w') = received other w.
Proof.
  intros Hok Hother Hne w'. unfold w'. rewrite streamAnalysis_twice.
  unfold broadcastToStream. rewrite streamAnalysis_lookup.
  assert (Hstream :
    isActive (default {| callbacks := []; isActive := true |}
                      (activeStreams w !! analysisId)) = true
    ∧ NoDup (callbacks (default {| callbacks := []; isActive := true |}
                                (activeStreams w !! analysisId)))).
  { destruct (activeStreams w !! analysisId) as [stream|] eqn:Hs; simpl.
    - by apply (Hok analysisId).
    - split; [done|apply NoDup_nil_2]. }
  destruct Hstream as [Hactive Hnd].
  change (isActive (add_callback callback ?s)) with (isActive s). rewrite Hactive.
  assert (Hlog : ∀ cb, received cb (streamAnalysis analysisId callback w)
                       = received cb w).
  { intros cb. unfold received. by rewrite streamAnalysis_delivers_nothing. }
  rewrite !received_app, !Hlog. split.
  - rewrite deliveries_once; [done|by apply add_callback_NoDup|apply add_callback_elem].
  - rewrite deliveries_none; [by rewrite app_nil_r|].
    unfold add_callback. simpl. destruct (bool_decide _); [done|].
    intros [?|?%list_elem_of_singleton]%elem_of_app; done.
Qed.

(** X3. Channels are independent: subscribing to, disconnecting from,
    stopping or broadcasting to one job leaves the channel of every other
    job as it was. *)
Theorem channels_are_independent w analysisId other callback data :
  analysisId ≠ other →
  activeStreams (streamAnalysis analysisId callback w) !! other
  = activeStreams w !! other
  ∧ activeStreams (stopStreaming analysisId w) !! other = activeStreams w !! other
  ∧ activeStreams (stopAnalysis analysisId w) !! other = activeStreams w !! other
  ∧ activeStreams (broadcastToStream analysisId data w) !! other
    = activeStreams w !! other.
Proof.
  intros Hne. repeat split.
  - by apply streamAnalysis_other.
  - by apply stopStreaming_other.
  - by apply stopAnalysis_other.
  - by rewrite broadcast_registry.
Qed.

(** X4. A disconnection drops the whole channel, not one subscriber, and
    a stop does the same.  [stopStreaming] calls no callback, and afterwards
    the job counts as stopped and an event broadcast to it reaches nobody,
    also not the other callbacks that had subscribed.  [stopAnalysis] leaves
    the service in the same state: the only difference in the source, the
    [stopped] broadcast, is made on a channel already inactive.  Either call
    on a job without a channel changes nothing. *)
Theorem stop_and_disconnect_drop_the_channel w analysisId data :
  let w' := stopStreaming analysisId w in
  delivered w' = delivered w
  ∧ activeStreams w' !! analysisId = None
  ∧ stopped analysisId w' = true
  ∧ broadcastToStream analysisId data w' = w'
  ∧ stopAnalysis analysisId w = w'
  ∧ (activeStreams w !! analysisId = None → w' = w).
Proof.
  intros w'. unfold w'.
  assert (Hstopped : stopped analysisId (stopStreaming analysisId w) = true).
  { unfold stopped. by rewrite stopStreaming_lookup. }
  repeat split.
  - apply stopStreaming_delivers_nothing.
  - apply stopStreaming_lookup.
  - exact Hstopped.
  - by apply broadcast_inactive.
  - unfold stopAnalysis, stopStreaming.
    destruct (activeStreams w !! analysisId) as [stream|] eqn:Hs; [|done].
    rewrite broadcast_inactive; [done|].
    unfold stopped. simpl. by rewrite lookup_alter_eq, Hs.
  - intros Hs. unfold stopStreaming. by rewrite Hs.
Qed.

(** X5. A stop is forgotten by the next subscription: subscribing after
    [stopAnalysis] creates a fresh active channel with this callback alone,
    so a run that has not reached its next check goes on. *)
Theorem subscription_after_stop w analysisId callback :
  let w' := streamAnalysis analysisId callback (stopAnalysis analysisId w) in
  activeStreams w' !! analysisId = Some {| callbacks := [callback]; isActive := true |}
  ∧ stopped analysisId w' = false.
Proof.
  intros w'. unfold w', stopped.
  rewrite streamAnalysis_lookup, stopAnalysis_lookup. done.
Qed.

End Subscriptions.

(** ** What every step of a run preserves *)

(** A relation between worlds that holds across each elementary step of a
    run holds across the run.  [K] are the keys the run addresses, [C] the
    calls the routes make meanwhile, [Q] the events the run broadcasts. *)
Section Frame.
Variable K : string → Prop.
Variable C : ExternalCall → Prop.
Variable Q : StreamEvent → Prop.
Variable R : World → World → Prop.
Hypothesis R_refl : ∀ w, R w w.
Hypothesis R_trans : ∀ w1 w2 w3, R w1 w2 → R w2 w3 → R w1 w3.
Hypothesis R_broadcast :
  ∀ key data w, K key → Q data → R w (broadcastToStream key data w).
Hypothesis R_external : ∀ call w, C call → R w (external call w).
Hypothesis R_analyses : ∀ f key w, K key → R w (set_analyses (alter f key) w).
Variable env : Environment.
Hypothesis env_steps :
  ∀ request call,
    Meanwhile call ∈ steps (streamResponse (llmService env) request) → C call.
Hypothesis env_delay :
  ∀ batchNumber step call, call ∈ duringDelay env batchNumber step → C call.
Variable hasFullAccess : bool.
Hypothesis Q_summary : ∀ text, Q (EvSummary (shown hasFullAccess text)).
Hypothesis Q_raw : ∀ n text, Q (EvRawStream n (shown hasFullAccess text)).
Hypothesis Q_batch : ∀ n text, Q (EvBatchComplete n (shown hasFullAccess text)).
Hypothesis Q_delay : ∀ progress, Q (EvDelay progress).
Variable analysis : Analysis.t.
Hypothesis K_analysis : K (Analysis.id analysis).
Implicit Types (w : World).

Lemma frame_externals calls w :
  (∀ call, call ∈ calls → C call) → R w (externals calls w).
Proof.
  unfold externals. revert w. induction calls as [|call calls IH]; intros w Hcalls;
    [done|].
  simpl. eapply R_trans; [|apply IH; intros call' Hin; apply Hcalls; by right].
  apply R_external, Hcalls. by left.
Qed.

Lemma frame_streamDelay_loop batchNumber steps n step w :
  R w (streamDelay_loop env (Analysis.id analysis) batchNumber steps n step w).
Proof.
  revert step w. induction n as [|n IH]; intros step w; cbn [streamDelay_loop];
    [done|].
  eapply R_trans; [|apply IH].
  eapply R_trans; [|apply frame_externals; intros call; apply env_delay].
  apply R_broadcast; [done|apply Q_delay].
Qed.

Lemma frame_for_await event steps fullResponse hasContent w :
  (∀ text, Q (event (shown hasFullAccess text))) →
  (∀ call, Meanwhile call ∈ steps → C call) →
  R w (for_await (Analysis.id analysis) hasFullAccess event steps fullResponse
                 hasContent w).2.
Proof.
  intros Hevent. revert fullResponse hasContent w.
  induction steps as [|[chunk|call] steps IH]; intros fullResponse hasContent w Hcalls;
    cbn [for_await]; [done|..].
  - eapply R_trans; [|apply IH; intros call Hin; apply Hcalls; by right].
    apply R_broadcast; [done|apply Hevent].
  - eapply R_trans; [|apply IH; intros call' Hin; apply Hcalls; by right].
    apply R_external, Hcalls. by left.
Qed.

Lemma frame_streamSummary w out w' :
  streamSummary env analysis hasFullAccess w = (out, w') → R w w'.
Proof.
  unfold streamSummary.
  pose proof (frame_for_await EvSummary
                (steps (streamResponse (llmService env) SummaryRequest)) "" false w
                Q_summary (env_steps SummaryRequest))
    as Hsteps.
  destruct (for_await _ _ _ _ _ _ w) as [[summary hasContent] w1].
  destruct (failure _); [|destruct hasContent]; by intros [= <- <-].
Qed.

Lemma frame_stream_batch label_empty label_failed batchNumber w out w' :
  stream_batch label_empty label_failed env analysis batchNumber hasFullAccess w
  = (out, w') →
  R w w'.
Proof.
  unfold stream_batch.
  pose proof (frame_for_await (EvRawStream batchNumber)
                (steps (streamResponse (llmService env) (BatchRequest batchNumber)))
                "" false w (Q_raw batchNumber) (env_steps (BatchRequest batchNumber)))
    as Hsteps.
  destruct (for_await _ _ _ _ _ _ w) as [[fullResponse hasContent] w1].
  destruct (failure _); [|destruct hasContent]; intros [= <- <-]; try done.
  eapply R_trans; [exact Hsteps|]. apply R_broadcast; [done|apply Q_batch].
Qed.

Lemma frame_batch_loop {T} process (stop : Outcome T) (finish : list string → T)
    batches :
  (∀ batch batchNumber w out w', process batch batchNumber w = (out, w') → R w w') →
  ∀ remaining i batchResults w out w',
    batch_loop env analysis process (λ w, (stop, w)) finish batches remaining i
               batchResults w = (out, w') →
    R w w'.
Proof.
  intros Hprocess remaining.
  induction remaining as [|batch rest IH]; intros i batchResults w out w'.
  - simpl. unfold ret. by intros [= <- <-].
  - cbn [batch_loop]. unfold bind at 1. unfold gets at 1.
    destruct (stopped (Analysis.id analysis) w).
    { by intros [= <- <-]. }
    unfold bind at 1.
    destruct (process batch (i + 1) w) as [[response|message] w1] eqn:Hp;
      apply Hprocess in Hp.
    2:{ by intros [= <- <-]. }
    unfold bind at 1. unfold gets at 1.
    destruct (stopped (Analysis.id analysis) w1).
    { by intros [= <- <-]. }
    unfold bind at 1.
    destruct (i <? length batches - 1); unfold exec, ret; intros Hloop;
      apply IH in Hloop; [|by eapply R_trans].
    eapply R_trans; [exact Hp|]. eapply R_trans; [|exact Hloop].
    apply frame_streamDelay_loop.
Qed.

Lemma frame_dispatch w out w' :
  dispatch env analysis hasFullAccess w = (out, w') → R w w'.
Proof.
  assert (Hshape : ∀ T (loop : M T) (after : string → T → M unit),
    (∀ w out w', loop w = (out, w') → R w w') →
    (∀ s r w out w', after s r w = (out, w') → R w w') →
    (let* summary := streamSummary env analysis hasFullAccess in
     let* r := loop in after summary r) w = (out, w') →
    R w w').
  { intros T loop after Hloop Hafter. unfold bind at 1.
    destruct (streamSummary env analysis hasFullAccess w) as [[summary|message] w1]
      eqn:Hsum;
      apply frame_streamSummary in Hsum; [|by intros [= <- <-]].
    unfold bind.
    destruct (loop w1) as [[r|message] w2] eqn:Hl; apply Hloop in Hl.
    - intros Ha. apply Hafter in Ha. eauto.
    - intros [= <- <-]. eauto. }
  unfold dispatch.
  destruct (analysisType_of (Analysis.type analysis)) as [[]|];
    [..|by intros [= <- <-]];
    unfold processCognitiveAnalysis,
      processComprehensiveCognitiveAnalysis, processPsychologicalAnalysis,
      processComprehensivePsychologicalAnalysis, processPsychopathologicalAnalysis,
      processComprehensivePsychopathologicalAnalysis, processMicrocognitiveAnalysis,
      processMicropsychologicalAnalysis, processMicropsychopathologicalAnalysis,
      process_standard, process_micro,
      processBatchesWithResults, processMicroBatchesWithResults;
    apply Hshape;
    try (intros ? ? ?; apply frame_batch_loop;
         intros ? ? ? ? ?; apply frame_stream_batch);
    try (intros ? ? ? ? ? [= <- <-]; by apply R_analyses).
  intros ? [r|] ? ? ? [= <- <-]; [by apply R_analyses|done].
Qed.

Variable analysisId : string.
Hypothesis K_analysisId : K analysisId.
Hypothesis Q_complete : Q EvComplete.

Lemma frame_after_access w w1 out w' :
  analyses w !! analysisId = Some analysis →
  resolveAccess analysis w = (Returned hasFullAccess, w1) →
  processAnalysis env analysisId w = (out, w') →
  R w1 w'.
Proof.
  intros Ha Hr.
  destruct (dispatch env analysis hasFullAccess
              (DatabaseStorage.updateAnalysisStatus analysisId "streaming" w1))
    as [out2 w2] eqn:Hd.
  rewrite (processAnalysis_unfold env _ _ _ _ _ _ _ Ha Hr Hd).
  apply frame_dispatch in Hd.
  assert (Hw2 : R w1 w2).
  { eapply R_trans; [|exact Hd]. by apply R_analyses. }
  assert (Hfailed : ∀ message type, R w1 (failed analysisId message type w2)).
  { intros message type. eapply R_trans; [exact Hw2|]. unfold failed.
    eapply R_trans; [|by apply R_analyses]. by apply R_analyses. }
  destruct out2 as [[]|message];
    [destruct (analyses w2 !! analysisId ≫= Analysis.results)|];
    intros [= <- <-]; try apply Hfailed.
  eapply R_trans; [exact Hw2|]. unfold completed.
  eapply R_trans; [|by apply R_broadcast]. by apply R_analyses.
Qed.

Hypothesis Q_error : ∀ message, Q (EvError message).

Lemma frame_startAnalysis_after w w1 :
  analyses w !! analysisId = Some analysis →
  resolveAccess analysis w = (Returned hasFullAccess, w1) →
  R w1 (startAnalysis env analysisId w).
Proof.
  intros Ha Hr. unfold startAnalysis.
  destruct (processAnalysis env analysisId w) as [[[]|message] w'] eqn:Hrun;
    apply (frame_after_access _ _ _ _ Ha Hr) in Hrun; [done|].
  eapply R_trans; [exact Hrun|]. by apply R_broadcast.
Qed.

End Frame.

Section Access.
Implicit Types (w : World) (analysis : Analysis.t).

(** The access check writes nothing, or the new balance of the owner. *)
Lemma resolveAccess_world analysis w hasFullAccess w1 :
  resolveAccess analysis w = (Returned hasFullAccess, w1) →
  w1 = w
  ∨ ∃ userId credits, Analysis.userId analysis = Some userId
                      ∧ w1 = DatabaseStorage.updateUserCredits userId credits w.
Proof.
  unfold resolveAccess.
  destruct (Analysis.userId analysis) as [userId|]; [|intros [= <- <-]; by left].
  destruct (userId =? 0)%Z; [intros [= <- <-]; by left|].
  destruct (users w !! userId) as [user|] eqn:Hu.
  - unfold bind at 1. rewrite (checkUserCredits_run _ _ _ _ Hu).
    destruct (_ || _); [|intros [= <- <-]; by left].
    unfold bind. rewrite (consumeUserCredits_run _ _ _ _ Hu).
    intros [= <- <-]. destruct (DatabaseStorage.is_admin user); [by left|].
    right. by eexists _, _.
  - unfold bind at 1, DatabaseStorage.checkUserCredits, bind, gets,
      DatabaseStorage.getUserById.
    rewrite Hu. intros [= <- <-]. by left.
Qed.

(** A property of worlds kept by every elementary step is kept by a run. *)
Lemma startAnalysis_preserves (I : World → Prop) :
  (∀ key data w, I w → I (broadcastToStream key data w)) →
  (∀ call w, I w → I (external call w)) →
  (∀ f w, I w → I (set_analyses f w)) →
  (∀ f w, I w → I (set_users f w)) →
  ∀ env analysisId w, I w → I (startAnalysis env analysisId w).
Proof.
  intros Hbroadcast Hexternal Hanalyses Husers env analysisId w.
  destruct (analyses w !! analysisId) as [analysis|] eqn:Ha.
  2:{ unfold startAnalysis, processAnalysis, bind, gets, DatabaseStorage.getAnalysis.
      rewrite Ha. apply Hbroadcast. }
  destruct (resolveAccess_returns analysis w) as (hasFullAccess & w1 & Hr & _).
  intros Hw. assert (Hw1 : I w1).
  { destruct (resolveAccess_world _ _ _ _ Hr) as [->|(userId & credits & _ & ->)];
      [done|by apply Husers]. }
  revert Hw1.
  eapply (frame_startAnalysis_after (λ _, True) (λ _, True) (λ _, True)
            (λ w w', I w → I w')); [..|exact Ha|exact Hr]; auto.
Qed.

End Access.

(** ** The registry stays well formed *)

Section RegistryInvariant.
Implicit Types (w : World) (analysisId : string).

Lemma streamAnalysis_ok analysisId callback w :
  registry_ok w → registry_ok (streamAnalysis analysisId callback w).
Proof.
  intros Hok other stream. destruct (decide (analysisId = other)) as [<-|Hne].
  - rewrite streamAnalysis_lookup. intros [= <-].
    destruct (activeStreams w !! analysisId) as [stream|] eqn:Hs; simpl.
    + destruct (Hok _ _ Hs) as [Hactive Hnd]. split; [done|].
      by apply add_callback_NoDup.
    + split; [done|]. apply NoDup_singleton.
  - rewrite streamAnalysis_other by done. apply Hok.
Qed.

Lemma stopStreaming_ok analysisId w :
  registry_ok w → registry_ok (stopStreaming analysisId w).
Proof.
  intros Hok other stream. destruct (decide (analysisId = other)) as [<-|Hne].
  - by rewrite stopStreaming_lookup.
  - rewrite stopStreaming_other by done. apply Hok.
Qed.

Lemma stopAnalysis_ok analysisId w :
  registry_ok w → registry_ok (stopAnalysis analysisId w).
Proof.
  intros Hok other stream. destruct (decide (analysisId = other)) as [<-|Hne].
  - by rewrite stopAnalysis_lookup.
  - rewrite stopAnalysis_other by done. apply Hok.
Qed.

(** X6. The registry stays well formed: after a subscription, a
    disconnection, a stop, or a whole run with any interleaving of these,
    every channel in the registry is active and lists each callback once.
    An inactive channel is never left in the registry. *)
Theorem registry_stays_well_formed env analysisId callback w :
  registry_ok w →
  registry_ok (streamAnalysis analysisId callback w)
  ∧ registry_ok (stopStreaming analysisId w)
  ∧ registry_ok (stopAnalysis analysisId w)
  ∧ registry_ok (startAnalysis env analysisId w).
Proof.
  intros Hok. split; [by apply streamAnalysis_ok|].
  split; [by apply stopStreaming_ok|]. split; [by apply stopAnalysis_ok|].
  revert Hok. apply (startAnalysis_preserves registry_ok); try done.
  - intros id data w0 Hok other stream. rewrite broadcast_registry. apply Hok.
  - intros [id cb|id|id] w0; simpl.
    + apply streamAnalysis_ok.
    + apply stopStreaming_ok.
    + apply stopAnalysis_ok.
Qed.

End RegistryInvariant.

(** ** Runs: what they write, and to whom they speak *)

Section Runs.
Implicit Types (w : World) (analysis : Analysis.t) (analysisId : string).

Lemma registry_ok_world type user : registry_ok (Scenario.world type user).
Proof.
  intros analysisId stream. simpl. intros [<- <-]%lookup_singleton_Some.
  split; [done|apply NoDup_singleton].
Qed.

Lemma broadcast_received w analysisId data callback stream :
  activeStreams w !! analysisId = Some stream →
  isActive stream = true →
  NoDup (callbacks stream) →
  callback ∈ callbacks stream →
  received callback (broadcastToStream analysisId data w)
  = received callback w ++ [data].
Proof.
  intros Hs Hactive Hnd Hin. unfold broadcastToStream. rewrite Hs, Hactive.
  by rewrite received_app, deliveries_once.
Qed.

Lemma received_delivers (P : StreamEvent → Prop) callback w w' :
  delivers P w w' →
  ∃ events, received callback w' = received callback w ++ events ∧ Forall P events.
Proof.
  intros (new & Hnew & Hall). unfold received. rewrite Hnew, List.filter_app, fmap_app.
  eexists. split; [done|].
  apply Forall_fmap. clear Hnew. induction Hall as [|d new Hd _ IH]; simpl; [done|].
  destruct (d.1 =? callback); [by constructor|done].
Qed.

Lemma resolveAccess_owner analysis w userId user :
  Analysis.userId analysis = Some userId →
  userId ≠ 0%Z →
  users w !! userId = Some user →
  let cost := getRequiredCredits (Analysis.type analysis) in
  resolveAccess analysis w =
    if DatabaseStorage.is_admin user || (cost <=? User.credits user)%Z
    then (Returned true,
          if DatabaseStorage.is_admin user then w
          else DatabaseStorage.updateUserCredits userId
                 (Z.max 0 (User.credits user - cost)) w)
    else (Returned false, w).
Proof.
  intros Hid Hnz Hu cost. unfold resolveAccess. rewrite Hid.
  destruct (Z.eqb_spec userId 0) as [|_]; [done|].
  unfold bind at 1. rewrite (checkUserCredits_run _ _ _ _ Hu). fold cost.
  destruct (_ || _); [|done].
  unfold bind, ret. by rewrite (consumeUserCredits_run _ _ _ _ Hu).
Qed.

Lemma startAnalysis_missing env analysisId w :
  analyses w !! analysisId = None →
  processAnalysis env analysisId w = (Thrown "Analysis not found", w)
  ∧ startAnalysis env analysisId w
    = broadcastToStream analysisId (EvError "Analysis not found") w.
Proof.
  intros Ha.
  assert (Hrun : processAnalysis env analysisId w = (Thrown "Analysis not found", w)).
  { unfold processAnalysis, bind, gets, DatabaseStorage.getAnalysis. by rewrite Ha. }
  split; [done|]. unfold startAnalysis. by rewrite Hrun.
Qed.

(** The dispatch and what follows it leave the balances alone. *)
Lemma users_after_access env analysisId analysis w hasFullAccess w1 :
  analyses w !! analysisId = Some analysis →
  resolveAccess analysis w = (Returned hasFullAccess, w1) →
  users (startAnalysis env analysisId w) = users w1.
Proof.
  intros Ha Hr.
  eapply (frame_startAnalysis_after (λ _, True) (λ _, True) (λ _, True)
            (λ w w', users w' = users w)); [..|exact Ha|exact Hr]; try done.
  - intros w1' w2 w3 H12 H23. by rewrite H23.
  - intros key data w0 _ _. apply broadcast_storage.
  - intros call w0 _. apply external_storage.
Qed.

(** X7. A run that fails is not refunded: once the owner of a job of one of
    the nine kinds has been found to hold its cost, the balance is the
    previous one less the cost when the run is over, however it ends, and no
    other balance has changed. *)
Theorem failed_run_is_not_refunded env analysisId analysis t userId user w :
  analyses w !! analysisId = Some analysis →
  analysisType_of (Analysis.type analysis) = Some t →
  Analysis.userId analysis = Some userId →
  userId ≠ 0%Z →
  users w !! userId = Some user →
  DatabaseStorage.is_admin user = false →
  (ANALYSIS_CREDIT_COST t ≤ User.credits user)%Z →
  users (startAnalysis env analysisId w)
  = <[userId := User.with_credits (User.credits user - ANALYSIS_CREDIT_COST t) user]>
      (users w).
Proof.
  intros Ha Ht Hid Hnz Hu Hadmin Hcost.
  pose proof (resolveAccess_owner analysis w userId user Hid Hnz Hu) as Hr.
  simpl in Hr. unfold getRequiredCredits in Hr. rewrite Ht, Hadmin in Hr.
  destruct (Z.leb_spec (ANALYSIS_CREDIT_COST t) (User.credits user)); [|lia].
  simpl in Hr. rewrite (users_after_access env _ _ _ _ _ Ha Hr).
  unfold DatabaseStorage.updateUserCredits. simpl.
  rewrite (alter_alt_Some _ _ _ _ Hu). do 2 f_equal. lia.
Qed.

(** X8. A run writes its own job row and the balance of its owner, and
    nothing else in the storage, whatever the provider answers and whatever
    the routes do meanwhile. *)
Theorem run_writes_only_its_own env analysisId w :
  keyed analysisId w →
  let w' := startAnalysis env analysisId w in
  (∀ other, other ≠ analysisId → analyses w' !! other = analyses w !! other)
  ∧ (∀ userId, analyses w !! analysisId ≫= Analysis.userId ≠ Some userId →
               users w' !! userId = users w !! userId).
Proof.
  intros Hkeyed w'. unfold w'. clear w'.
  destruct (analyses w !! analysisId) as [analysis|] eqn:Ha.
  2:{ destruct (startAnalysis_missing env _ _ Ha) as [_ ->].
      destruct (broadcast_storage analysisId (EvError "Analysis not found") w)
        as [-> ->].
      done. }
  specialize (Hkeyed _ Ha).
  destruct (resolveAccess_returns analysis w) as (hasFullAccess & w1 & Hr & Ha1 & _).
  split.
  - intros other Hne. rewrite <- Ha1.
    eapply (frame_startAnalysis_after (λ key, key = analysisId) (λ _, True) (λ _, True)
              (λ w w', analyses w' !! other = analyses w !! other));
      [..|exact Ha|exact Hr]; try done.
    + intros w1' w2 w3 H12 H23. by rewrite H23.
    + intros key data w0 _ _. by destruct (broadcast_storage key data w0) as [-> _].
    + intros call w0 _. by destruct (external_storage call w0) as [-> _].
    + intros f key w0 ->. simpl. by rewrite lookup_alter_ne.
  - intros userId Howner. rewrite (users_after_access env _ _ _ _ _ Ha Hr).
    destruct (resolveAccess_world _ _ _ _ Hr) as [->|(owner & credits & Hid & ->)];
      [done|].
    simpl. rewrite lookup_alter_ne; [done|].
    intros ->. simpl in Howner. by rewrite Hid in Howner.
Qed.

(** X9. A job of a kind that is not one of the nine fails before the
    provider is asked anything: the run throws [Analysis type T not
    implemented], no callback is called during it, the job is left in the
    status [error] with the error descriptor as its results, and the
    subscribers of the channel are sent that one [error] event. *)
Theorem unknown_kind_fails env analysisId analysis w :
  analyses w !! analysisId = Some analysis →
  analysisType_of (Analysis.type analysis) = None →
  let message := "Analysis type " +:+ Analysis.type analysis +:+ " not implemented" in
  ∃ w',
    processAnalysis env analysisId w = (Thrown message, w')
    ∧ delivered w' = delivered w
    ∧ activeStreams w' = activeStreams w
    ∧ Analysis.status <$> analyses w' !! analysisId = Some "error"
    ∧ Analysis.results <$> analyses w' !! analysisId
      = Some (Some (ErrorResults message (Analysis.type analysis)))
    ∧ startAnalysis env analysisId w
      = broadcastToStream analysisId (EvError message) w'.
Proof.
  intros Ha Ht message.
  destruct (resolveAccess_returns analysis w)
    as (hasFullAccess & w1 & Hr & Ha1 & Hs1 & Hd1).
  assert (Hd : dispatch env analysis hasFullAccess
                 (DatabaseStorage.updateAnalysisStatus analysisId "streaming" w1)
               = (Thrown message,
                  DatabaseStorage.updateAnalysisStatus analysisId "streaming" w1)).
  { unfold dispatch. by rewrite Ht. }
  pose proof (processAnalysis_unfold env _ _ _ _ _ _ _ Ha Hr Hd) as Hrun.
  eexists. split; [exact Hrun|]. split; [exact Hd1|]. split; [exact Hs1|].
  unfold startAnalysis. rewrite Hrun, analyses_failed, !lookup_alter_eq. simpl.
  by rewrite lookup_alter_eq, Ha1, Ha.
Qed.

End Runs.

(** ** Runs: how they end, and what the subscribers are sent *)

Section Endings.
Implicit Types (w : World) (analysis : Analysis.t) (analysisId : string).

Lemma for_await_hasContent analysisId hasFullAccess event steps fullResponse
    hasContent w :
  (for_await analysisId hasFullAccess event steps fullResponse hasContent w).1.2
  = hasContent || existsb is_yield steps.
Proof.
  revert fullResponse hasContent w.
  induction steps as [|[chunk|call] steps IH]; intros fullResponse hasContent w;
    cbn [for_await existsb is_yield].
  - by rewrite orb_false_r.
  - rewrite IH. by rewrite orb_true_r.
  - by rewrite IH.
Qed.

Lemma streamSummary_fails env analysis hasFullAccess w reason :
  summary_failure (streamResponse (llmService env) SummaryRequest) = Some reason →
  ∃ w', streamSummary env analysis hasFullAccess w
        = (Thrown ("Summary generation failed: " +:+ reason), w').
Proof.
  unfold summary_failure, streamSummary. intros Hreason.
  pose proof (for_await_hasContent (Analysis.id analysis) hasFullAccess EvSummary
                (steps (streamResponse (llmService env) SummaryRequest)) "" false w)
    as Hcontent.
  destruct (for_await _ _ _ _ _ _ w) as [[summary hasContent] w1].
  simpl in Hcontent. subst hasContent.
  destruct (failure _) as [errorMessage|].
  - injection Hreason as <-. by eexists.
  - destruct (existsb _ _); [done|]. injection Hreason as <-. by eexists.
Qed.

Lemma dispatch_summary_throws env analysis t hasFullAccess w message w' :
  analysisType_of (Analysis.type analysis) = Some t →
  streamSummary env analysis hasFullAccess w = (Thrown message, w') →
  dispatch env analysis hasFullAccess w = (Thrown message, w').
Proof.
  intros Ht Hsum. unfold dispatch. rewrite Ht.
  destruct t;
    unfold processCognitiveAnalysis,
      processComprehensiveCognitiveAnalysis, processPsychologicalAnalysis,
      processComprehensivePsychologicalAnalysis, processPsychopathologicalAnalysis,
      processComprehensivePsychopathologicalAnalysis, processMicrocognitiveAnalysis,
      processMicropsychologicalAnalysis, processMicropsychopathologicalAnalysis,
      process_standard, process_micro, bind at 1;
    by rewrite Hsum.
Qed.

Lemma external_delivers P call w : delivers P w (external call w).
Proof. apply delivers_same, external_delivered. Qed.

(** X10. When the summary cannot be had, because the provider call fails or
    ends without a chunk, a job of any of the nine kinds fails with
    [Summary generation failed: ...]: the job is left in the status [error]
    with the error descriptor as its results, and no batch was asked for,
    since the callbacks were called with [summary] events only. *)
Theorem summary_failure_fails_the_run env analysisId analysis t w reason :
  analyses w !! analysisId = Some analysis →
  analysisType_of (Analysis.type analysis) = Some t →
  summary_failure (streamResponse (llmService env) SummaryRequest) = Some reason →
  let message := "Summary generation failed: " +:+ reason in
  ∃ w',
    processAnalysis env analysisId w = (Thrown message, w')
    ∧ Analysis.status <$> analyses w' !! analysisId = Some "error"
    ∧ Analysis.results <$> analyses w' !! analysisId
      = Some (Some (ErrorResults message (Analysis.type analysis)))
    ∧ delivers is_summary w w'.
Proof.
  intros Ha Ht Hreason message.
  destruct (resolveAccess_returns analysis w)
    as (hasFullAccess & w1 & Hr & Ha1 & Hs1 & Hd1).
  destruct (streamSummary_fails env analysis hasFullAccess
              (DatabaseStorage.updateAnalysisStatus analysisId "streaming" w1)
              reason Hreason) as (w2 & Hsum).
  pose proof (dispatch_summary_throws _ _ _ _ _ _ _ Ht Hsum) as Hd.
  pose proof (processAnalysis_unfold env _ _ _ _ _ _ _ Ha Hr Hd) as Hrun.
  pose proof Hsum as Hstore. apply streamSummary_spec in Hstore as [[Ha2 _] _].
  eexists. split; [exact Hrun|].
  rewrite analyses_failed, !lookup_alter_eq, Ha2. simpl.
  rewrite lookup_alter_eq, Ha1, Ha. split; [done|]. split; [done|].
  apply (delivers_trans _ _ w1); [by apply delivers_same|].
  apply (delivers_trans _ _ w2); [|by apply delivers_same].
  apply (delivers_trans _ _ (DatabaseStorage.updateAnalysisStatus analysisId
                                "streaming" w1)); [by apply delivers_same|].
  revert Hsum.
  apply (frame_streamSummary (λ _, True) (λ _, True) is_summary (delivers is_summary));
    try done.
  - apply delivers_refl.
  - apply delivers_trans.
  - intros key data w0 _ Hdata. by apply broadcast_delivers.
  - intros call w0 _. apply external_delivers.
  - intros text. by eexists.
Qed.

(** X11. Left alone, a run ends once: when no route handler runs during
    it, the registry is as before, and a callback subscribed to the job has
    received, after events that are not terminal, one terminal event, the
    last: [complete] when the run returned, [error] with the message thrown
    otherwise. *)
Theorem undisturbed_run_ends_once env analysisId w callback stream :
  undisturbed env →
  activeStreams w !! analysisId = Some stream →
  isActive stream = true →
  NoDup (callbacks stream) →
  callback ∈ callbacks stream →
  let w' := startAnalysis env analysisId w in
  activeStreams w' = activeStreams w
  ∧ ∃ events,
      received callback w'
      = received callback w ++ events
        ++ [closing (processAnalysis env analysisId w).1]
      ∧ Forall not_terminal events.
Proof.
  intros [Hsteps Hdelay] Hs Hactive Hnd Hin w'. unfold w'. clear w'.
  assert (Hclose : ∀ wz out,
    activeStreams wz = activeStreams w →
    delivers not_terminal w wz →
    activeStreams (broadcastToStream analysisId (closing out) wz) = activeStreams w
    ∧ ∃ events,
        received callback (broadcastToStream analysisId (closing out) wz)
        = received callback w ++ events ++ [closing out]
        ∧ Forall not_terminal events).
  { intros wz out Hz Hdel. rewrite broadcast_registry. split; [done|].
    apply (received_delivers _ callback) in Hdel as (events & Hev & Hall).
    exists events. split; [|done].
    rewrite (broadcast_received _ _ _ _ stream), Hev, app_assoc; try done.
    by rewrite Hz. }
  destruct (analyses w !! analysisId) as [analysis|] eqn:Ha.
  2:{ destruct (startAnalysis_missing env _ _ Ha) as [-> ->].
      apply (Hclose w (Thrown "Analysis not found")); [done|apply delivers_refl]. }
  destruct (resolveAccess_returns analysis w)
    as (hasFullAccess & w1 & Hr & Ha1 & Hs1 & Hd1).
  destruct (dispatch env analysis hasFullAccess
              (DatabaseStorage.updateAnalysisStatus analysisId "streaming" w1))
    as [out2 w2] eqn:Hd.
  assert (Hw2 : activeStreams w2 = activeStreams w ∧ delivers not_terminal w w2).
  { assert (Hstart : activeStreams
                       (DatabaseStorage.updateAnalysisStatus analysisId "streaming" w1)
                     = activeStreams w
                     ∧ delivers not_terminal w
                         (DatabaseStorage.updateAnalysisStatus analysisId
                            "streaming" w1)).
    { split; [done|by apply delivers_same]. }
    revert Hstart. revert Hd.
    apply (frame_dispatch (λ _, True) (λ _, False) not_terminal
             (λ wa wb, (activeStreams wa = activeStreams w ∧ delivers not_terminal w wa)
                       → activeStreams wb = activeStreams w
                         ∧ delivers not_terminal w wb)).
    - auto.
    - auto.
    - intros key data w0 _ Hdata [Hreg Hdel]. rewrite broadcast_registry.
      split; [done|].
      eapply delivers_trans; [exact Hdel|by apply broadcast_delivers].
    - by intros call w0 [].
    - intros f key w0 _ [Hreg Hdel]. split; [done|].
      eapply delivers_trans; [exact Hdel|by apply delivers_same].
    - intros request call Hcall. by apply Hsteps in Hcall.
    - intros batchNumber step call. rewrite Hdelay. by intros ?%elem_of_nil.
    - done.
    - done.
    - done.
    - done.
    - done. }
  destruct Hw2 as [Hreg2 Hdel2].
  unfold startAnalysis.
  rewrite (processAnalysis_unfold env _ _ _ _ _ _ _ Ha Hr Hd).
  destruct out2 as [[]|message];
    [destruct (analyses w2 !! analysisId ≫= Analysis.results)|]; simpl.
  - unfold completed. apply (Hclose _ (Returned tt)); [done|].
    eapply delivers_trans; [exact Hdel2|by apply delivers_same].
  - apply (Hclose _ (Thrown _)); [done|].
    eapply delivers_trans; [exact Hdel2|by apply delivers_same].
  - apply (Hclose _ (Thrown _)); [done|].
    eapply delivers_trans; [exact Hdel2|by apply delivers_same].
Qed.

(** X12. The partial tier never sends a full text: when the access check
    has refused the full tier, every event with text that a callback is
    called with during the run carries the 30% preview of some text. *)
Theorem partial_tier_sends_previews_only env analysisId analysis w w1 :
  analyses w !! analysisId = Some analysis →
  resolveAccess analysis w = (Returned false, w1) →
  delivers preview w (startAnalysis env analysisId w).
Proof.
  intros Ha Hr.
  destruct (resolveAccess_returns analysis w) as (h & w1' & Hr' & _ & _ & Hd1).
  rewrite Hr in Hr'. injection Hr' as <- <-.
  apply (delivers_trans _ _ w1); [by apply delivers_same|].
  eapply (frame_startAnalysis_after (λ _, True) (λ _, True) preview (delivers preview));
    [..|exact Ha|exact Hr]; try done.
  - apply delivers_refl.
  - apply delivers_trans.
  - intros key data w0 _ Hdata. by apply broadcast_delivers.
  - intros call w0 _. apply external_delivers.
  - intros f key w0 _. by apply delivers_same.
  - intros text. by eexists.
  - intros n text. by eexists.
  - intros n text. by eexists.
Qed.

End Endings.

(** ** What a subscriber is sent while nobody interferes *)

Section Deliveries.
Implicit Types (w : World) (analysis : Analysis.t) (analysisId : string).

Lemma streamDelay_loop_received env analysisId batchNumber steps callback stream :
  (∀ step, duringDelay env batchNumber step = []) →
  isActive stream = true →
  NoDup (callbacks stream) →
  callback ∈ callbacks stream →
  ∀ n step w,
    activeStreams w !! analysisId = Some stream →
    let w' := streamDelay_loop env analysisId batchNumber steps n step w in
    activeStreams w' = activeStreams w
    ∧ received callback w'
      = received callback w
        ++ map (λ step, EvDelay ((200 * step + steps) / (2 * steps))) (seq step n).
Proof.
  intros Hquiet Hactive Hnd Hin n.
  induction n as [|n IH]; intros step w Hs; cbn [streamDelay_loop seq map].
  - by rewrite app_nil_r.
  - rewrite Hquiet. cbn [externals foldl].
    destruct (IH (S step)
                (broadcastToStream analysisId
                   (EvDelay ((200 * step + steps) / (2 * steps))) w))
      as [Hreg Hrec].
    { by rewrite broadcast_registry. }
    cbv zeta in Hreg, Hrec. rewrite Hreg, Hrec, broadcast_registry.
    split; [done|].
    by rewrite (broadcast_received _ _ _ _ stream), <- app_assoc.
Qed.

(** X13. The pause between two batches sends every subscriber of the job
    101 [delay] events, with the progress 0, 1, ..., 100 in this order, and
    leaves the registry alone, when no route handler runs during it. *)
#[warnings="-abstract-large-number"]
Theorem delay_counts_to_a_hundred env analysisId batchNumber w callback stream :
  (∀ step, duringDelay env batchNumber step = []) →
  activeStreams w !! analysisId = Some stream →
  isActive stream = true →
  NoDup (callbacks stream) →
  callback ∈ callbacks stream →
  let w' := streamDelay env analysisId 10000 batchNumber w in
  activeStreams w' = activeStreams w
  ∧ received callback w' = received callback w ++ map EvDelay (seq 0 101).
Proof.
  intros Hquiet Hs Hactive Hnd Hin w'. unfold w', streamDelay.
  destruct (streamDelay_loop_received env analysisId batchNumber 100 callback stream
              Hquiet Hactive Hnd Hin 101 0 w Hs) as [Hreg Hrec].
  split; [exact Hreg|]. etrans; [exact Hrec|]. reflexivity.
Qed.

Lemma for_await_received analysisId hasFullAccess event callback stream chunks :
  isActive stream = true →
  NoDup (callbacks stream) →
  callback ∈ callbacks stream →
  ∀ fullResponse hasContent w,
    activeStreams w !! analysisId = Some stream →
    ∃ w',
      for_await analysisId hasFullAccess event (map Yield chunks) fullResponse
                hasContent w
      = (fullResponse +:+ foldr String.append "" chunks,
         hasContent || negb (bool_decide (chunks = [])), w')
      ∧ activeStreams w' = activeStreams w
      ∧ received callback w'
        = received callback w
          ++ map (λ text, event (shown hasFullAccess text))
                 (snapshots fullResponse chunks).
Proof.
  intros Hactive Hnd Hin.
  induction chunks as [|chunk chunks IH]; intros fullResponse hasContent w Hs;
    cbn [map for_await foldr snapshots].
  - exists w. by rewrite app_empty_r, orb_false_r, app_nil_r.
  - destruct (IH (fullResponse +:+ chunk) true
                (broadcastToStream analysisId
                   (event (shown hasFullAccess (fullResponse +:+ chunk))) w))
      as (w' & Hrun & Hreg & Hrec).
    { by rewrite broadcast_registry. }
    exists w'. unfold shown in Hrun at 1. rewrite Hrun, Hreg, Hrec, broadcast_registry.
    rewrite app_assoc_s, orb_true_r. simpl. split; [done|]. split; [done|].
    by rewrite (broadcast_received _ _ _ _ stream), <- app_assoc.
Qed.

(** X14. Every text event is a snapshot, not an increment: when the
    provider answers in chunks and no route handler runs meanwhile, a
    subscriber of the job is sent, chunk after chunk, the whole text
    accumulated so far (cut to its preview at the partial tier); a batch
    ends with a [batch_complete] event that carries the whole answer once
    more, and the full text is what the method returns. *)
Theorem text_events_are_snapshots env analysis hasFullAccess questions batchNumber
    w callback stream summaryChunks batchChunks :
  streamResponse (llmService env) SummaryRequest
  = {| steps := map Yield summaryChunks; failure := None |} →
  streamResponse (llmService env) (BatchRequest batchNumber)
  = {| steps := map Yield batchChunks; failure := None |} →
  summaryChunks ≠ [] →
  batchChunks ≠ [] →
  activeStreams w !! Analysis.id analysis = Some stream →
  isActive stream = true →
  NoDup (callbacks stream) →
  callback ∈ callbacks stream →
  (∃ w',
     streamSummary env analysis hasFullAccess w
     = (Returned (foldr String.append "" summaryChunks), w')
     ∧ received callback w'
       = received callback w
         ++ map (λ text, EvSummary (shown hasFullAccess text))
                (snapshots "" summaryChunks))
  ∧ (∃ w',
       processBatch env analysis questions batchNumber hasFullAccess w
       = (Returned (foldr String.append "" batchChunks), w')
       ∧ received callback w'
         = received callback w
           ++ map (λ text, EvRawStream batchNumber (shown hasFullAccess text))
                  (snapshots "" batchChunks)
           ++ [EvBatchComplete batchNumber
                 (shown hasFullAccess (foldr String.append "" batchChunks))]).
Proof.
  intros Hsummary Hbatch Hne1 Hne2 Hs Hactive Hnd Hin. split.
  - unfold streamSummary. rewrite Hsummary. simpl.
    destruct (for_await_received (Analysis.id analysis) hasFullAccess EvSummary
                callback stream summaryChunks Hactive Hnd Hin "" false w Hs)
      as (w' & -> & _ & Hrec).
    rewrite bool_decide_eq_false_2 by done. simpl. by exists w'.
  - unfold processBatch, stream_batch. rewrite Hbatch. simpl.
    destruct (for_await_received (Analysis.id analysis) hasFullAccess
                (EvRawStream batchNumber) callback stream batchChunks
                Hactive Hnd Hin "" false w Hs)
      as (w' & -> & Hreg & Hrec).
    rewrite bool_decide_eq_false_2 by done. simpl. eexists. split; [done|].
    rewrite (broadcast_received _ _ _ _ stream), Hrec, <- app_assoc; try done.
    by rewrite Hreg.
Qed.

End Deliveries.

(** ** A run that ends without a channel *)

Section Silent.
Implicit Types (w : World) (analysis : Analysis.t) (analysisId : string).

(** A run is a sequence of steps that call the callbacks with events that
    are not terminal, followed by one broadcast of the closing event. *)
Lemma run_before_closing env analysisId w :
  ∃ wz,
    startAnalysis env analysisId w
    = broadcastToStream analysisId (closing (processAnalysis env analysisId w).1) wz
    ∧ delivers not_terminal w wz.
Proof.
  destruct (analyses w !! analysisId) as [analysis|] eqn:Ha.
  2:{ destruct (startAnalysis_missing env _ _ Ha) as [-> ->].
      exists w. split; [done|apply delivers_refl]. }
  destruct (resolveAccess_returns analysis w)
    as (hasFullAccess & w1 & Hr & _ & _ & Hd1).
  destruct (dispatch env analysis hasFullAccess
              (DatabaseStorage.updateAnalysisStatus analysisId "streaming" w1))
    as [out2 w2] eqn:Hd.
  assert (Hw2 : delivers not_terminal w w2).
  { apply (delivers_trans _ _ (DatabaseStorage.updateAnalysisStatus analysisId
                                 "streaming" w1)); [by apply delivers_same|].
    revert Hd.
    apply (frame_dispatch (λ _, True) (λ _, True) not_terminal
             (delivers not_terminal)); try done.
    - apply delivers_refl.
    - apply delivers_trans.
    - intros key data w0 _ Hdata. by apply broadcast_delivers.
    - intros call w0 _. apply external_delivers.
    - intros f key w0 _. by apply delivers_same. }
  unfold startAnalysis.
  rewrite (processAnalysis_unfold env _ _ _ _ _ _ _ Ha Hr Hd).
  destruct out2 as [[]|message];
    [destruct (analyses w2 !! analysisId ≫= Analysis.results)|]; simpl.
  - eexists. split; [reflexivity|].
    eapply delivers_trans; [exact Hw2|by apply delivers_same].
  - eexists. split; [reflexivity|].
    eapply delivers_trans; [exact Hw2|by apply delivers_same].
  - eexists. split; [reflexivity|].
    eapply delivers_trans; [exact Hw2|by apply delivers_same].
Qed.

(** X15. A stopped run ends in silence: when the job has no active channel
    at the end of a run, as after a stop or a disconnection that no new
    subscription followed, no callback was called with a terminal event
    during the whole run, whatever the provider answered: neither
    [complete], nor [error], nor [stopped]. *)
Theorem stopped_run_ends_in_silence env analysisId w :
  stopped analysisId (startAnalysis env analysisId w) = true →
  delivers not_terminal w (startAnalysis env analysisId w).
Proof.
  destruct (run_before_closing env analysisId w) as (wz & -> & Hdel).
  intros Hstopped. rewrite broadcast_inactive; [done|].
  unfold stopped in *. by rewrite broadcast_registry in Hstopped.
Qed.

End Silent.

(** ** Batches of any size *)

Section BatchesOfAnySize.
Context {T : Type}.
Implicit Types (items : list T) (batches : list (list T)).

Lemma createBatches_loop_slices (batchSize : nat) items :
  0 < batchSize →
  ∀ fuel i acc,
    length items - i ≤ fuel →
    createBatches_loop fuel items batchSize i acc
    = Some (acc ++ map (λ j, JS.slice (i + j * batchSize) (i + j * batchSize + batchSize)
                                      items)
                       (seq 0 ((length items - i + batchSize - 1) / batchSize))).
Proof.
  intros Hb fuel. induction fuel as [|fuel IH]; intros i acc Hfuel.
  - simpl. destruct (Nat.ltb_spec i (length items)); [lia|].
    replace (length items - i) with 0 by lia. rewrite ceil_zero by done.
    by rewrite app_nil_r.
  - simpl. destruct (Nat.ltb_spec i (length items)) as [Hlt|Hge].
    + rewrite IH by lia. rewrite (ceil_step (length items - i)) by lia.
      rewrite <- app_assoc. cbn [seq map app]. do 3 f_equal.
      * f_equal; lia.
      * replace (length items - i - batchSize) with (length items - (i + batchSize))
          by lia.
        rewrite <- seq_shift, map_map. apply map_ext. intros j. f_equal; lia.
    + replace (length items - i) with 0 by lia. rewrite ceil_zero by done.
      by rewrite app_nil_r.
Qed.

(** X16. [createBatches] for any batch size.  For a positive batch size b
    it returns the ⌈N/b⌉ slices [items.slice(j*b, j*b + b)], j = 0, 1, ...
    in this order: batch j holds the elements at the indices j*b to
    j*b + b - 1 that exist.  With a batch size of 0 its loop does not end
    unless the array is empty: the index never moves, so no number of
    rounds is enough. *)
Theorem createBatches_slices (batchSize : nat) items :
  (0 < batchSize →
   createBatches items batchSize
   = Some (map (λ j, take batchSize (drop (j * batchSize) items))
               (seq 0 ((length items + batchSize - 1) / batchSize))))
  ∧ (batchSize = 0 → items ≠ [] →
     ∀ fuel acc, createBatches_loop fuel items batchSize 0 acc = None).
Proof.
  split.
  - intros Hb. unfold createBatches.
    rewrite (createBatches_loop_slices batchSize items Hb) by lia.
    rewrite Nat.sub_0_r. simpl. f_equal. apply map_ext. intros j.
    unfold JS.slice. f_equal. lia.
  - intros -> Hne fuel.
    induction fuel as [|fuel IH]; intros acc; simpl.
    + by destruct items.
    + destruct items as [|x items]; [done|]. simpl. apply IH.
Qed.

End BatchesOfAnySize.

(** ** The events of a successful run *)

Section HappyPath.
Variable env : Environment.
Variable chunks : Request → list string.
Variable hasFullAccess : bool.
Variable analysis : Analysis.t.
Variable callback : nat.
Variable stream : ActiveStream.
Hypothesis Hanswers : answers_in_chunks env chunks.
Hypothesis Hquiet : ∀ batchNumber step, duringDelay env batchNumber step = [].
Hypothesis Hactive : isActive stream = true.
Hypothesis Hnd : NoDup (callbacks stream).
Hypothesis Hin : callback ∈ callbacks stream.
Implicit Types (w : World) (events : list StreamEvent).

Abbreviation on_air w := (activeStreams w !! Analysis.id analysis = Some stream).
Abbreviation carries' := (carries (Analysis.id analysis) callback stream).

Lemma carries_nil w : on_air w → carries' [] w w.
Proof. intros Hs. split; [done|]. split; [done|]. by rewrite app_nil_r. Qed.

Lemma carries_trans events1 events2 w1 w2 w3 :
  carries' events1 w1 w2 → carries' events2 w2 w3 →
  carries' (events1 ++ events2) w1 w3.
Proof.
  intros (_ & Hst1 & Hrec1) (Hs2 & Hst2 & Hrec2). split; [done|].
  split; [by eapply storage_same_trans|]. by rewrite Hrec2, Hrec1, app_assoc.
Qed.

Lemma broadcast_carries data w :
  on_air w → carries' [data] w (broadcastToStream (Analysis.id analysis) data w).
Proof.
  intros Hs. split; [by rewrite broadcast_registry|].
  split; [apply broadcast_storage|]. by apply (broadcast_received _ _ _ _ stream).
Qed.

Lemma accumulated_chunks (texts : list string) :
  accumulated (map Yield texts) = foldr String.append "" texts.
Proof. induction texts as [|text texts IH]; [done|]. simpl. by rewrite IH. Qed.

Lemma answer_chunks request :
  answer env request = foldr String.append "" (chunks request).
Proof.
  unfold answer. destruct (Hanswers request) as [-> _]. apply accumulated_chunks.
Qed.

Lemma for_await_carries event request w :
  on_air w →
  ∃ w',
    for_await (Analysis.id analysis) hasFullAccess event
              (steps (streamResponse (llmService env) request)) "" false w
    = (answer env request, true, w')
    ∧ failure (streamResponse (llmService env) request) = None
    ∧ carries' (text_events hasFullAccess event (chunks request)) w w'.
Proof.
  intros Hs. rewrite answer_chunks.
  destruct (for_await_spec (Analysis.id analysis) hasFullAccess event
              (steps (streamResponse (llmService env) request)) "" false w)
    as (hc & w0 & Hspec & Hstore).
  destruct (Hanswers request) as [Hstream Hne]. rewrite Hstream in *. simpl in *.
  destruct (for_await_received (Analysis.id analysis) hasFullAccess event callback
              stream (chunks request) Hactive Hnd Hin "" false w Hs)
    as (w' & Hrun & Hreg & Hrec).
  exists w'. rewrite Hrun, bool_decide_eq_false_2 by done.
  split; [done|]. split; [done|]. split; [by rewrite Hreg|]. split; [|done].
  rewrite Hrun in Hspec. by injection Hspec as _ _ <-.
Qed.

Lemma streamSummary_carries w :
  on_air w →
  ∃ w',
    streamSummary env analysis hasFullAccess w = (Returned (answer env SummaryRequest), w')
    ∧ carries' (text_events hasFullAccess EvSummary (chunks SummaryRequest)) w w'.
Proof.
  intros Hs. unfold streamSummary.
  destruct (for_await_carries EvSummary SummaryRequest w Hs) as (w' & -> & -> & Hc).
  by exists w'.
Qed.

Lemma stream_batch_carries label_empty label_failed batchNumber w :
  on_air w →
  ∃ w',
    stream_batch label_empty label_failed env analysis batchNumber hasFullAccess w
    = (Returned (answer env (BatchRequest batchNumber)), w')
    ∧ carries' (text_events hasFullAccess (EvRawStream batchNumber)
                            (chunks (BatchRequest batchNumber))
                ++ [EvBatchComplete batchNumber
                      (shown hasFullAccess (answer env (BatchRequest batchNumber)))])
               w w'.
Proof.
  intros Hs. unfold stream_batch.
  destruct (for_await_carries (EvRawStream batchNumber) (BatchRequest batchNumber) w Hs)
    as (w' & -> & -> & Hc).
  eexists. split; [reflexivity|].
  eapply carries_trans; [exact Hc|]. apply broadcast_carries. by destruct Hc.
Qed.

#[warnings="-abstract-large-number"]
Lemma streamDelay_carries batchNumber w :
  on_air w →
  carries' (map EvDelay (seq 0 101)) w
           (streamDelay env (Analysis.id analysis) 10000 batchNumber w).
Proof.
  intros Hs.
  destruct (streamDelay_loop_received env (Analysis.id analysis) batchNumber 100
              callback stream (Hquiet batchNumber) Hactive Hnd Hin 101 0 w Hs)
    as [Hreg Hrec].
  split; [|split].
  - etrans; [|exact Hs]. f_equal. exact Hreg.
  - apply streamDelay_storage.
  - etrans; [exact Hrec|]. reflexivity.
Qed.

(** The pause after batch [i + 1] of [n]. *)
#[warnings="-abstract-large-number"]
Lemma pause_carries i n w :
  0 < n →
  on_air w →
  ∃ w',
    (if i <? n - 1
     then exec (streamDelay env (Analysis.id analysis) 10000 (i + 1))
     else ret tt) w = (Returned tt, w')
    ∧ carries' (if i + 1 <? n then map EvDelay (seq 0 101) else []) w w'.
Proof.
  intros Hn Hs.
  destruct (Nat.ltb_spec i (n - 1)); destruct (Nat.ltb_spec (i + 1) n); try lia.
  - eexists. split; [reflexivity|]. by apply streamDelay_carries.
  - exists w. split; [done|]. by apply carries_nil.
Qed.

Lemma not_stopped_on_air w : on_air w → stopped (Analysis.id analysis) w = false.
Proof. intros Hs. unfold stopped. by rewrite Hs, Hactive. Qed.

(** The loop over the batches, from batch [i + 1] on. *)
Lemma batch_loop_carries {T} label_empty label_failed (onStop : M T)
    (finish : list string → T) batches :
  ∀ remaining i batchResults w,
    length batches = i + length remaining →
    on_air w →
    ∃ w',
      batch_loop env analysis
                 (λ batch batchNumber,
                    stream_batch label_empty label_failed env analysis batchNumber
                                 hasFullAccess)
                 onStop finish batches remaining i batchResults w
      = (Returned (finish (batchResults
                           ++ map (λ k, answer env (BatchRequest k))
                                  (seq (i + 1) (length remaining)))), w')
      ∧ carries' (concat (map (batch_events hasFullAccess chunks (length batches))
                              (seq (i + 1) (length remaining))))
                 w w'.
Proof.
  induction remaining as [|batch rest IH]; intros i batchResults w Hlen Hs.
  - exists w. simpl. rewrite app_nil_r. split; [done|]. by apply carries_nil.
  - cbn [batch_loop]. unfold bind at 1, gets at 1.
    rewrite (not_stopped_on_air w Hs). unfold bind at 1.
    destruct (stream_batch_carries label_empty label_failed (i + 1) w Hs)
      as (w1 & -> & Hc1).
    pose proof Hc1 as (Hs1 & _).
    unfold bind at 1, gets at 1. rewrite (not_stopped_on_air w1 Hs1).
    unfold bind at 1.
    destruct (pause_carries i (length batches) w1) as (w2 & -> & Hc2);
      [simpl in Hlen; lia|done|].
    pose proof Hc2 as (Hs2 & _).
    destruct (IH (i + 1) (batchResults ++ [answer env (BatchRequest (i + 1))]) w2)
      as (w' & -> & Hc'); [simpl in Hlen; lia|done|].
    exists w'. cbn [length seq map concat]. rewrite <- app_assoc.
    replace (S (i + 1)) with (i + 1 + 1) by lia.
    split; [done|].
    rewrite answer_chunks in Hc1.
    pose proof (carries_trans _ _ _ _ _ (carries_trans _ _ _ _ _ Hc1 Hc2) Hc') as Hc.
    unfold batch_events at 1. by rewrite <- !app_assoc in *.
Qed.

(** The shape the nine methods share: the summary, the loop, the save. *)
Lemma kind_carries {T} label_empty label_failed (onStop : M T)
    (finish : list string → T) (after : string → T → M unit) questions w :
  (∀ summary batchResults,
     after summary (finish batchResults) = save analysis summary batchResults questions) →
  on_air w →
  ∃ wq,
    (let* summary := streamSummary env analysis hasFullAccess in
     let* batchResults :=
       batch_loop env analysis
                  (λ batch batchNumber,
                     stream_batch label_empty label_failed env analysis batchNumber
                                  hasFullAccess)
                  onStop finish (batches_of questions) (batches_of questions) 0 [] in
     after summary batchResults) w
    = (Returned tt,
       DatabaseStorage.updateAnalysisResults (Analysis.id analysis)
         (final_results env analysis questions) wq)
    ∧ carries' (text_events hasFullAccess EvSummary (chunks SummaryRequest)
                ++ concat (map (batch_events hasFullAccess chunks
                                             (length (batches_of questions)))
                               (seq 1 (length (batches_of questions)))))
               w wq.
Proof.
  intros Hafter Hs. unfold bind at 1.
  destruct (streamSummary_carries w Hs) as (w1 & -> & Hc1).
  pose proof Hc1 as (Hs1 & _). unfold bind at 1.
  destruct (batch_loop_carries label_empty label_failed onStop finish
              (batches_of questions) (batches_of questions) 0 [] w1 eq_refl Hs1)
    as (wq & -> & Hcq).
  exists wq. rewrite Hafter, save_spec. split; [done|].
  by eapply carries_trans.
Qed.

Lemma dispatch_carries t w :
  analysisType_of (Analysis.type analysis) = Some t →
  on_air w →
  ∃ wq,
    dispatch env analysis hasFullAccess w
    = (Returned tt,
       DatabaseStorage.updateAnalysisResults (Analysis.id analysis)
         (final_results env analysis (questions_of env t)) wq)
    ∧ carries' (text_events hasFullAccess EvSummary (chunks SummaryRequest)
                ++ concat (map (batch_events hasFullAccess chunks
                                  (length (batches_of (questions_of env t))))
                               (seq 1 (length (batches_of (questions_of env t))))))
               w wq.
Proof.
  intros Ht Hs. unfold dispatch. rewrite Ht.
  destruct t; cbn [questions_of].
  - apply (kind_carries _ _ (ret None) Some
             (λ summary batchResults,
                match batchResults with
                | None => ret tt
                | Some batchResults =>
                    save analysis summary batchResults
                         (getCognitiveQuestions (llmService env))
                end)); done.
  - apply (kind_carries _ _ (throw "Analysis stopped by user") (λ r, r)
             (λ summary batchResults, save analysis summary batchResults _)); done.
  - apply (kind_carries _ _ (throw "Analysis stopped by user") (λ r, r)
             (λ summary batchResults, save analysis summary batchResults _)); done.
  - apply (kind_carries _ _ (throw "Analysis stopped by user") (λ r, r)
             (λ summary batchResults, save analysis summary batchResults _)); done.
  - apply (kind_carries _ _ (throw "Analysis stopped by user") (λ r, r)
             (λ summary batchResults, save analysis summary batchResults _)); done.
  - apply (kind_carries _ _ (throw "Analysis stopped by user") (λ r, r)
             (λ summary batchResults, save analysis summary batchResults _)); done.
  - apply (kind_carries _ _ (throw "Analysis stopped by user") (λ r, r)
             (λ summary batchResults, save analysis summary batchResults _)); done.
  - apply (kind_carries _ _ (throw "Analysis stopped by user") (λ r, r)
             (λ summary batchResults, save analysis summary batchResults _)); done.
  - apply (kind_carries _ _ (throw "Analysis stopped by user") (λ r, r)
             (λ summary batchResults, save analysis summary batchResults _)); done.
Qed.

End HappyPath.

Section WholeRun.
Implicit Types (w : World) (analysis : Analysis.t) (analysisId : string).

(** X17. The events of a successful run, one by one.  When every provider
    call answers in chunks and no route handler runs meanwhile, the run of
    a job of one of the nine kinds returns, and a subscriber of the job
    receives exactly: a [summary] snapshot per chunk of the summary; for
    each batch in turn, a [raw_stream] snapshot per chunk, a
    [batch_complete] with the whole answer, and, unless the batch is the
    last, the 101 [delay] events of the pause; then [complete].  The texts
    are full or cut to their preview as the access check decided.  The job
    row ends [completed] with the full results. *)
Theorem successful_run_events env chunks analysisId analysis t hasFullAccess
    w w1 callback stream :
  answers_in_chunks env chunks →
  (∀ batchNumber step, duringDelay env batchNumber step = []) →
  analyses w !! analysisId = Some analysis →
  keyed analysisId w →
  analysisType_of (Analysis.type analysis) = Some t →
  resolveAccess analysis w = (Returned hasFullAccess, w1) →
  activeStreams w !! analysisId = Some stream →
  isActive stream = true →
  NoDup (callbacks stream) →
  callback ∈ callbacks stream →
  let w' := startAnalysis env analysisId w in
  processAnalysis env analysisId w = (Returned tt, w')
  ∧ received callback w'
    = received callback w
      ++ run_events hasFullAccess chunks (length (batches_of (questions_of env t)))
  ∧ analyses w' !! analysisId
    = Some (Analysis.with_status "completed"
              (Analysis.with_results (final_results env analysis (questions_of env t))
                                     analysis)).
Proof.
  intros Hanswers Hquiet Ha Hkeyed Ht Hr Hs Hactive Hnd Hin w'.
  pose proof (Hkeyed _ Ha) as Hid.
  destruct (resolveAccess_returns analysis w) as (h & w1' & Hr' & Ha1 & Hs1 & Hd1).
  rewrite Hr in Hr'. injection Hr' as <- <-.
  destruct (dispatch_carries env chunks hasFullAccess analysis callback stream
              Hanswers Hquiet Hactive Hnd Hin t
              (DatabaseStorage.updateAnalysisStatus analysisId "streaming" w1) Ht)
    as (wq & Hd & Hsq & [Haq Huq] & Hrecq).
  { simpl. by rewrite Hid, Hs1. }
  rewrite Hid in Hd, Hsq.
  assert (Hrow : analyses
                   (DatabaseStorage.updateAnalysisResults analysisId
                      (final_results env analysis (questions_of env t)) wq)
                 !! analysisId
                 = Some (Analysis.with_results
                           (final_results env analysis (questions_of env t))
                           (Analysis.with_status "streaming" analysis))).
  { simpl. by rewrite lookup_alter_eq, Haq; simpl; rewrite lookup_alter_eq, Ha1, Ha. }
  pose proof (processAnalysis_unfold env _ _ _ _ _ _ _ Ha Hr Hd) as Hrun.
  cbv beta iota in Hrun. rewrite Hrow in Hrun. simpl in Hrun.
  unfold w', startAnalysis. rewrite Hrun. split; [done|]. split.
  - unfold completed, run_events.
    rewrite (broadcast_received _ _ _ _ stream); [|done..].
    unfold received in *. simpl. simpl in Hrecq. rewrite Hrecq, Hd1.
    by rewrite <- !app_assoc.
  - rewrite analyses_completed, lookup_alter_eq, Hrow. by destruct analysis.
Qed.

End WholeRun.

(** ** The credit check of the client and the gate of the server *)

Section ClientAndServer.
Implicit Types (w : World) (analysis : Analysis.t) (user : User.t).



End ClientAndServer.

(** ** The two truncations on the same text *)

Section Previews.
Implicit Types (text s p : string) (ps : list string).

Lemma join_char sep c p ps :
  JS.join sep (String c p :: ps) = String c (JS.join sep (p :: ps)).
Proof. by destruct ps. Qed.





Lemma no_space_substring i n s : no_space s → no_space (String.substring i n s).
Proof.
  revert i n. induction s as [|c s IH]; intros [|i] [|n]; simpl; try done.
  - intros [Hc Hs]. split; [done|]. by apply IH.
  - intros [_ Hs]. by apply IH.
  - intros [_ Hs]. by apply IH.
Qed.

Lemma ending_at_no_space text i : no_space text → UserCredits.ending_at text i = None.
Proof.
  intros Hno. unfold UserCredits.ending_at.
  destruct (List.find _ _) as [ending|] eqn:Hfind; [|done].
  apply find_some in Hfind as [Hin Heq]. apply String.eqb_eq in Heq.
  pose proof (no_space_substring i (i + String.length ending - i) text Hno) as Hsub.
  unfold JS.substring in Heq. rewrite Heq in Hsub.
  simpl in Hin. by repeat (destruct Hin as [<-|Hin]; [by destruct Hsub as [_ [? _]]|]).
Qed.

Lemma sentence_loop_no_space text targetLength n i :
  no_space text →
  UserCredits.sentence_loop text targetLength n i targetLength = targetLength.
Proof.
  intros Hno. revert i. induction n as [|n IH]; intros i; simpl; [done|].
  rewrite (ending_at_no_space _ _ Hno), Nat.eqb_refl. simpl. apply IH.
Qed.

Lemma get_no_space i s ch : no_space s → String.get i s = Some ch → JS.is_space ch = false.
Proof.
  revert i. induction s as [|c s IH]; intros [|i]; simpl; try done.
  - by intros [Hc _] [= <-].
  - intros [_ Hs]. by apply IH.
Qed.

Lemma word_boundary_no_space text cutPoint :
  no_space text → UserCredits.word_boundary text cutPoint = 0.
Proof.
  intros Hno. induction cutPoint as [|c IH]; [done|].
  cbn [UserCredits.word_boundary].
  destruct (String.get (S c) text) as [ch|] eqn:Hget; [|done].
  apply (get_no_space _ _ _ Hno) in Hget.
  destruct (Ascii.eqb_spec ch " ") as [->|_]; [done|exact IH].
Qed.

(** X20. On a text without white space the two truncations are as far
    apart as they can be: at 30% the server shows all of it, and the client
    shows nothing, since it finds no sentence ending and no space to cut
    at. *)
Theorem client_hides_what_server_shows text :
  no_space text →
  truncateToPercentage text 30 = text
  ∧ UserCredits.truncateToPercentage text 30 = "".
Proof.
  intros Hno. split.
  - unfold truncateToPercentage, JS.split_ws.
    change (100 <=? 30) with false. cbv iota zeta.
    rewrite (split_go_no_space _ _ Hno). simpl.
    by rewrite Nat.ltb_irrefl, app_empty_r.
  - unfold UserCredits.truncateToPercentage, UserCredits.cut_point.
    change (100 <=? 30) with false. cbv iota zeta.
    rewrite (sentence_loop_no_space _ _ _ _ Hno), Nat.eqb_refl.
    rewrite (word_boundary_no_space _ _ Hno). unfold JS.substring. by destruct text.
Qed.

End Previews.

(** ** The stream parser: what it ignores *)

Section ParserIgnores.
Import LLMService.
Variable JSON_parse : string → option JSON.
Variable provider : LLMProviderType.
Implicit Types (s t buffer payload : string) (lines reads : list string).

Lemma streamResponse_lines apiKey response reads :
  body response = Some reads →
  streamResponse JSON_parse apiKey provider response
  = if String.eqb apiKey "" then
      {| yielded := [];
         thrown := Some ("API key not configured for " +:+ provider_name provider) |}
    else if negb (ok response) then
      {| yielded := [];
         thrown := Some ("LLM API error: " +:+ JS.show_nat (status response) +:+ " "
                         +:+ statusText response +:+ " - " +:+ text response) |}
    else {| yielded := (process_lines JSON_parse provider
                          (JS.split_lines (wire_of reads)).1).1;
            thrown := None |}.
Proof.
  intros Hbody. unfold streamResponse. rewrite Hbody.
  destruct (String.eqb apiKey ""); [done|]. destruct (negb (ok response)); [done|].
  by rewrite read_loop_lines.
Qed.

(** X21. What the parser yields depends on the text received, not on how
    the network cut it into reads: two bodies that carry the same text give
    the same stream, a frame cut in the middle included. *)
Theorem stream_is_independent_of_the_reads apiKey response reads reads' :
  body response = Some reads →
  wire_of reads' = wire_of reads →
  streamResponse JSON_parse apiKey provider (with_body response reads')
  = streamResponse JSON_parse apiKey provider response.
Proof.
  intros Hbody Hwire.
  rewrite (streamResponse_lines apiKey response reads Hbody).
  rewrite (streamResponse_lines apiKey (with_body response reads') reads' eq_refl).
  by rewrite Hwire.
Qed.

Lemma split_lines_tail lines tail :
  Forall no_newline lines → no_newline tail →
  JS.split_lines (unlines lines +:+ tail) = (lines, tail).
Proof.
  intros Hlines Htail. induction Hlines as [|line lines Hline _ IH]; simpl.
  - rewrite app_empty_l. by apply split_lines_no_newline.
  - rewrite app_assoc_s, app_cons, (split_lines_line _ _ Hline), IH. done.
Qed.

Lemma process_lines_done payload lines :
  JS.trim payload = "[DONE]" →
  process_lines JSON_parse provider (("data: " +:+ payload) :: lines) = ([], true).
Proof.
  intros Hdone. cbn [process_lines]. rewrite startsWith_app.
  change (JS.slice_from 6 ("data: " +:+ payload)) with payload.
  by rewrite Hdone.
Qed.

(** X22. The stream ends at the sentinel: when a line of the text is
    [data: [DONE]] (white space around the payload apart), the lines after
    it are never looked at; the stream is that of the text before it. *)
Theorem done_ends_the_stream apiKey response reads reads' before payload after :
  body response = Some reads →
  wire_of reads = unlines (before ++ ["data: " +:+ payload] ++ after) →
  wire_of reads' = unlines before →
  Forall no_newline (before ++ ["data: " +:+ payload] ++ after) →
  JS.trim payload = "[DONE]" →
  streamResponse JSON_parse apiKey provider response
  = streamResponse JSON_parse apiKey provider (with_body response reads').
Proof.
  intros Hbody Hwire Hwire' Hnl Hdone.
  rewrite (streamResponse_lines apiKey response reads Hbody).
  rewrite (streamResponse_lines apiKey (with_body response reads') reads' eq_refl).
  rewrite Hwire, Hwire', !split_lines_unlines; [|by apply Forall_app in Hnl as [? _]|done].
  simpl. rewrite process_lines_app, (process_lines_done _ _ Hdone).
  destruct (process_lines JSON_parse provider before) as [ys [|]]; [done|].
  by rewrite app_nil_r.
Qed.

(** X23. A last line without its line feed is lost: the text after the
    last line feed stays in the buffer when the body ends, and is never
    parsed, not even when it is a complete [data: ] frame. *)
Theorem unterminated_line_is_lost apiKey response reads reads' lines tail :
  body response = Some reads →
  wire_of reads = unlines lines +:+ tail →
  wire_of reads' = unlines lines →
  Forall no_newline lines →
  no_newline tail →
  streamResponse JSON_parse apiKey provider response
  = streamResponse JSON_parse apiKey provider (with_body response reads').
Proof.
  intros Hbody Hwire Hwire' Hlines Htail.
  rewrite (streamResponse_lines apiKey response reads Hbody).
  rewrite (streamResponse_lines apiKey (with_body response reads') reads' eq_refl).
  by rewrite Hwire, Hwire', split_lines_tail, split_lines_unlines.
Qed.

Lemma extract_truthy parsed c :
  extractContentFromResponse parsed provider = Some (Some c) → truthy c = true.
Proof.
  assert (Hor : ∀ o, or_null o = Some c → truthy c = true).
  { intros [v|]; simpl; [|done]. destruct (truthy v) eqn:Hv; [|done]. by intros [= <-]. }
  unfold extractContentFromResponse.
  destruct parsed; try done; destruct provider; try (intros [= H]; by apply Hor in H).
  destruct (prop "type" _) as [[| | |s| |]|]; try done.
  destruct (String.eqb_spec s "content_block_delta") as [->|Hne].
  - intros [= H]. by apply Hor in H.
  - intros H. exfalso. revert H.
    repeat (destruct s as [|[[] [] [] [] [] [] [] []] s]; try done).
Qed.

Lemma process_lines_truthy lines :
  Forall (λ c, truthy c = true) (process_lines JSON_parse provider lines).1.
Proof.
  induction lines as [|line lines IH]; simpl; [done|].
  destruct (JS.startsWith line "data: "); [|done].
  destruct (String.eqb _ "[DONE]"); [done|].
  destruct (JSON_parse _) as [parsed|]; [|done].
  destruct (extractContentFromResponse parsed provider) as [[c|]|] eqn:He; try done.
  destruct (process_lines _ _ lines) as [ys returned]. simpl in *.
  constructor; [by apply extract_truthy in He|done].
Qed.

(** X24. The parser never yields an empty chunk: whatever the response,
    every value it yields is truthy, so an empty or null delta reaches no
    [onChunk] callback. *)
Theorem no_empty_chunk apiKey response :
  Forall (λ c, truthy c = true)
         (yielded (streamResponse JSON_parse apiKey provider response)).
Proof.
  destruct (body response) as [reads|] eqn:Hbody.
  - rewrite (streamResponse_lines apiKey response reads Hbody).
    destruct (String.eqb apiKey ""); [done|]. destruct (negb (ok response)); [done|].
    apply process_lines_truthy.
  - unfold streamResponse. rewrite Hbody.
    destruct (String.eqb apiKey ""); [done|]. by destruct (negb (ok response)).
Qed.

End ParserIgnores.

(** ** Parsing an upload *)

Section Uploads.
Import FileParsing.
Context {Buffer : Type}.
Variable lib : Libraries Buffer.
Implicit Types (s t p q : string) (ps words batch : list string)
  (batches : list (list string)) (file : File Buffer).

Lemma trim_right_cons c s :
  JS.trim_right (String c s)
  = match JS.trim_right s with
    | "" => if JS.is_space c then "" else String c ""
    | r => String c r
    end.
Proof. done. Qed.

Lemma trim_right_idemp s : JS.trim_right (JS.trim_right s) = JS.trim_right s.
Proof.
  induction s as [|c s IH]; [done|]. rewrite trim_right_cons.
  destruct (JS.trim_right s) as [|d r] eqn:Hr.
  - destruct (JS.is_space c) eqn:Hc; [done|]. simpl. by rewrite Hc.
  - by rewrite trim_right_cons, IH.
Qed.

Lemma starts_with_space_trim_left s : starts_with_space (JS.trim_left s) = false.
Proof.
  induction s as [|c s IH]; [done|]. simpl.
  destruct (JS.is_space c) eqn:Hc; [done|]. simpl. exact Hc.
Qed.

Lemma starts_with_space_trim s : starts_with_space (JS.trim s) = false.
Proof.
  unfold JS.trim. pose proof (prefix_trim_right (JS.trim_left s)) as Hpre.
  pose proof (starts_with_space_trim_left s) as Hstart.
  destruct (JS.trim_right (JS.trim_left s)) as [|c t]; [done|].
  destruct (JS.trim_left s) as [|c' t']; [done|]. simpl in *.
  by destruct (ascii_dec c c') as [->|].
Qed.

Lemma split_go_first s b :
  s ≠ "" → starts_with_space s = false → (JS.split_go b s).1 ≠ "".
Proof.
  destruct s as [|c s]; [done|]. simpl. intros _ ->.
  by destruct (JS.split_go false s).
Qed.

(** The last piece of a text that does not end in white space is not
    empty. *)
Lemma split_go_last s b :
  JS.trim_right s = s → s ≠ "" →
  last ((JS.split_go b s).1 :: (JS.split_go b s).2) ≠ Some "".
Proof.
  revert b. induction s as [|c s IH]; intros b Htrim Hne; [done|]. clear Hne.
  rewrite trim_right_cons in Htrim.
  destruct (JS.trim_right s) as [|d r] eqn:Hr.
  - destruct (JS.is_space c) eqn:Hc; [done|]. injection Htrim as <-.
    simpl. by rewrite Hc.
  - injection Htrim as Hs. rewrite <- Hs in IH.
    assert (Hlast : ∀ b, last ((JS.split_go b (String d r)).1
                               :: (JS.split_go b (String d r)).2) ≠ Some "").
    { intros b'. by apply IH. }
    rewrite Hs in Hlast. clear IH Hr Hs. cbn [JS.split_go]. destruct (JS.is_space c).
    + destruct b; [apply Hlast|]. specialize (Hlast true).
      by destruct (JS.split_go true s).
    + specialize (Hlast false). destruct (JS.split_go false s) as [p ps].
      simpl in *. by destruct ps.
Qed.

Lemma inner_ok_last ps :
  inner_ok ps → last ps ≠ Some "" → Forall (λ p, p ≠ "") ps.
Proof.
  induction ps as [|p ps IH]; [done|]. simpl. intros [Hp Hin] Hlast.
  destruct ps as [|q ps].
  - constructor; [|done]. by intros ->.
  - constructor; [by apply Hp|]. by apply IH.
Qed.

(** The words of a text that is not blank: none is empty, none holds white
    space. *)
Lemma words_of_text s :
  JS.trim s ≠ "" →
  Forall (λ p, p ≠ "" ∧ no_space p) (JS.split_ws (JS.trim s)).
Proof.
  intros Hne. unfold JS.split_ws.
  pose proof (split_go_pieces (JS.trim s) false) as Hpieces.
  pose proof (split_go_first (JS.trim s) false Hne (starts_with_space_trim s)) as Hfirst.
  pose proof (split_go_last (JS.trim s) false) as Hlast.
  destruct (JS.split_go false (JS.trim s)) as [p ps].
  destruct Hpieces as (Hp & Hps & Hin & _). simpl in *.
  assert (Hall : Forall (λ p, p ≠ "") ps).
  { apply inner_ok_last; [done|]. destruct ps as [|q ps]; [done|].
    apply Hlast; [|done]. unfold JS.trim. apply trim_right_idemp. }
  constructor; [done|].
  apply Forall_and. split; [done|done].
Qed.

Lemma filter_all {A} (f : A → bool) (l : list A) :
  Forall (λ x, f x = true) l → List.filter f l = l.
Proof. induction 1 as [|x l Hx _ IH]; simpl; [done|]. by rewrite Hx, IH. Qed.

Lemma countWords_words s :
  JS.trim s ≠ "" → FileService.countWords s = length (JS.split_ws (JS.trim s)).
Proof.
  intros Hne. unfold FileService.countWords. rewrite filter_all; [done|].
  eapply Forall_impl; [apply (words_of_text s Hne)|].
  intros p [Hp _]. by destruct p.
Qed.

Lemma split_go_join p ps :
  no_space p → Forall (λ q, q ≠ "" ∧ no_space q) ps →
  JS.split_go false (JS.join " " (p :: ps)) = (p, ps).
Proof.
  intros Hp Hps. revert p Hp. induction Hps as [|q ps [Hq Hqs] _ IH]; intros p Hp.
  - by apply split_go_no_space.
  - rewrite join_cons, split_go_app by done.
    rewrite app_cons, app_empty_l. cbn [JS.split_go].
    change (JS.is_space " ") with true. cbv iota.
    destruct q as [|c q]; [done|]. rewrite join_char.
    destruct Hqs as [Hc Hqs]. rewrite split_go_true_cons by done.
    rewrite <- join_char, (IH (String c q)) by done.
    by rewrite app_empty_r.
Qed.

Lemma trim_right_no_space s : no_space s → JS.trim_right s = s.
Proof.
  induction s as [|c s IH]; [done|]. intros [Hc Hs]. rewrite trim_right_cons.
  rewrite (IH Hs). destruct s; [by rewrite Hc|done].
Qed.

Lemma trim_right_app s t :
  JS.trim_right t ≠ "" → JS.trim_right (s +:+ t) = s +:+ JS.trim_right t.
Proof.
  intros Ht. induction s as [|c s IH]; [done|].
  rewrite !app_cons, trim_right_cons, IH.
  destruct (s +:+ JS.trim_right t) eqn:Happ; [|done].
  destruct s; [|done]. by rewrite app_empty_l in Happ.
Qed.

Lemma trim_right_join p ps :
  p ≠ "" → no_space p → Forall (λ q, q ≠ "" ∧ no_space q) ps →
  JS.trim_right (JS.join " " (p :: ps)) = JS.join " " (p :: ps).
Proof.
  intros Hne Hp Hps. revert p Hne Hp.
  induction Hps as [|q ps [Hq Hqs] _ IH]; intros p Hne Hp.
  - by apply trim_right_no_space.
  - rewrite join_cons. specialize (IH q Hq Hqs).
    assert (Hrest : JS.trim_right (" " +:+ JS.join " " (q :: ps))
                    = " " +:+ JS.join " " (q :: ps)).
    { rewrite trim_right_app; [by rewrite IH|]. rewrite IH.
      destruct q; [done|]. by rewrite join_char. }
    rewrite trim_right_app; [by rewrite Hrest|]. by rewrite Hrest.
Qed.

(** A chunk made of words has as many words as it was made of. *)
Lemma countWords_join batch :
  batch ≠ [] → Forall (λ q, q ≠ "" ∧ no_space q) batch →
  FileService.countWords (JS.join " " batch) = length batch.
Proof.
  intros Hne Hall. destruct batch as [|p ps]; [done|].
  apply Forall_cons in Hall as [[Hp Hnp] Hps].
  assert (Htrim : JS.trim (JS.join " " (p :: ps)) = JS.join " " (p :: ps)).
  { unfold JS.trim. rewrite trim_left_id; [by apply trim_right_join|].
    destruct p as [|c p]; [done|]. rewrite join_char. simpl. apply Hnp. }
  unfold FileService.countWords, JS.split_ws.
  rewrite Htrim, split_go_join by done. rewrite filter_all; [done|].
  constructor; [by destruct p|].
  eapply Forall_impl; [exact Hps|]. intros q [Hq _]. by destruct q.
Qed.

Lemma join_app sep (l1 l2 : list string) :
  l1 ≠ [] → l2 ≠ [] →
  JS.join sep (l1 ++ l2) = JS.join sep l1 +:+ sep +:+ JS.join sep l2.
Proof.
  intros Hl1 Hl2. induction l1 as [|p l1 IH]; [done|].
  destruct l1 as [|q l1].
  - destruct l2 as [|r l2]; [done|]. done.
  - simpl app in *. rewrite !join_cons, IH by done. by rewrite !app_assoc_s.
Qed.

Lemma join_concat sep batches :
  Forall (λ b, b ≠ []) batches →
  JS.join sep (map (JS.join sep) batches) = JS.join sep (concat batches).
Proof.
  induction 1 as [|b bs Hb Hbs IH]; [done|]. cbn [map concat].
  destruct bs as [|b' bs]; [by rewrite app_nil_r|].
  cbn [map] in *. rewrite join_cons, IH.
  rewrite join_app; [done|done|].
  apply Forall_cons in Hbs as [Hb' _]. cbn [concat]. by destruct b'.
Qed.

Lemma chunkText_loop_batches words maxWords fuel i (acc : list (list string)) :
  chunkText_loop fuel words maxWords i (map (JS.join " ") acc)
  = map (JS.join " ") <$> createBatches_loop fuel words maxWords i acc.
Proof.
  revert i acc. induction fuel as [|fuel IH]; intros i acc; simpl.
  - by destruct (i <? length words).
  - destruct (i <? length words); [|done].
    by rewrite <- IH, map_app.
Qed.

Lemma chunkText_batches s maxWords :
  chunkText s maxWords
  = map (JS.join " ") <$> createBatches (JS.split_ws (JS.trim s)) maxWords.
Proof. apply (chunkText_loop_batches _ _ _ 0 []). Qed.

(** X25. What [parseFile] returns: a text that is not blank with its word
    count, and chunks exactly when there are more than 1000 words; then
    there are ⌈count/1000⌉ chunks, each of at least one and at most 1000
    words, and, joined by single spaces, they are the words of the text
    joined by single spaces: no word is lost, split or moved. *)
Theorem parseFile_chunks file result :
  parseFile lib file = inl result →
  JS.trim (text result) ≠ ""
  ∧ wordCount result = FileService.countWords (text result)
  ∧ match chunks result with
    | None => wordCount result ≤ 1000
    | Some chunks =>
        1000 < wordCount result
        ∧ length chunks = (wordCount result + 999) / 1000
        ∧ Forall (λ chunk, 0 < FileService.countWords chunk ≤ 1000) chunks
        ∧ JS.join " " chunks = JS.join " " (JS.split_ws (JS.trim (text result)))
    end.
Proof.
  unfold parseFile.
  destruct (if String.eqb (mimetype file) "text/plain" then _ else _)
    as [extracted|message]; [|done].
  destruct (String.eqb_spec (JS.trim extracted) "") as [|Hne]; [done|].
  pose proof (countWords_words extracted Hne) as Hcount.
  pose proof (words_of_text extracted Hne) as Hwords.
  destruct (Nat.ltb_spec 1000 (FileService.countWords extracted)) as [Hlt|Hle];
    intros [= <-]; cbn -[Nat.div]; (split; [done|]); (split; [done|]); [|done].
  split; [done|].
  rewrite chunkText_batches.
  destruct (createBatches_spec 1000 (JS.split_ws (JS.trim extracted)))
    as (batches & Hrun & Hcat & Hlen & Hne' & _); [lia|].
  pose proof (createBatches_loop_slices 1000 (JS.split_ws (JS.trim extracted))
                ltac:(lia) (length (JS.split_ws (JS.trim extracted))) 0 [] ltac:(lia))
    as Hslices.
  fold (createBatches (JS.split_ws (JS.trim extracted)) 1000) in Hslices.
  rewrite Hrun in Hslices. injection Hslices as Hslices.
  rewrite Hrun. cbn -[Nat.div]. rewrite length_map, Hlen, Hcount.
  split; [f_equal; lia|]. split.
  - rewrite <- Hcat in Hwords. apply Forall_concat in Hwords.
    apply Forall_map. apply Forall_lookup. intros j batch Hj.
    rewrite countWords_join.
    + split.
      * rewrite Forall_lookup in Hne'. specialize (Hne' _ _ Hj). destruct batch; [done|].
        simpl. lia.
      * rewrite Hslices, list_lookup_fmap in Hj.
        destruct (seq _ _ !! j) as [k|]; [|done]. injection Hj as <-.
        unfold JS.slice. rewrite length_take. lia.
    + rewrite Forall_lookup in Hne'. by apply (Hne' _ _ Hj).
    + rewrite Forall_lookup in Hwords. by apply (Hwords _ _ Hj).
  - by rewrite join_concat, Hcat.
Qed.

Lemma string_app_inv_head s t t' : s +:+ t = s +:+ t' → t = t'.
Proof.
  induction s as [|c s IH]; [done|]. rewrite !app_cons. intros [= H]. by apply IH.
Qed.

Lemma validateFile_type file :
  validateFile file
  = inr "Invalid file type. Only TXT, PDF, DOC, and DOCX files are supported."
  ↔ existsb (String.eqb (mimetype file)) allowedTypes = false.
Proof.
  unfold validateFile. destruct (existsb _ _); simpl; [|done].
  split; [|done]. by destruct (_ <? _)%Z.
Qed.

Lemma parseFile_wraps file message :
  parseFile lib file = inr message →
  ∃ reason,
    message = "Failed to parse " +:+ originalname file +:+ ": " +:+ reason
    ∧ (reason = "No text content could be extracted from the file"
       ∨ (∃ cause, reason = "Failed to parse PDF document: " +:+ cause)
       ∨ reason = "Failed to parse Word document"
       ∨ (reason = "Unsupported file type: " +:+ mimetype file
          ∧ existsb (String.eqb (mimetype file)) allowedTypes = false)).
Proof.
  unfold parseFile, allowedTypes. cbn [existsb].
  assert (Hblank : ∀ extracted : string,
    (if String.eqb (JS.trim extracted) "" then
       inr ("Failed to parse " +:+ originalname file +:+ ": "
            +:+ "No text content could be extracted from the file")
     else if 1000 <? FileService.countWords extracted then
       inl {| text := extracted;
              chunks := Some (default [] (chunkText extracted 1000));
              wordCount := FileService.countWords extracted |}
     else inl {| text := extracted; chunks := None;
                 wordCount := FileService.countWords extracted |})
    = inr message →
    ∃ reason,
      message = "Failed to parse " +:+ originalname file +:+ ": " +:+ reason
      ∧ (reason = "No text content could be extracted from the file"
         ∨ (∃ cause, reason = "Failed to parse PDF document: " +:+ cause)
         ∨ reason = "Failed to parse Word document"
         ∨ (reason = "Unsupported file type: " +:+ mimetype file
            ∧ (String.eqb (mimetype file) "text/plain"
               || (String.eqb (mimetype file) "application/pdf"
                   || (String.eqb (mimetype file) "application/msword"
                       || (String.eqb (mimetype file)
                             "application/vnd.openxmlformats-officedocument.wordprocessingml.document"
                           || false)))) = false))).
  { intros extracted. destruct (String.eqb _ ""); [|by destruct (_ <? _)].
    intros [= <-]. eexists. split; [done|]. by left. }
  destruct (String.eqb (mimetype file) "text/plain"); [apply Hblank|].
  destruct (String.eqb (mimetype file) "application/pdf").
  { unfold parsePDF. destruct (readPDF lib (buffer file)) as [pages|cause].
    - destruct (String.eqb (JS.trim (foldl _ _ _)) ""); [|apply Hblank].
      intros [= <-]. eexists. split; [done|]. right. left. by eexists.
    - intros [= <-]. eexists. split; [done|]. right. left. by eexists. }
  destruct (String.eqb (mimetype file) "application/msword"
            || String.eqb (mimetype file)
                 "application/vnd.openxmlformats-officedocument.wordprocessingml.document")
    eqn:Hword.
  { unfold parseWord. destruct (readWord lib (buffer file)) as [value|cause];
      [apply Hblank|].
    intros [= <-]. eexists. split; [done|]. right. right. by left. }
  intros [= <-]. eexists. split; [done|]. right. right. right. split; [done|].
  simpl. by rewrite orb_false_r.
Qed.

(** X26. The allow-list of [validateFile] is the list of the types
    [parseFile] has a case for: [parseFile] fails with [Unsupported file
    type] on exactly the files that [validateFile] refuses for their type;
    and whatever makes it fail, the error names the file. *)
Theorem validated_types_are_parsed file :
  (validateFile file
   = inr "Invalid file type. Only TXT, PDF, DOC, and DOCX files are supported."
   ↔ parseFile lib file
     = inr ("Failed to parse " +:+ originalname file +:+ ": "
            +:+ "Unsupported file type: " +:+ mimetype file))
  ∧ (∀ message, parseFile lib file = inr message →
       ∃ reason, message
                 = "Failed to parse " +:+ originalname file +:+ ": " +:+ reason).
Proof.
  split.
  - rewrite validateFile_type. split.
    + unfold parseFile, allowedTypes. cbn [existsb]. rewrite orb_false_r.
      intros Htype.
      apply orb_false_iff in Htype as [-> Htype].
      apply orb_false_iff in Htype as [-> Htype]. by rewrite Htype.
    + intros Hrun. destruct (parseFile_wraps _ _ Hrun) as (reason & Hmsg & Hwhy).
      apply string_app_inv_head, string_app_inv_head, string_app_inv_head in Hmsg.
      destruct Hwhy as [->|[[cause ->]|[->|[_ Htype]]]]; try done.
  - intros message Hrun. destruct (parseFile_wraps _ _ Hrun) as (reason & Hmsg & _).
    by exists reason.
Qed.

End Uploads.

(** ** The analyses kept in the browser *)

Section Persistence.
Import AnalysisPersistence.
Implicit Types (s : gmap string Value) (id analysisId : string) (index : list string).

Lemma key_inj id id' : getAnalysisKey id = getAnalysisKey id' → id = id'.
Proof. apply string_app_inv_head. Qed.

Lemma key_index id : getAnalysisKey id = ANALYSIS_INDEX_KEY → id = "index".
Proof. apply (string_app_inv_head STORAGE_KEY_PREFIX id "index"). Qed.

Lemma elem_of_without id x index : x ∈ without id index ↔ x ∈ index ∧ x ≠ id.
Proof.
  unfold without. rewrite !list_elem_of_In, List.filter_In, negb_true_iff.
  by rewrite String.eqb_neq.
Qed.

Lemma NoDup_without id index : NoDup index → NoDup (without id index).
Proof.
  rewrite !NoDup_ListNoDup. apply List.NoDup_filter.
Qed.

Lemma lookup_foldl_delete (removed : list string) s key :
  (∀ id, id ∈ removed → getAnalysisKey id ≠ key) →
  foldl (λ s id, delete (getAnalysisKey id) s) s removed !! key = s !! key.
Proof.
  revert s. induction removed as [|id removed IH]; intros s Hne; [done|].
  simpl. rewrite IH.
  - apply lookup_delete_ne, Hne. by left.
  - intros id' Hin. apply Hne. by right.
Qed.

Lemma not_expired_now now : expired now now = false.
Proof. unfold expired. rewrite Z.sub_diag. done. Qed.

(** The entry of an analysis that is not the index survives the two
    housekeeping steps of a write. *)
Lemma updateAnalysisIndex_keeps id s analysis :
  s !! getAnalysisKey id = Some (Stored analysis) →
  updateAnalysisIndex id s !! getAnalysisKey id = Some (Stored analysis).
Proof.
  intros Hs. unfold updateAnalysisIndex.
  destruct (getAnalysisIndex s) as [index|] eqn:Hindex; [|done].
  assert (Hkey : ANALYSIS_INDEX_KEY ≠ getAnalysisKey id).
  { intros Heq. unfold getAnalysisIndex in Hindex. by rewrite Heq, Hs in Hindex. }
  cbv zeta. destruct (_ <? _).
  - rewrite lookup_insert_ne by done. rewrite lookup_foldl_delete; [done|].
    intros id' Hin Heq. apply key_inj in Heq as ->.
    apply list_elem_of_lookup in Hin as [i Hi]. rewrite lookup_drop in Hi.
    unfold MAX_STORED_ANALYSES in Hi. simpl in Hi.
    apply list_elem_of_lookup_2, elem_of_without in Hi. by destruct Hi.
  - by rewrite lookup_insert_ne.
Qed.

Lemma removePersistedAnalysis_other id s key :
  key ≠ getAnalysisKey id → key ≠ ANALYSIS_INDEX_KEY →
  removePersistedAnalysis id s !! key = s !! key.
Proof.
  intros Hid Hindex. unfold removePersistedAnalysis.
  destruct (getAnalysisIndex _).
  - by rewrite lookup_insert_ne, lookup_delete_ne.
  - by rewrite lookup_delete_ne.
Qed.

Lemma cleanup_step_other now validIds s id key :
  key ≠ getAnalysisKey id → key ≠ ANALYSIS_INDEX_KEY →
  (cleanup_step now (validIds, s) id).2 !! key = s !! key.
Proof.
  intros Hid Hindex. unfold cleanup_step, getPersistedAnalysis.
  destruct (s !! getAnalysisKey id) as [[analysis|ids]|]; simpl; [| |done].
  - destruct (expired now (timestamp analysis)) eqn:He; simpl; [|by rewrite He].
    by apply removePersistedAnalysis_other.
  - by apply lookup_delete_ne.
Qed.

Lemma cleanup_step_live now validIds s id :
  live now s id = true → cleanup_step now (validIds, s) id = (validIds ++ [id], s).
Proof.
  unfold live, cleanup_step, getPersistedAnalysis.
  destruct (s !! getAnalysisKey id) as [[analysis|ids]|]; try done.
  destruct (expired now (timestamp analysis)) eqn:He; [done|]. by rewrite He.
Qed.

Lemma cleanup_step_dead now validIds s id :
  live now s id = false → (cleanup_step now (validIds, s) id).1 = validIds.
Proof.
  unfold live, cleanup_step, getPersistedAnalysis.
  destruct (s !! getAnalysisKey id) as [[analysis|ids]|]; try done.
  destruct (expired now (timestamp analysis)) eqn:He; [done|]. by rewrite He.
Qed.

Lemma cleanup_loop_live now index validIds s :
  Forall (λ id, live now s id = true) index →
  foldl (cleanup_step now) (validIds, s) index = (validIds ++ index, s).
Proof.
  intros Hall. revert validIds.
  induction Hall as [|id index Hid _ IH]; intros validIds; cbn [foldl].
  - by rewrite app_nil_r.
  - by rewrite (cleanup_step_live _ _ _ _ Hid), IH, <- app_assoc.
Qed.

(** The loop of [cleanupOldAnalyses], from a state that agrees with [s]
    on the entries still to visit and on the live ones. *)
Lemma cleanup_loop now s index :
  NoDup index → "index" ∉ index →
  ∀ validIds sk,
    (∀ id, id ≠ "index" → id ∈ index ∨ live now s id = true →
           sk !! getAnalysisKey id = s !! getAnalysisKey id) →
    (foldl (cleanup_step now) (validIds, sk) index).1
    = validIds ++ List.filter (live now s) index
    ∧ (∀ id, id ≠ "index" → live now s id = true →
             (foldl (cleanup_step now) (validIds, sk) index).2 !! getAnalysisKey id
             = s !! getAnalysisKey id).
Proof.
  intros Hnd. induction Hnd as [|x index Hx Hnd IH]; intros Hindex validIds sk Hagree.
  - cbn [foldl List.filter fst snd]. rewrite app_nil_r. split; [done|].
    intros id Hne Hlive. apply Hagree; auto.
  - apply not_elem_of_cons in Hindex as [Hxi Hindex].
    assert (Hsame : live now sk x = live now s x).
    { unfold live. rewrite Hagree; [done|done|]. left. by left. }
    cbn [foldl]. destruct (cleanup_step now (validIds, sk) x) as [validIds' sk'] eqn:Hstep.
    assert (Hagree' : ∀ id, id ≠ "index" → id ∈ index ∨ live now s id = true →
                            sk' !! getAnalysisKey id = s !! getAnalysisKey id).
    { intros id Hne Hid.
      destruct (live now s x) eqn:Hlive.
      - rewrite cleanup_step_live in Hstep by done. injection Hstep as _ <-.
        apply Hagree; [done|]. destruct Hid; [left; by right|by right].
      - assert (Hidx : id ≠ x).
        { intros ->. destruct Hid as [Hin|Hl]; [done|]. by rewrite Hlive in Hl. }
        change sk' with (validIds', sk').2. rewrite <- Hstep.
        rewrite cleanup_step_other.
        + apply Hagree; [done|]. destruct Hid; [left; by right|by right].
        + intros Heq. by apply key_inj in Heq.
        + intros Heq. by apply key_index in Heq. }
    destruct (IH Hindex validIds' sk' Hagree') as [Hvalid Hkeep].
    split; [|exact Hkeep]. rewrite Hvalid. cbn [List.filter].
    destruct (live now s x) eqn:Hlive.
    + rewrite cleanup_step_live in Hstep by done.
      injection Hstep as <- _. by rewrite <- app_assoc.
    + pose proof (cleanup_step_dead now validIds sk x Hsame) as Hdead.
      rewrite Hstep in Hdead. simpl in Hdead. by rewrite Hdead.
Qed.

Lemma cleanupOldAnalyses_keeps now id s analysis :
  s !! getAnalysisKey id = Some (Stored analysis) →
  timestamp analysis = now →
  cleanupOldAnalyses now s !! getAnalysisKey id = Some (Stored analysis).
Proof.
  intros Hs Hnow. unfold cleanupOldAnalyses.
  destruct (getAnalysisIndex s) as [index|] eqn:Hindex; [|done].
  assert (Hkey : ANALYSIS_INDEX_KEY ≠ getAnalysisKey id).
  { intros Heq. unfold getAnalysisIndex in Hindex. by rewrite Heq, Hs in Hindex. }
  assert (Hloop : ∀ validIds sk,
    sk !! getAnalysisKey id = Some (Stored analysis) →
    (foldl (cleanup_step now) (validIds, sk) index).2 !! getAnalysisKey id
    = Some (Stored analysis)).
  { clear Hindex. induction index as [|x index IH]; intros validIds sk Hsk; [done|].
    cbn [foldl]. destruct (cleanup_step now (validIds, sk) x) as [validIds' sk'] eqn:Hstep.
    apply IH. change sk' with (validIds', sk').2. rewrite <- Hstep.
    destruct (decide (x = id)) as [->|Hne].
    - rewrite cleanup_step_live; [done|].
      unfold live. by rewrite Hsk, Hnow, not_expired_now.
    - rewrite cleanup_step_other; [done| |done].
      intros Heq. by apply key_inj in Heq. }
  specialize (Hloop [] s Hs).
  destruct (foldl (cleanup_step now) ([], s) index) as [validIds s'].
  destruct (_ =? _); [done|]. by rewrite lookup_insert_ne.
Qed.

(** X27. An analysis written to the browser is read back as written until
    it expires: within 24 hours of the write [getPersistedAnalysis] returns
    it and changes nothing; after that it returns nothing and removes the
    entry.  This holds whatever the storage held before, and for every
    id. *)
Theorem persisted_analysis_is_read_back analysisId results textContent analysisType
    llmProvider now later s :
  let analysis :=
    {| id := analysisId; results := results; timestamp := now;
       textContent := textContent; analysisType := analysisType;
       llmProvider := llmProvider |} in
  let s' := persistAnalysisResults analysisId results textContent analysisType
              llmProvider now s in
  s' !! getAnalysisKey analysisId = Some (Stored analysis)
  ∧ getPersistedAnalysis analysisId later s'
    = (if expired later now then (None, removePersistedAnalysis analysisId s')
       else (Some (Stored analysis), s'))
  ∧ removePersistedAnalysis analysisId s' !! getAnalysisKey analysisId
    = (if String.eqb analysisId "index" then Some (Index []) else None).
Proof.
  intros analysis s'.
  assert (Hs' : s' !! getAnalysisKey analysisId = Some (Stored analysis)).
  { unfold s', persistAnalysisResults.
    apply cleanupOldAnalyses_keeps; [|done].
    apply updateAnalysisIndex_keeps. apply lookup_insert_eq. }
  split; [exact Hs'|]. split.
  - unfold getPersistedAnalysis. by rewrite Hs'.
  - unfold removePersistedAnalysis.
    destruct (String.eqb_spec analysisId "index") as [->|Hne].
    + change (getAnalysisKey "index") with ANALYSIS_INDEX_KEY.
      unfold getAnalysisIndex. rewrite lookup_delete_eq. by rewrite lookup_insert_eq.
    + destruct (getAnalysisIndex _).
      * rewrite lookup_insert_ne, lookup_delete_eq; [done|].
        intros Heq. symmetry in Heq. by apply key_index in Heq.
      * by rewrite lookup_delete_eq.
Qed.

(** X28. The index after a write: the new id first, then the ids that
    were indexed, in their order, up to ten in all, less those whose entry
    is missing or has expired.  So the index holds no id twice and at most
    ten, and each of its ids has a live entry. *)
Theorem index_after_a_write analysisId results textContent analysisType llmProvider
    now s index :
  getAnalysisIndex s = Some index →
  NoDup index →
  "index" ∉ index →
  analysisId ≠ "index" →
  let s' := persistAnalysisResults analysisId results textContent analysisType
              llmProvider now s in
  let index' :=
    analysisId :: List.filter (live now s) (take 9 (without analysisId index)) in
  getAnalysisIndex s' = Some index'
  ∧ NoDup index'
  ∧ length index' ≤ 10
  ∧ Forall (λ id, live now s' id = true) index'.
Proof.
  intros Hindex Hnd Hni Hne s' index'.
  set (analysis := {| id := analysisId; results := results; timestamp := now;
                      textContent := textContent; analysisType := analysisType;
                      llmProvider := llmProvider |}).
  set (s0 := <[getAnalysisKey analysisId := Stored analysis]> s).
  set (full := analysisId :: without analysisId index).
  assert (Hkey : getAnalysisKey analysisId ≠ ANALYSIS_INDEX_KEY).
  { intros Heq. by apply key_index in Heq. }
  assert (Hfull : NoDup full).
  { apply NoDup_cons. split; [|by apply NoDup_without].
    rewrite elem_of_without. by intros [_ ?]. }
  assert (Hfull_ni : "index" ∉ full).
  { apply not_elem_of_cons. split; [done|]. rewrite elem_of_without. by intros [? _]. }
  (* the index step *)
  set (s1 := updateAnalysisIndex analysisId s0).
  assert (Hs1 : getAnalysisIndex s1 = Some (take 10 full)
                ∧ ∀ id, id ∈ take 10 full →
                        s1 !! getAnalysisKey id = s0 !! getAnalysisKey id).
  { unfold s1, updateAnalysisIndex.
    assert (Hindex0 : getAnalysisIndex s0 = Some index).
    { unfold getAnalysisIndex, s0. by rewrite lookup_insert_ne. }
    rewrite Hindex0. cbv zeta. fold full. unfold MAX_STORED_ANALYSES.
    destruct (Nat.ltb_spec 10 (length full)) as [Hlong|Hshort].
    - split; [unfold getAnalysisIndex; by rewrite lookup_insert_eq|].
      intros id Hin. rewrite lookup_insert_ne.
      + apply lookup_foldl_delete. intros id' Hin' Heq. apply key_inj in Heq as ->.
        rewrite <- (take_drop 10 full) in Hfull.
        apply NoDup_app in Hfull as (_ & Hdisjoint & _). by apply (Hdisjoint id).
      + intros Heq. symmetry in Heq. apply key_index in Heq as ->.
        by apply elem_of_take in Hin as (? & ?%list_elem_of_lookup_2 & _).
    - rewrite take_ge by done.
      split; [unfold getAnalysisIndex; by rewrite lookup_insert_eq|].
      intros id Hin. rewrite lookup_insert_ne; [done|].
      intros Heq. symmetry in Heq. by apply key_index in Heq as ->. }
  destruct Hs1 as [Hindex1 Hsame1].
  assert (Htake_nd : NoDup (take 10 full)).
  { rewrite <- (take_drop 10 full) in Hfull. by apply NoDup_app in Hfull as (? & _). }
  assert (Htake_ni : "index" ∉ take 10 full).
  { by intros (? & ?%list_elem_of_lookup_2 & _)%elem_of_take. }
  (* the cleaning step *)
  destruct (cleanup_loop now s1 (take 10 full) Htake_nd Htake_ni [] s1) as [Hvalid Hkeep];
    [done|].
  assert (Hlive1 : ∀ id, id ∈ take 10 full → live now s1 id = live now s0 id).
  { intros id Hin. unfold live. by rewrite Hsame1. }
  assert (Hlive0 : ∀ id, id ≠ analysisId → live now s0 id = live now s id).
  { intros id Hid. unfold live, s0. rewrite lookup_insert_ne; [done|].
    intros Heq. by apply key_inj in Heq. }
  assert (Hself : live now s0 analysisId = true).
  { unfold live, s0. rewrite lookup_insert_eq. simpl. by rewrite not_expired_now. }
  assert (Hfilter : List.filter (live now s1) (take 10 full) = index').
  { unfold index', full. simpl take. simpl List.filter.
    rewrite Hlive1 by by left. rewrite Hself. f_equal.
    apply List.filter_ext_in_iff. intros id Hin%list_elem_of_In.
    assert (Hid : id ≠ analysisId).
    { apply elem_of_take in Hin as (? & Hin%list_elem_of_lookup_2 & _).
      apply elem_of_without in Hin. by destruct Hin. }
    rewrite Hlive1 by by right. by apply Hlive0. }
  assert (Hfinal : getAnalysisIndex s' = Some index'
                   ∧ ∀ id, id ≠ "index" → live now s1 id = true →
                           s' !! getAnalysisKey id = s1 !! getAnalysisKey id).
  { unfold s', persistAnalysisResults. fold analysis s0 s1.
    unfold cleanupOldAnalyses. rewrite Hindex1.
    destruct (foldl (cleanup_step now) ([], s1) (take 10 full)) as [validIds s2] eqn:Hloop.
    cbn [fst snd app] in Hvalid, Hkeep. rewrite Hfilter in Hvalid. subst validIds.
    destruct (Nat.eqb_spec (length index') (length (take 10 full))) as [Hlen|Hlen].
    - assert (Hall : Forall (λ id, live now s1 id = true) (take 10 full)).
      { rewrite <- Hfilter in Hlen. clear -Hlen.
        induction (take 10 full) as [|x l IH]; [done|]. simpl in Hlen.
        pose proof (List.filter_length_le (live now s1) l) as Hle.
        destruct (live now s1 x) eqn:Hx; simpl in Hlen; [|lia].
        constructor; [done|]. apply IH. lia. }
      rewrite cleanup_loop_live in Hloop by done. injection Hloop as Hids <-.
      split; [|done]. rewrite Hindex1. f_equal. rewrite <- Hfilter.
      symmetry. apply filter_all. exact Hall.
    - split; [unfold getAnalysisIndex; by rewrite lookup_insert_eq|].
      intros id Hid Hlive. rewrite lookup_insert_ne; [by apply Hkeep|].
      intros Heq. symmetry in Heq. by apply key_index in Heq. }
  destruct Hfinal as [Hindex' Hkeep'].
  assert (Hnd' : NoDup index').
  { rewrite <- Hfilter, NoDup_ListNoDup. apply List.NoDup_filter.
    by rewrite <- NoDup_ListNoDup. }
  assert (Hlen' : length index' ≤ 10).
  { rewrite <- Hfilter. etrans; [apply List.filter_length_le|]. rewrite length_take. lia. }
  repeat split; try done.
  rewrite <- Hfilter. apply Forall_forall. intros id Hin.
  apply list_elem_of_In, List.filter_In in Hin as [Hin%list_elem_of_In Hlive].
  unfold live. rewrite Hkeep'; [exact Hlive| |done].
  intros ->. by apply Htake_ni.
Qed.

End Persistence.

(** ** Claiming credits bought before signing in *)

Section Claims.
Import PendingCredits.
Implicit Types (l : Ledger) (row pendingCredit : PendingCredit)
  (rows : list PendingCredit).

Lemma has_token_claim token userId row :
  has_token token (claim userId row) = has_token token row.
Proof. done. Qed.

Lemma find_marked token userId rows :
  List.find (has_token token)
            (map (λ row, if has_token token row then claim userId row else row) rows)
  = claim userId <$> List.find (has_token token) rows.
Proof.
  induction rows as [|row rows IH]; [done|]. simpl.
  destruct (has_token token row) eqn:Hrow.
  - by rewrite has_token_claim, Hrow.
  - by rewrite Hrow.
Qed.

Lemma filter_marked token userId rows :
  List.filter (has_token token)
              (map (λ row, if has_token token row then claim userId row else row) rows)
  = map (claim userId) (List.filter (has_token token) rows).
Proof.
  induction rows as [|row rows IH]; [done|]. simpl.
  destruct (has_token token row) eqn:Hrow.
  - rewrite has_token_claim, Hrow. simpl. by rewrite IH.
  - by rewrite Hrow.
Qed.

Lemma find_filter {A} (f : A → bool) (rows : list A) x :
  List.find f rows = Some x → ∃ rest, List.filter f rows = x :: rest.
Proof.
  induction rows as [|y rows IH]; [done|]. simpl.
  destruct (f y); [intros [= ->]; by eexists|exact IH].
Qed.

(** What a claim does when the first row with the token is not claimed. *)
Lemma claimPendingCredit_run token userId l pendingCredit :
  getPendingCreditByToken token l = Some pendingCredit →
  claimed pendingCredit = false →
  claimPendingCredit token userId l
  = (Some (claim userId pendingCredit),
     {| world :=
          match users (world l) !! userId with
          | Some user =>
              DatabaseStorage.updateUserCredits userId
                (User.credits user + credits pendingCredit) (world l)
          | None => world l
          end;
        pendingCredits :=
          map (λ row, if has_token token row then claim userId row else row)
              (pendingCredits l) |}).
Proof.
  intros Hfind Hclaimed. unfold claimPendingCredit. rewrite Hfind, Hclaimed.
  unfold getPendingCreditByToken in Hfind.
  destruct (find_filter _ _ _ Hfind) as [rest Hfilter].
  rewrite filter_marked, Hfilter. simpl. unfold DatabaseStorage.getUserById.
  by destruct (users (world l) !! userId).
Qed.


(** X30. A token is good for one claim: once a claim of it has returned a
    credit, every further claim of the same token, by whoever, returns
    nothing and changes nothing, and the route answers 404. *)
Theorem a_token_is_claimed_once token userId other l claimedCredit l' :
  claimPendingCredit token userId l = (Some claimedCredit, l') →
  token ≠ "" →
  claimed claimedCredit = true
  ∧ claimedByUserId claimedCredit = Some userId
  ∧ claimPendingCredit token other l' = (None, l')
  ∧ claim_credits token (Some other) l'
    = (NotFound "Invalid or already claimed token", l').
Proof.
  intros Hclaim Htoken.
  assert (Hfirst : ∃ pendingCredit,
            getPendingCreditByToken token l = Some pendingCredit
            ∧ claimed pendingCredit = false).
  { unfold claimPendingCredit in Hclaim.
    destruct (getPendingCreditByToken token l) as [pendingCredit|]; [|done].
    exists pendingCredit. split; [done|]. by destruct (claimed pendingCredit). }
  destruct Hfirst as (pendingCredit & Hfind & Hclaimed).
  rewrite (claimPendingCredit_run _ _ _ _ Hfind Hclaimed) in Hclaim.
  injection Hclaim as <- <-.
  match goal with |- context [claimPendingCredit token other ?l1] => set (l' := l1) end.
  assert (Hagain : claimPendingCredit token other l' = (None, l')).
  { unfold claimPendingCredit, getPendingCreditByToken in *. simpl.
    by rewrite find_marked, Hfind. }
  split; [done|]. split; [done|]. split; [exact Hagain|].
  unfold claim_credits. apply String.eqb_neq in Htoken. by rewrite Htoken, Hagain.
Qed.

End Claims.

(** ** Further scenarios *)

Section FurtherScenarios.
Import Scenario Sample.

Lemma keyed_world type user : keyed "job" (world type user).
Proof. intros analysis. simpl. by intros [_ <-]%lookup_singleton_Some. Qed.

Lemma undisturbed_quiet : undisturbed quiet.
Proof.
  split; [|done]. intros [|batchNumber] call Hin; simpl in Hin;
    repeat (apply elem_of_cons in Hin as [Hin|Hin]; [done|]);
    by apply elem_of_nil in Hin.
Qed.

(** X2 on the subscriber 7, subscribing twice more, and a stranger 8. *)
Lemma broadcast_exactly_once_witness :
  let w := world "cognitive" (bob 600) in
  let w' := streamAnalysis "job" 7 (streamAnalysis "job" 7 w) in
  received 7 (broadcastToStream "job" EvComplete w') = received 7 w ++ [EvComplete]
  ∧ received 8 (broadcastToStream "job" EvComplete w') = received 8 w.
Proof.
  apply (broadcast_exactly_once (world "cognitive" (bob 600)) "job" 7 8 EvComplete).
  - apply registry_ok_world.
  - by intros ?%list_elem_of_singleton.
  - done.
Defined.

(** X3 on the channels of two jobs. *)
Lemma channels_are_independent_witness :
  let w := world "cognitive" (bob 600) in
  activeStreams (streamAnalysis "job" 8 w) !! "other" = activeStreams w !! "other"
  ∧ activeStreams (stopStreaming "job" w) !! "other" = activeStreams w !! "other"
  ∧ activeStreams (stopAnalysis "job" w) !! "other" = activeStreams w !! "other"
  ∧ activeStreams (broadcastToStream "job" EvComplete w) !! "other"
    = activeStreams w !! "other".
Proof.
  apply (channels_are_independent (world "cognitive" (bob 600)) "job" "other" 8
           EvComplete).
  done.
Defined.

(** X6 on a run that is stopped while batch 1 streams. *)
Lemma registry_stays_well_formed_witness :
  let w := world "psychological" (bob 600) in
  registry_ok (streamAnalysis "job" 8 w)
  ∧ registry_ok (stopStreaming "job" w)
  ∧ registry_ok (stopAnalysis "job" w)
  ∧ registry_ok (startAnalysis stop_in_batch "job" w).
Proof.
  apply (registry_stays_well_formed stop_in_batch "job" 8
           (world "psychological" (bob 600))).
  apply registry_ok_world.
Defined.

(** X7 on a run that fails: the stop during the summary leaves the job in
    error, and the 1500 credits are gone. *)
Lemma failed_run_is_not_refunded_witness :
  let w' := startAnalysis stop_in_summary "job" (world "psychological" (bob 5000)) in
  Analysis.status <$> analyses w' !! "job" = Some "error"
  ∧ users w' = <[1%Z := User.with_credits (5000 - 1500) (bob 5000)]>
                 (users (world "psychological" (bob 5000))).
Proof.
  split; [vm_compute; reflexivity|].
  apply (failed_run_is_not_refunded stop_in_summary "job" (job "psychological")
           psychological 1 (bob 5000) (world "psychological" (bob 5000)));
    [reflexivity|reflexivity|reflexivity|discriminate|reflexivity|reflexivity
    |vm_compute; discriminate].
Defined.

(** X8 on a run that completes. *)
Lemma run_writes_only_its_own_witness :
  let w := world "psychological" (bob 5000) in
  let w' := startAnalysis quiet "job" w in
  (∀ other, other ≠ "job" → analyses w' !! other = analyses w !! other)
  ∧ (∀ userId, analyses w !! "job" ≫= Analysis.userId ≠ Some userId →
               users w' !! userId = users w !! userId).
Proof.
  apply (run_writes_only_its_own quiet "job" (world "psychological" (bob 5000))).
  apply keyed_world.
Defined.

(** X9 on a kind the service does not know. *)
Lemma unknown_kind_fails_witness :
  ∃ w',
    processAnalysis quiet "job" (world "astrological" (bob 5000))
    = (Thrown "Analysis type astrological not implemented", w')
    ∧ delivered w' = delivered (world "astrological" (bob 5000))
    ∧ Analysis.status <$> analyses w' !! "job" = Some "error"
    ∧ received 7 (startAnalysis quiet "job" (world "astrological" (bob 5000)))
      = [EvError "Analysis type astrological not implemented"].
Proof.
  destruct (unknown_kind_fails quiet "job" (job "astrological")
              (world "astrological" (bob 5000)))
    as (w' & Hrun & Hdelivered & _ & Hstatus & _ & _); [reflexivity|reflexivity|].
  exists w'. split; [exact Hrun|]. split; [exact Hdelivered|].
  split; [exact Hstatus|]. vm_compute. reflexivity.
Defined.

(** X10 on a provider that ends the summary without a chunk. *)
Lemma summary_failure_fails_the_run_witness :
  ∃ w',
    processAnalysis mute "job" (world "psychological" (bob 600))
    = (Thrown ("Summary generation failed: "
               +:+ "No content received from LLM during summary generation"), w')
    ∧ Analysis.status <$> analyses w' !! "job" = Some "error".
Proof.
  destruct (summary_failure_fails_the_run mute "job" (job "psychological")
              psychological (world "psychological" (bob 600))
              "No content received from LLM during summary generation")
    as (w' & Hrun & Hstatus & _); [reflexivity|reflexivity|reflexivity|].
  exists w'. split; [exact Hrun|exact Hstatus].
Defined.

(** X11 on a run that completes. *)
Lemma undisturbed_run_ends_once_witness :
  let w := world "psychological" (bob 5000) in
  activeStreams (startAnalysis quiet "job" w) = activeStreams w
  ∧ ∃ events,
      received 7 (startAnalysis quiet "job" w)
      = received 7 w ++ events ++ [closing (processAnalysis quiet "job" w).1]
      ∧ Forall not_terminal events.
Proof.
  apply (undisturbed_run_ends_once quiet "job" (world "psychological" (bob 5000)) 7
           {| callbacks := [7]; isActive := true |}).
  - apply undisturbed_quiet.
  - reflexivity.
  - reflexivity.
  - apply NoDup_singleton.
  - by apply list_elem_of_singleton.
Defined.

(** X12 on a user with too few credits. *)
Lemma partial_tier_sends_previews_only_witness :
  delivers preview (world "psychological" (bob 600))
           (startAnalysis quiet "job" (world "psychological" (bob 600))).
Proof.
  apply (partial_tier_sends_previews_only quiet "job" (job "psychological")
           (world "psychological" (bob 600)) (world "psychological" (bob 600)));
    reflexivity.
Defined.

(** X13 on the pause after batch 1. *)
#[warnings="-abstract-large-number"]
Lemma delay_counts_to_a_hundred_witness :
  let w := world "psychological" (bob 600) in
  activeStreams (streamDelay quiet "job" 10000 1 w) = activeStreams w
  ∧ received 7 (streamDelay quiet "job" 10000 1 w)
    = received 7 w ++ map EvDelay (seq 0 101).
Proof.
  apply (delay_counts_to_a_hundred quiet "job" 1 (world "psychological" (bob 600)) 7
           {| callbacks := [7]; isActive := true |}).
  - reflexivity.
  - reflexivity.
  - reflexivity.
  - apply NoDup_singleton.
  - by apply list_elem_of_singleton.
Defined.

(** X14 on the two chunks of the summary and of batch 1, at the full
    tier. *)
Lemma text_events_are_snapshots_witness :
  let w := world "psychological" (bob 5000) in
  (∃ w',
     streamSummary quiet (job "psychological") true w = (Returned "Hello world", w')
     ∧ received 7 w' = [EvSummary "Hello"; EvSummary "Hello world"])
  ∧ (∃ w',
       processBatch quiet (job "psychological") ["q1"; "q2"] 1 true w
       = (Returned "Answer one.", w')
       ∧ received 7 w'
         = [EvRawStream 1 "Answer "; EvRawStream 1 "Answer one.";
            EvBatchComplete 1 "Answer one."]).
Proof.
  apply (text_events_are_snapshots quiet (job "psychological") true ["q1"; "q2"] 1
           (world "psychological" (bob 5000)) 7 {| callbacks := [7]; isActive := true |}
           ["Hello"; " world"] ["Answer "; "one."]).
  - reflexivity.
  - reflexivity.
  - discriminate.
  - discriminate.
  - reflexivity.
  - reflexivity.
  - apply NoDup_singleton.
  - by apply list_elem_of_singleton.
Defined.

(** X15 on a run that is stopped while batch 1 streams. *)
Lemma stopped_run_ends_in_silence_witness :
  delivers not_terminal (world "psychological" (bob 600))
           (startAnalysis stop_in_batch "job" (world "psychological" (bob 600))).
Proof.
  apply (stopped_run_ends_in_silence stop_in_batch "job"
           (world "psychological" (bob 600))).
  vm_compute. reflexivity.
Defined.

(** X16 on seven items in batches of three. *)
Lemma createBatches_slices_witness :
  createBatches [1; 2; 3; 4; 5; 6; 7] 3 = Some [[1; 2; 3]; [4; 5; 6]; [7]].
Proof.
  destruct (createBatches_slices 3 [1; 2; 3; 4; 5; 6; 7]) as [Hslices _].
  apply Hslices. lia.
Defined.

Lemma two_batches_answers : answers_in_chunks two_batches answers.
Proof. by intros [|batchNumber]. Qed.

(** X17 on a job of six questions, at the full tier. *)
Lemma successful_run_events_witness :
  received 7 (startAnalysis two_batches "job" (world "cognitive" (bob 5000)))
  = [EvSummary "Hello"; EvSummary "Hello world";
     EvRawStream 1 "Answer "; EvRawStream 1 "Answer one.";
     EvBatchComplete 1 "Answer one."]
    ++ map EvDelay (seq 0 101)
    ++ [EvRawStream 2 "Answer "; EvRawStream 2 "Answer one.";
        EvBatchComplete 2 "Answer one."; EvComplete].
Proof.
  destruct (successful_run_events two_batches answers "job" (job "cognitive")
              cognitive true (world "cognitive" (bob 5000))
              (resolveAccess (job "cognitive") (world "cognitive" (bob 5000))).2
              7 {| callbacks := [7]; isActive := true |})
    as (_ & Hreceived & _).
  - apply two_batches_answers.
  - reflexivity.
  - reflexivity.
  - apply keyed_world.
  - reflexivity.
  - reflexivity.
  - reflexivity.
  - reflexivity.
  - apply NoDup_singleton.
  - by apply list_elem_of_singleton.
  - exact Hreceived.
Defined.


(** X20 on one long word. *)
Lemma client_hides_what_server_shows_witness :
  truncateToPercentage "Antidisestablishmentarianism" 30
  = "Antidisestablishmentarianism"
  ∧ UserCredits.truncateToPercentage "Antidisestablishmentarianism" 30 = "".
Proof.
  apply (client_hides_what_server_shows "Antidisestablishmentarianism").
  simpl. repeat split.
Defined.

(** X21 on the response of the scenario of C8, read in one piece. *)
Lemma stream_is_independent_of_the_reads_witness :
  LLMService.streamResponse parse "sk-test" LLMService.zhi1
    (with_body response [wire_of reads])
  = LLMService.streamResponse parse "sk-test" LLMService.zhi1 response.
Proof.
  apply (stream_is_independent_of_the_reads parse LLMService.zhi1 "sk-test" response
           reads [wire_of reads]).
  - reflexivity.
  - apply app_empty_r.
Defined.

(** X22 on a frame that follows the sentinel. *)
Lemma done_ends_the_stream_witness :
  LLMService.streamResponse parse "sk-test" LLMService.zhi1 (ok_response after_done)
  = LLMService.streamResponse parse "sk-test" LLMService.zhi1
      (with_body (ok_response after_done)
                 [unlines ["data: " +:+ delta_payload "Hello"]]).
Proof.
  apply (done_ends_the_stream parse LLMService.zhi1 "sk-test" (ok_response after_done)
           after_done [unlines ["data: " +:+ delta_payload "Hello"]]
           ["data: " +:+ delta_payload "Hello"] "[DONE]"
           ["data: " +:+ delta_payload "late"]).
  - reflexivity.
  - apply app_empty_r.
  - apply app_empty_r.
  - vm_compute. repeat constructor.
  - reflexivity.
Defined.

(** X23 on a last frame without its line feed. *)
Lemma unterminated_line_is_lost_witness :
  LLMService.streamResponse parse "sk-test" LLMService.zhi1 (ok_response no_line_feed)
  = LLMService.streamResponse parse "sk-test" LLMService.zhi1
      (with_body (ok_response no_line_feed)
                 [unlines ["data: " +:+ delta_payload "Hello"]]).
Proof.
  apply (unterminated_line_is_lost parse LLMService.zhi1 "sk-test"
           (ok_response no_line_feed) no_line_feed
           [unlines ["data: " +:+ delta_payload "Hello"]]
           ["data: " +:+ delta_payload "Hello"]
           ("data: " +:+ delta_payload " world")).
  - reflexivity.
  - vm_compute. reflexivity.
  - apply app_empty_r.
  - vm_compute. repeat constructor.
  - vm_compute. repeat split.
Defined.

(** X25 on a text file of two words. *)
Lemma parseFile_chunks_witness :
  FileParsing.parseFile lib notes
  = inl {| FileParsing.text := "hello world"; FileParsing.chunks := None;
           FileParsing.wordCount := 2 |}
  ∧ FileService.countWords "hello world" = 2.
Proof.
  split; [reflexivity|].
  destruct (parseFile_chunks lib notes
              {| FileParsing.text := "hello world"; FileParsing.chunks := None;
                 FileParsing.wordCount := 2 |})
    as (_ & Hcount & _); [reflexivity|].
  symmetry. exact Hcount.
Defined.

(** X28 on the first write to an empty storage. *)
Lemma index_after_a_write_witness :
  let s' := AnalysisPersistence.persistAnalysisResults
              "a1" LLMService.JNull "text" "cognitive" "zhi1" 1000 ∅ in
  AnalysisPersistence.getAnalysisIndex s' = Some ["a1"]
  ∧ NoDup ["a1"]
  ∧ length ["a1"] ≤ 10
  ∧ Forall (λ id, live 1000 s' id = true) ["a1"].
Proof.
  apply (index_after_a_write "a1" LLMService.JNull "text" "cognitive" "zhi1" 1000 ∅ []).
  - reflexivity.
  - apply NoDup_nil_2.
  - by intros ?%elem_of_nil.
  - discriminate.
Defined.


(** X30 on the same purchase, claimed again by the user 2. *)
Lemma a_token_is_claimed_once_witness :
  let l' := (PendingCredits.claimPendingCredit "claim_1" 1 ledger).2 in
  PendingCredits.claimPendingCredit "claim_1" 2 l' = (None, l')
  ∧ PendingCredits.claim_credits "claim_1" (Some 2%Z) l'
    = (PendingCredits.NotFound "Invalid or already claimed token", l').
Proof.
  destruct (a_token_is_claimed_once "claim_1" 1 2 ledger
              (PendingCredits.claim 1 purchase)
              (PendingCredits.claimPendingCredit "claim_1" 1 ledger).2)
    as (_ & _ & Hagain & Hroute); [reflexivity|discriminate|].
  split; [exact Hagain|exact Hroute].
Defined.

End FurtherScenarios.
